(** * The on-demand package loader of Blossom ([SC.Package])

    A shallow embedding of the package manager defined in the second half of
    [application/surfaces/composite.js] ([SC.Package = SC.Object.extend({...})]),
    together with the properties of its loading, evaluation, callback and
    dependency machinery.

    Modelling conventions.
    - [SC.PACKAGE_MANIFEST] is a JavaScript object used as a map from package
      names to package hashes: a [gmap string Package.t].  A local variable
      [package] of the source is a reference to the hash stored under
      [packageName]; every field write [package.f = v] is therefore an in-place
      update of the manifest entry ([update packageName (set_f v)]), and every
      read after a call that may have changed the hash re-reads the entry.
    - A hash field holding a flag ([isLoaded], [isReady], ...) is a [bool]; the
      source only ever tests these fields for truthiness, and an absent field
      is falsy, so [delete package.isLoading] is [set_isLoading false].
      Fields holding arrays or objects are [option]s: [None] is the absent
      (or deleted) property, [Some []] an empty array, which is truthy.
    - [package.source] is an object keyed by category; it is an association
      list in insertion order, so that statements about the order of the
      categories in the source mapping can be made.
    - The loader is effectful: it mutates the manifest, logs, appends script
      elements, runs code and calls callbacks.  Functions are written in a
      state-and-exception monad over a [World] that holds the manifest and the
      trace of observable events.  A JavaScript [throw] is [Throw]; the state
      reached before the throw is kept, as in JavaScript.
    - The code handed to [eval] and the bodies of the registered callbacks are
      opaque: they are represented by two oracles that say whether the call
      returns or raises, and are assumed not to touch the manifest (in
      particular, not to call back into the loader).
    - [loadPackage], [_sc_evaluateJavaScriptForPackage] and
      [_sc_packageDidExecute] are mutually recursive.  Each is first written
      with the function it calls as a parameter, and the knot is tied by
      recursion on a fuel counter.

    The loader is embedded twice.  [Section Loader] is the embedding described
    above, and the properties of loading, evaluation and dependencies are
    proved on it.  It makes three assumptions about what is outside the
    source: user code does not call the loader, the argument array passed to
    [registerCallbackForPackage] is used nowhere else, and no name looked up
    in the manifest is a member of [Object.prototype].  [Module Refined]
    embeds the same functions without the three: callbacks and package code
    are code that may call the loader, arrays are objects held by reference,
    and a lookup sees the inherited names.  What the loader does with
    callbacks that call it, with shared argument arrays and with names that
    are not in the manifest is stated on [Refined]. *)

From stdpp Require Import gmap strings list.
From Stdlib Require Import ZArith Ascii.

Local Open Scope Z_scope.
Local Open Scope string_scope.
Local Open Scope list_scope.

(** ** JavaScript values that reach the loader as [target], [method], [args] *)

Inductive value : Type :=
  | VUndefined
  | VNull
  | VBool (b : bool)
  | VNumber (z : Z)
  | VString (s : string)
  | VObject (id : nat)
  | VFunction (id : nat).

Global Instance value_eq_dec : EqDecision value.
Proof. solve_decision. Defined.

(** [if (v)]: JavaScript truthiness. *)
Definition truthy (v : value) : bool :=
  match v with
  | VUndefined | VNull => false
  | VBool b => b
  | VNumber z => negb (Z.eqb z 0)
  | VString s => negb (String.eqb s "")
  | VObject _ | VFunction _ => true
  end.

(** [SC.none(v)]: [v] is [null] or [undefined]. *)
Definition SC_none (v : value) : bool :=
  match v with
  | VUndefined | VNull => true
  | _ => false
  end.

(** [SC.typeOf(v) === SC.T_FUNCTION]. *)
Definition is_function (v : value) : bool :=
  match v with
  | VFunction _ => true
  | _ => false
  end.

(** The closure [cb] built by [registerCallbackForPackage]: it captures
    [target], [method] and [args] and, when called, performs
    [method.apply(target, args)]. *)
Record Callback : Type := mkCallback {
  cb_target : value;
  cb_method : value;
  cb_args : list value
}.

Global Instance Callback_eq_dec : EqDecision Callback.
Proof. solve_decision. Defined.

(** ** Package hashes *)

Module Package.

Record t : Type := mk {
  rootNode : string;
  basename : string;
  dependencies : option (list string);
  dependents : option (list string);
  source : option (list (string * string));
  callbacks : option (list Callback);
  isLoading : bool;
  isLoaded : bool;
  isReady : bool;
  isExecuted : bool;
  didFailToEvaluate : bool;
  doNotExecute : bool;
  failedDependencies : option (list string)
}.

Definition set_dependencies (v : option (list string)) (p : t) : t :=
mk (rootNode p) (basename p) v (dependents p) (source p) (callbacks p)
    (isLoading p) (isLoaded p) (isReady p) (isExecuted p) (didFailToEvaluate
    p) (doNotExecute p) (failedDependencies p).
Definition set_dependents (v : option (list string)) (p : t) : t :=
mk (rootNode p) (basename p) (dependencies p) v (source p) (callbacks p)
    (isLoading p) (isLoaded p) (isReady p) (isExecuted p) (didFailToEvaluate
    p) (doNotExecute p) (failedDependencies p).
Definition set_source (v : option (list (string * string))) (p : t) : t :=
mk (rootNode p) (basename p) (dependencies p) (dependents p) v (callbacks p)
    (isLoading p) (isLoaded p) (isReady p) (isExecuted p) (didFailToEvaluate
    p) (doNotExecute p) (failedDependencies p).
Definition set_callbacks (v : option (list Callback)) (p : t) : t :=
mk (rootNode p) (basename p) (dependencies p) (dependents p) (source p) v
    (isLoading p) (isLoaded p) (isReady p) (isExecuted p) (didFailToEvaluate
    p) (doNotExecute p) (failedDependencies p).
Definition set_isLoading (v : bool) (p : t) : t :=
mk (rootNode p) (basename p) (dependencies p) (dependents p) (source p)
    (callbacks p) v (isLoaded p) (isReady p) (isExecuted p) (didFailToEvaluate
    p) (doNotExecute p) (failedDependencies p).
Definition set_isLoaded (v : bool) (p : t) : t :=
mk (rootNode p) (basename p) (dependencies p) (dependents p) (source p)
    (callbacks p) (isLoading p) v (isReady p) (isExecuted p)
    (didFailToEvaluate p) (doNotExecute p) (failedDependencies p).
Definition set_isReady (v : bool) (p : t) : t :=
mk (rootNode p) (basename p) (dependencies p) (dependents p) (source p)
    (callbacks p) (isLoading p) (isLoaded p) v (isExecuted p)
    (didFailToEvaluate p) (doNotExecute p) (failedDependencies p).
Definition set_isExecuted (v : bool) (p : t) : t :=
mk (rootNode p) (basename p) (dependencies p) (dependents p) (source p)
    (callbacks p) (isLoading p) (isLoaded p) (isReady p) v (didFailToEvaluate
    p) (doNotExecute p) (failedDependencies p).
Definition set_didFailToEvaluate (v : bool) (p : t) : t :=
mk (rootNode p) (basename p) (dependencies p) (dependents p) (source p)
    (callbacks p) (isLoading p) (isLoaded p) (isReady p) (isExecuted p) v
    (doNotExecute p) (failedDependencies p).
Definition set_doNotExecute (v : bool) (p : t) : t :=
mk (rootNode p) (basename p) (dependencies p) (dependents p) (source p)
    (callbacks p) (isLoading p) (isLoaded p) (isReady p) (isExecuted p)
    (didFailToEvaluate p) v (failedDependencies p).
Definition set_failedDependencies (v : option (list string)) (p : t) : t :=
mk (rootNode p) (basename p) (dependencies p) (dependents p) (source p)
    (callbacks p) (isLoading p) (isLoaded p) (isReady p) (isExecuted p)
    (didFailToEvaluate p) (doNotExecute p) v.

(** A package as the build tools emit it into the manifest: a location, a
    dependency list and source, and no state yet. *)
Definition fresh (root base : string) (deps : option (list string))
    (src : option (list (string * string))) : t :=
  mk root base deps None src None false false false false false false None.

End Package.

(** ** Observable events and the world *)

Inductive Event : Type :=
  | LogInfo (msg : string)            (* SC.Logger.info *)
  | LogWarn (msg : string)            (* SC.Logger.warn *)
  | ExecScript (code : string)        (* window.execScript / window.eval *)
  | Invoked (cb : Callback)           (* callbacks[idx]() *)
  | ScriptAppended (url : option string). (* document.body.appendChild(el) *)

Global Instance Event_eq_dec : EqDecision Event.
Proof. solve_decision. Defined.

Record World : Type := mkWorld {
  manifest : gmap string Package.t;   (* SC.PACKAGE_MANIFEST *)
  trace : list Event
}.

(** ** The monad *)

Inductive Res (A : Type) : Type :=
  | Ok (a : A)
  | Throw (err : string)
  | OutOfFuel.
Arguments Ok {A} a.
Arguments Throw {A} err.
Arguments OutOfFuel {A}.

Definition M (A : Type) : Type := World -> Res A * World.

Definition ret {A} (a : A) : M A := fun w => (Ok a, w).

Definition bind {A B} (m : M A) (k : A -> M B) : M B :=
  fun w =>
    match m w with
    | (Ok a, w') => k a w'
    | (Throw e, w') => (Throw e, w')
    | (OutOfFuel, w') => (OutOfFuel, w')
    end.

Declare Scope loader_scope.
Delimit Scope loader_scope with loader.
Notation "x <- c1 ;; c2" := (bind c1 (fun x => c2))
  (at level 100, c1 at next level, c2 at level 200, right associativity)
  : loader_scope.
Notation "c1 ;; c2" := (bind c1 (fun _ => c2))
  (at level 100, c2 at level 200, right associativity) : loader_scope.
Local Open Scope loader_scope.

Definition throw {A} (err : string) : M A := fun w => (Throw err, w).

Definition out_of_fuel {A} : M A := fun w => (OutOfFuel, w).

Definition emit (e : Event) : M unit :=
  fun w => (Ok tt, mkWorld (manifest w) (trace w ++ [e])).

(** [packages[packageName]] *)
Definition packages_get (packageName : string) : M (option Package.t) :=
  fun w => (Ok (manifest w !! packageName), w).

(** A write to fields of the hash stored under [packageName]. *)
Definition update (packageName : string) (f : Package.t -> Package.t) : M unit :=
  fun w => (Ok tt, mkWorld (alter f packageName (manifest w)) (trace w)).

(** [for (idx = 0; idx < l.length; ++idx) body(l[idx])]; a [continue] is the
    body returning. *)
Fixpoint for_each {A} (l : list A) (body : A -> M unit) : M unit :=
  match l with
  | [] => ret tt
  | x :: l' => body x ;; for_each l' body
  end.

(** The same loop when its body updates a local variable. *)
Fixpoint for_fold {A B} (l : list A) (b : B) (body : B -> A -> M B) : M B :=
  match l with
  | [] => ret b
  | x :: l' => b' <- body b x ;; for_fold l' b' body
  end.

(** ** Library primitives used by the loader *)

(** [template.fmt(args...)] of SproutCore: each [%@] is replaced by the next
    argument. *)
Fixpoint fmt (template : string) (args : list string) : string :=
  match template with
  | String "%"%char (String "@"%char rest) =>
      match args with
      | a :: args' => a +:+ fmt rest args'
      | [] => fmt rest []
      end
  | String c rest => String c (fmt rest args)
  | EmptyString => EmptyString
  end.

(** [array.indexOf(x)] *)
Fixpoint indexOf (x : string) (l : list string) : option nat :=
  match l with
  | [] => None
  | y :: l' => if decide (y = x) then Some 0%nat else S <$> indexOf x l'
  end.

(** [array.removeAt(pos)] of SproutCore's array mixin: the element at [pos] is
    spliced out of the receiver, which is returned. *)
Definition removeAt (pos : nat) (l : list string) : list string :=
  take pos l ++ drop (S pos) l.

(** [if (s)] and [s && s.length > 0] on a string. *)
Definition nonempty (s : string) : bool :=
  match s with
  | EmptyString => false
  | String _ _ => true
  end.

(** [source[part]] and [delete source[part]] on the source mapping. *)
Fixpoint source_get (part : string) (src : list (string * string)) : option string :=
  match src with
  | [] => None
  | (k, v) :: src' => if decide (k = part) then Some v else source_get part src'
  end.

Definition source_delete (part : string) (src : list (string * string))
    : list (string * string) :=
  filter (fun kv => kv.1 ≠ part) src.

(** ** Package modes *)

Definition PACKAGE_MODE_MODELS : Z := 0x01.
Definition PACKAGE_MODE_VIEWS : Z := 0x02.
Definition PACKAGE_MODE_CONTROLLERS : Z := 0x04.
Definition PACKAGE_MODE_OTHER : Z := 0x08.
Definition PACKAGE_MODE_NORMAL : Z := 0x10.

(** [if (flags & bit)] *)
Definition has_flag (flags bit : Z) : bool := negb (Z.eqb (Z.land flags bit) 0).

(** The [parts] array built by [_sc_evaluateJavaScriptForPackage]. *)
Definition parts_for (flags : Z) : list string :=
  if has_flag flags PACKAGE_MODE_NORMAL then
    ["other"; "models"; "controllers"; "views"]
  else
    (if has_flag flags PACKAGE_MODE_OTHER then ["other"] else []) ++
    (if has_flag flags PACKAGE_MODE_MODELS then ["models"] else []) ++
    (if has_flag flags PACKAGE_MODE_CONTROLLERS then ["controllers"] else []) ++
    (if has_flag flags PACKAGE_MODE_VIEWS then ["views"] else []).

(** The accumulation loop of [_sc_evaluateJavaScriptForPackage]: [code] grows
    by the truthy parts, separated by [';'], and each used part is deleted
    from the source object.  The loop touches nothing but [code] and
    [package.source], so it is a function from the two to the two. *)
Fixpoint accumulate (parts : list string) (code : string)
    (src : list (string * string)) : string * list (string * string) :=
  match parts with
  | [] => (code, src)
  | part :: parts' =>
      match source_get part src with
      | Some text =>
          if nonempty text then
            let code := if nonempty code then code +:+ ";" else code in
            accumulate parts' (code +:+ text) (source_delete part src)
          else accumulate parts' code src
      | None => accumulate parts' code src
      end
  end.

(** ** The loader with user code that calls it

    The code of a package and the function behind a callback are user code:
    they may call the loader again while the call that runs them is still
    under way, and they may keep the arrays they pass to it.  The embedding in
    this module follows the source in these respects:
    - a callback queue and an argument array are objects on a heap, held by
      reference: [push] and [unshift] change the object in place, whoever holds
      it, and a loop over an array sees what is pushed onto it meanwhile;
    - user code is a list of calls of the loader's public functions, run in
      order, after which it returns or raises; an error raised by one of the
      calls is not caught by the user code and ends it;
    - [packages[name]] on the manifest, a plain object, also finds the members
      that every object inherits from [Object.prototype]
      (['constructor'], ['__proto__'], ...).  Such a member is not a package
      hash; the embedding does not say what the loader does with it, and a run
      that looks one up ends with the outcome [Foreign]. *)

Module Refined.

(** A call of the loader made by user code. *)
Inductive Call : Type :=
  | CallLoadPackage (packageName : string) (target method : value)
      (args : list value)
  | CallRegisterCallback (packageName : string) (target method : value)
      (args : option nat)
  | CallLoadJavaScript (packageName : string)
  | CallIsLoaded (packageName : string).

(** One run of a piece of user code: the calls it makes, and the error it
    raises at its end, if any. *)
Record Run : Type := mkRun {
  calls : list Call;
  raises : option string
}.

Definition returns_at_once : Run := mkRun [] None.

(** The closure [cb] built by [registerCallbackForPackage]; [args] is the
    array it captured. *)
Record Closure : Type := mkClosure {
  target : value;
  method : value;
  args : nat
}.

Global Instance Closure_eq_dec : EqDecision Closure.
Proof. solve_decision. Defined.

(** Package hashes; [callbacks] is a reference to the queue array. *)
Module Package.

Record t : Type := mk {
  rootNode : string;
  basename : string;
  dependencies : option (list string);
  dependents : option (list string);
  source : option (list (string * string));
  callbacks : option nat;
  isLoading : bool;
  isLoaded : bool;
  isReady : bool;
  isExecuted : bool;
  didFailToEvaluate : bool;
  doNotExecute : bool;
  failedDependencies : option (list string)
}.

Definition set_dependencies (v : option (list string)) (p : t) : t :=
  mk (rootNode p) (basename p) v (dependents p) (source p) (callbacks p)
    (isLoading p) (isLoaded p) (isReady p) (isExecuted p) (didFailToEvaluate
    p) (doNotExecute p) (failedDependencies p).
Definition set_dependents (v : option (list string)) (p : t) : t :=
  mk (rootNode p) (basename p) (dependencies p) v (source p) (callbacks p)
    (isLoading p) (isLoaded p) (isReady p) (isExecuted p) (didFailToEvaluate
    p) (doNotExecute p) (failedDependencies p).
Definition set_source (v : option (list (string * string))) (p : t) : t :=
  mk (rootNode p) (basename p) (dependencies p) (dependents p) v (callbacks
    p) (isLoading p) (isLoaded p) (isReady p) (isExecuted p)
    (didFailToEvaluate p) (doNotExecute p) (failedDependencies p).
Definition set_callbacks (v : option nat) (p : t) : t :=
  mk (rootNode p) (basename p) (dependencies p) (dependents p) (source p) v
    (isLoading p) (isLoaded p) (isReady p) (isExecuted p) (didFailToEvaluate
    p) (doNotExecute p) (failedDependencies p).
Definition set_isLoading (v : bool) (p : t) : t :=
  mk (rootNode p) (basename p) (dependencies p) (dependents p) (source p)
    (callbacks p) v (isLoaded p) (isReady p) (isExecuted p)
    (didFailToEvaluate p) (doNotExecute p) (failedDependencies p).
Definition set_isLoaded (v : bool) (p : t) : t :=
  mk (rootNode p) (basename p) (dependencies p) (dependents p) (source p)
    (callbacks p) (isLoading p) v (isReady p) (isExecuted p)
    (didFailToEvaluate p) (doNotExecute p) (failedDependencies p).
Definition set_isReady (v : bool) (p : t) : t :=
  mk (rootNode p) (basename p) (dependencies p) (dependents p) (source p)
    (callbacks p) (isLoading p) (isLoaded p) v (isExecuted p)
    (didFailToEvaluate p) (doNotExecute p) (failedDependencies p).
Definition set_isExecuted (v : bool) (p : t) : t :=
  mk (rootNode p) (basename p) (dependencies p) (dependents p) (source p)
    (callbacks p) (isLoading p) (isLoaded p) (isReady p) v
    (didFailToEvaluate p) (doNotExecute p) (failedDependencies p).
Definition set_didFailToEvaluate (v : bool) (p : t) : t :=
  mk (rootNode p) (basename p) (dependencies p) (dependents p) (source p)
    (callbacks p) (isLoading p) (isLoaded p) (isReady p) (isExecuted p) v
    (doNotExecute p) (failedDependencies p).
Definition set_doNotExecute (v : bool) (p : t) : t :=
  mk (rootNode p) (basename p) (dependencies p) (dependents p) (source p)
    (callbacks p) (isLoading p) (isLoaded p) (isReady p) (isExecuted p)
    (didFailToEvaluate p) v (failedDependencies p).
Definition set_failedDependencies (v : option (list string)) (p : t) : t :=
  mk (rootNode p) (basename p) (dependencies p) (dependents p) (source p)
    (callbacks p) (isLoading p) (isLoaded p) (isReady p) (isExecuted p)
    (didFailToEvaluate p) (doNotExecute p) v.
Definition fresh (root base : string) (deps : option (list string))
    (src : option (list (string * string))) : t :=
  mk root base deps None src None false false false false false false None.

End Package.

(** The world: the manifest, the two heaps and the trace.  An event
    [Invoked (mkCallback target method args)] is the call
    [method.apply(target, args)], with the elements the array held when the
    call was made. *)
Record World : Type := mkWorld {
  manifest : gmap string Package.t;   (* SC.PACKAGE_MANIFEST *)
  queues : list (list Closure);       (* the callback arrays *)
  arrays : list (list value);         (* the argument arrays *)
  trace : list Event
}.

(** What is fixed during a run: the debug switch, the mode mask, the names
    inherited from [Object.prototype], what each code string does when it is
    executed, and what each function does at its [n]-th call (counted from
    0). *)
Record Setting : Type := mkSetting {
  log : bool;
  PACKAGE_MODE : Z;
  inherited : string -> bool;
  script : string -> Run;
  body : value -> nat -> Run
}.

(** *** The monad *)

Inductive Res (A : Type) : Type :=
  | Ok (a : A)
  | Throw (err : string)
  | OutOfFuel
  | Foreign (name : string).
Arguments Ok {A} a.
Arguments Throw {A} err.
Arguments OutOfFuel {A}.
Arguments Foreign {A} name.

Definition M (A : Type) : Type := World -> Res A * World.

Definition ret {A} (a : A) : M A := fun w => (Ok a, w).

Definition bind {A B} (m : M A) (k : A -> M B) : M B :=
  fun w =>
    match m w with
    | (Ok a, w') => k a w'
    | (Throw e, w') => (Throw e, w')
    | (OutOfFuel, w') => (OutOfFuel, w')
    | (Foreign name, w') => (Foreign name, w')
    end.

Declare Scope refined_scope.
Delimit Scope refined_scope with refined.
Notation "x <- c1 ;; c2" := (bind c1 (fun x => c2))
  (at level 100, c1 at next level, c2 at level 200, right associativity)
  : refined_scope.
Notation "c1 ;; c2" := (bind c1 (fun _ => c2))
  (at level 100, c2 at level 200, right associativity) : refined_scope.
Local Open Scope refined_scope.

Definition throw {A} (err : string) : M A := fun w => (Throw err, w).

Definition out_of_fuel {A} : M A := fun w => (OutOfFuel, w).

(** [try { m } catch (err) { handler }]: only a JavaScript error is caught. *)
Definition try_catch {A} (m : M A) (handler : string -> M A) : M A :=
  fun w =>
    match m w with
    | (Throw err, w') => handler err w'
    | r => r
    end.

Definition emit (e : Event) : M unit :=
  fun w => (Ok tt, mkWorld (manifest w) (queues w) (arrays w) (trace w ++ [e])).

Definition get_trace : M (list Event) := fun w => (Ok (trace w), w).

(** A write to fields of the hash stored under [packageName]. *)
Definition update (packageName : string) (f : Package.t -> Package.t) : M unit :=
  fun w =>
    (Ok tt, mkWorld (alter f packageName (manifest w)) (queues w) (arrays w)
              (trace w)).

(** A new argument array, [array.unshift(v)], and the elements of an array. *)
Definition new_array (l : list value) : M nat :=
  fun w =>
    (Ok (length (arrays w)),
     mkWorld (manifest w) (queues w) (arrays w ++ [l]) (trace w)).

Definition array_unshift (a : nat) (v : value) : M unit :=
  fun w =>
    (Ok tt, mkWorld (manifest w) (queues w) (alter (cons v) a (arrays w))
              (trace w)).

Definition array_get (a : nat) : M (list value) :=
  fun w => (Ok (default [] (arrays w !! a)), w).

(** A new callback array, [callbacks.push(cb)], and [callbacks[idx]] with
    [idx < callbacks.length]. *)
Definition new_queue : M nat :=
  fun w =>
    (Ok (length (queues w)),
     mkWorld (manifest w) (queues w ++ [[]]) (arrays w) (trace w)).

Definition queue_push (q : nat) (cb : Closure) : M unit :=
  fun w =>
    (Ok tt, mkWorld (manifest w) (alter (fun l => l ++ [cb]) q (queues w))
              (arrays w) (trace w)).

Definition queue_at (q idx : nat) : M (option Closure) :=
  fun w => (Ok (queues w !! q ≫= (fun l => l !! idx)), w).

Fixpoint for_each {A} (l : list A) (body : A -> M unit) : M unit :=
  match l with
  | [] => ret tt
  | x :: l' => body x ;; for_each l' body
  end.

Fixpoint for_fold {A B} (l : list A) (b : B) (body : B -> A -> M B) : M B :=
  match l with
  | [] => ret b
  | x :: l' => b' <- body b x ;; for_fold l' b' body
  end.

(** How often [method] has been called so far. *)
Fixpoint times_called (method : value) (t : list Event) : nat :=
  match t with
  | [] => 0%nat
  | Invoked cb :: t' =>
      ((if decide (cb_method cb = method) then 1 else 0) + times_called method t')%nat
  | _ :: t' => times_called method t'
  end.

(** *** The package manager *)

Section Functions.

Variable env : Setting.

Definition info (msg : string) : M unit := emit (LogInfo msg).
Definition warn (msg : string) : M unit := emit (LogWarn msg).

Definition log_info (msg : string) : M unit := if log env then info msg else ret tt.
Definition log_warn (msg : string) : M unit := if log env then warn msg else ret tt.

(** [packages[packageName]]: the package hash stored under the name, or the
    member of [Object.prototype] of that name, or [undefined]. *)
Definition packages_get (packageName : string) : M (option Package.t) :=
  fun w =>
    match manifest w !! packageName with
    | Some package => (Ok (Some package), w)
    | None =>
        if inherited env packageName then (Foreign packageName, w) else (Ok None, w)
    end.

Definition isLoaded (packageName : string + Package.t) : M bool :=
  package <- match packageName with
             | inr hash => ret (Some hash)
             | inl name => packages_get name
             end ;;
  match package with
  | None =>
      throw (fmt "SC.Package.isLoaded() could not find '%@'"
               [match packageName with inl name => name | inr _ => "[object Object]" end])
  | Some package => ret (Package.isLoaded package)
  end.

(** [registerCallbackForPackage]; [args] is the caller's array, or
    [undefined].  The two [unshift]s change that array. *)
Definition registerCallbackForPackage (packageName : string)
    (target method : value) (args : option nat) : M unit :=
  package <- packages_get packageName ;;
  args <- match args with
          | Some a => ret a
          | None => new_array []
          end ;;
  match package with
  | None =>
      log_warn (fmt ("SC.Package._registerCallbackForPackage() " +:+
                     "could not find package '%@'") [packageName])
  | Some package =>
      if SC_none target && SC_none method then ret tt
      else
        tm <- (if truthy target then
                 if is_function target then
                   (if negb (SC_none method) then array_unshift args method
                    else ret tt) ;;
                   ret (VNull, target)
                 else ret (target, method)
               else ret (VNull, method)) ;;
        let '(target, method) := tm in
        if negb (truthy method) || negb (is_function method) then ret tt
        else
          array_unshift args (VString packageName) ;;
          let cb := mkClosure target method args in
          q <- match Package.callbacks package with
               | Some q => ret q
               | None =>
                   q <- new_queue ;;
                   update packageName (Package.set_callbacks (Some q)) ;;
                   ret q
               end ;;
          queue_push q cb
  end.

(** What user code does: its calls to the loader in order, then its end. *)
Definition run_user (perform : Call -> M unit) (r : Run) : M unit :=
  for_each (calls r) perform ;;
  match raises r with
  | Some err => throw err
  | None => ret tt
  end.

(** [callbacks[idx]()] inside its [try]/[catch]: the closure performs
    [method.apply(target, args)]. *)
Definition invoke_callback (perform : Call -> M unit) (packageName : string)
    (cb : Closure) : M unit :=
  try_catch
    (elements <- array_get (args cb) ;;
     t <- get_trace ;;
     emit (Invoked (mkCallback (target cb) (method cb) elements)) ;;
     run_user perform (body env (method cb) (times_called (method cb) t)))
    (fun _ =>
       warn (fmt ("SC.Package._sc_packageDidExecute() error when attempting " +:+
                  "to execute package callback for package '%@'") [packageName])).

(** [for (; idx < callbacks.length; ++idx) { ... callbacks[idx]() ... }] on
    the array [q] itself, from [idx] on; [n] bounds the number of turns. *)
Fixpoint invoke_from (n : nat) (invoke : Closure -> M unit) (q idx : nat)
    : M unit :=
  match n with
  | O => out_of_fuel
  | S n' =>
      cb <- queue_at q idx ;;
      match cb with
      | None => ret tt
      | Some cb => invoke cb ;; invoke_from n' invoke q (S idx)
      end
  end.

(** [_sc_invokeCallbacksForPackage].  [package.callbacks || []]: without a
    queue the loop runs over a new, empty array that nothing else holds. *)
Definition _sc_invokeCallbacksForPackage_with (perform : Call -> M unit)
    (n : nat) (packageName : string) : M unit :=
  package <- packages_get packageName ;;
  match package with
  | None => throw "TypeError: Cannot read property 'callbacks' of undefined"
  | Some package =>
      match Package.callbacks package with
      | Some q => invoke_from n (invoke_callback perform packageName) q 0
      | None => ret tt
      end ;;
      update packageName (Package.set_callbacks None)
  end.

(** The body of the loop of [_sc_dependenciesMetForPackage]. *)
Definition check_dependency (packageName : string) (isReady : bool)
    (name : string) : M bool :=
  dependency <- packages_get name ;;
  match dependency with
  | None =>
      throw (fmt ("SC.Package._sc_dependenciesMetForPackage() could not find a " +:+
                  "requried dependency for package '%@'; needed '%@'")
               [packageName; name])
  | Some dependency =>
      if negb (Package.isExecuted dependency) then
        update packageName (Package.set_isReady false) ;;
        ret false
      else ret isReady
  end.

Definition _sc_dependenciesMetForPackage (packageName : string) : M bool :=
  package <- packages_get packageName ;;
  log_info (fmt ("SC.Package._sc_dependenciesMetForPackage() for " +:+ "'%@'")
              [packageName]) ;;
  match package with
  | None =>
      log_warn (fmt ("SC.Package._sc_dependenciesMetForPackage() could " +:+
                     " not find package '%@'") [packageName]) ;;
      ret false
  | Some package =>
      match Package.dependencies package with
      | None | Some [] =>
          log_info (fmt ("SC.Package._sc_dependenciesMetForPackage() no " +:+
                         "dependencies found for package '%@'") [packageName]) ;;
          update packageName (Package.set_isReady true) ;;
          ret true
      | Some dependencies =>
          isReady <- for_fold dependencies true (check_dependency packageName) ;;
          if isReady then
            log_info (fmt "SC.Package._sc_dependenciesMetForPackage() for '%@'"
                        [packageName] +:+
                      " all dependencies loaded and executed, package is ready") ;;
            update packageName (Package.set_dependencies None) ;;
            update packageName (Package.set_isReady true) ;;
            ret isReady
          else
            log_info (fmt "SC.Package._sc_dependenciesMetForPackage() for '%@'"
                        [packageName] +:+
                      " some dependencies were not loaded or executed") ;;
            ret isReady
      end
  end.

Definition _sc_urlForPackage (packageName : string) : M (option string) :=
  package <- packages_get packageName ;;
  match package with
  | None =>
      log_warn (fmt "SC.Package._sc_urlForPackage() could not find package '%@'"
                  [packageName]) ;;
      ret None
  | Some package =>
      ret (Some ("/" +:+ Package.rootNode package +:+ "/" +:+ "packages" +:+ "/" +:+
                 Package.basename package))
  end.

Definition loadJavaScript (packageName : string) : M unit :=
  package <- packages_get packageName ;;
  url <- _sc_urlForPackage packageName ;;
  match package with
  | None =>
      log_warn (fmt "SC.Package.loadJavaScript() could not find package '%@'"
                  [packageName])
  | Some package =>
      if Package.isLoaded package then
        log_warn (fmt "SC.Package.loadJavaScript() package '%@' already loaded"
                    [packageName])
      else
        update packageName (Package.set_isLoading true) ;;
        emit (ScriptAppended url)
  end.

(** *** The functions that run user code, with open recursion *)

(** [loadPackage]; [SC.A(arguments).slice(3)] is a new array. *)
Definition loadPackage_with (invokeCallbacks evaluate : string -> M unit)
    (packageName : string) (target method : value) (args : list value) : M bool :=
  package <- packages_get packageName ;;
  args <- new_array args ;;
  log_info (fmt "SC.Package.loadPackage() for package '%@'" [packageName]) ;;
  match package with
  | None =>
      warn (fmt "SC.Package.loadPackage() could not find package '%@'"
              [packageName]) ;;
      ret false
  | Some package =>
      loaded <- isLoaded (inr package) ;;
      if loaded then
        log_info (fmt "SC.Package.loadPackage() package already loaded '%@'"
                    [packageName]) ;;
        if Package.isReady package then
          log_info ("SC.Package.loadPackage() package already loaded " +:+
                    fmt "and ready '%@'" [packageName]) ;;
          if Package.doNotExecute package
             || bool_decide (is_Some (Package.failedDependencies package))
             || Package.didFailToEvaluate package
          then
            log_warn ("SC.Package.loadPackage() package flagged not to be " +:+
                      "executed due to failed dependencies") ;;
            ret true
          else if Package.isExecuted package then
            registerCallbackForPackage packageName target method (Some args) ;;
            invokeCallbacks packageName ;;
            ret true
          else
            evaluate packageName ;;
            ret true
        else
          log_info ("SC.Package.loadPackage() package loaded but was not " +:+
                    fmt "ready yet '%@'" [packageName]) ;;
          ret false
      else
        registerCallbackForPackage packageName target method (Some args) ;;
        loadJavaScript packageName ;;
        ret false
  end.

(** The [try]/[catch] around the execution sink. *)
Definition execute_code (perform : Call -> M unit) (packageName code : string)
    : M unit :=
  try_catch
    (emit (ExecScript code) ;;
     run_user perform (script env code))
    (fun err =>
       warn (fmt "Caught error when processing package source '%@'" [packageName] +:+
             fmt ": %@" [err]) ;;
       log_info code ;;
       update packageName (Package.set_isExecuted false) ;;
       update packageName (Package.set_didFailToEvaluate true)).

Definition _sc_evaluateJavaScriptForPackage_with (perform : Call -> M unit)
    (didExecute : string -> M unit) (packageName : string) : M unit :=
  package <- packages_get packageName ;;
  log_info ("SC.Package._sc_evaluateJavaScriptForPackage() attempting to " +:+
            fmt "execute source for package '%@'" [packageName]) ;;
  match package with
  | None =>
      log_warn ("SC.Package._sc_evaluateJavaScriptForPackage() could not " +:+
                fmt "find package '%@'" [packageName])
  | Some package =>
      if Package.isExecuted package then
        warn (fmt ("SC.Package._sc_evaluateJavaScriptForPackage() package '%@' " +:+
                   "already executed!") [packageName])
      else
        match Package.source package with
        | None =>
            warn (fmt ("SC.Package._sc_evaluateJavaScriptForPackage() no source " +:+
                       "on requested package '%@'") [packageName])
        | Some source =>
            let '(code, source) :=
              accumulate (parts_for (PACKAGE_MODE env)) "" source in
            update packageName (Package.set_source (Some source)) ;;
            if nonempty code then
              execute_code perform packageName code ;;
              didExecute packageName
            else
              update packageName (Package.set_isExecuted false) ;;
              log_warn ("SC.Package._sc_evaluateJavaScriptForPackage() " +:+
                        fmt "no package source found for given package mode for package '%@'"
                          [packageName])
        end
  end.

Definition poison (packageName : string) (dependent : Package.t) : Package.t :=
  Package.set_doNotExecute true
    (Package.set_failedDependencies
       (Some (default [] (Package.failedDependencies dependent) ++ [packageName]))
       dependent).

(** The body of the loop of [_sc_packageDidExecute] over [dependents]. *)
Definition notify_dependent (loadPackage : string -> M bool)
    (packageName : string) (didFail : bool) (name : string) : M unit :=
  dependent <- packages_get name ;;
  match dependent with
  | None =>
      throw (fmt "SC.Package._sc_packageDidExecute() can't find dependent '%@' for '%@'"
               [name; packageName])
  | Some dependent =>
      match Package.dependencies dependent with
      | None =>
          log_warn (fmt "SC.Package._sc_packageDidExecute() dependent found '%@' for '%@' "
                      [name; packageName] +:+ "but was marked as " +:+
                    "not having dependencies" +:+
                    (if Package.isReady dependent then " and as ready" else "") +:+
                    ", so, something aint right yo")
      | Some dependencies =>
          if Package.isReady dependent then
            log_warn (fmt "SC.Package._sc_packageDidExecute() dependent found '%@' for '%@' "
                        [name; packageName] +:+ "but was marked as " +:+
                      "having dependencies" +:+ " and as ready" +:+
                      ", so, something aint right yo")
          else
            match indexOf packageName dependencies with
            | None =>
                log_warn (fmt "SC.Package._sc_packageDidExecute() dependent found '%@' for '%@' "
                            [name; packageName] +:+
                          "and had dependencies but does not " +:+
                          fmt "depend on '%@' apparently." [packageName])
            | Some pos =>
                if didFail then update name (poison packageName)
                else
                  update name
                    (Package.set_dependencies (Some (removeAt pos dependencies))) ;;
                  met <- _sc_dependenciesMetForPackage name ;;
                  if met then
                    _ <- loadPackage name ;;
                    ret tt
                  else ret tt
            end
      end
  end.

(** [_sc_packageDidExecute].  No public function pushes onto a [dependents]
    array, so the loop over the array is the loop over the elements it holds
    when [package.dependents] is read, after the callbacks have run. *)
Definition _sc_packageDidExecute_with (invokeCallbacks : string -> M unit)
    (loadPackage : string -> M bool) (packageName : string) : M unit :=
  package <- packages_get packageName ;;
  log_info (fmt "SC.Package._sc_packageDidExecute() for package '%@'" [packageName]) ;;
  match package with
  | None =>
      warn (fmt "SC.Package._sc_packageDidExecute() unknown package reporting '%@' "
              [packageName])
  | Some package =>
      let didFail := Package.didFailToEvaluate package in
      (if negb didFail then update packageName (Package.set_isExecuted true)
       else ret tt) ;;
      invokeCallbacks packageName ;;
      package <- packages_get packageName ;;
      match package ≫= Package.dependents with
      | None | Some [] => ret tt
      | Some dependents =>
          for_each dependents (notify_dependent loadPackage packageName didFail)
      end
  end.

(** A call made by user code. *)
Definition perform_with
    (loadPackage : string -> value -> value -> list value -> M bool)
    (call : Call) : M unit :=
  match call with
  | CallLoadPackage packageName target method args =>
      _ <- loadPackage packageName target method args ;; ret tt
  | CallRegisterCallback packageName target method args =>
      registerCallbackForPackage packageName target method args
  | CallLoadJavaScript packageName => loadJavaScript packageName
  | CallIsLoaded packageName => _ <- isLoaded (inl packageName) ;; ret tt
  end.

(** *** Tying the knot *)

(** One unit of fuel is spent each time the loader is entered again, by
    [_sc_packageDidExecute] or by user code; the fuel also bounds the turns of
    the loop over a callback array. *)
Fixpoint loadPackage (fuel : nat) (packageName : string)
    (target method : value) (args : list value) : M bool :=
  match fuel with
  | O => out_of_fuel
  | S fuel' =>
      let invokeCallbacks :=
        _sc_invokeCallbacksForPackage_with (perform_with (loadPackage fuel')) fuel in
      loadPackage_with invokeCallbacks
        (_sc_evaluateJavaScriptForPackage_with (perform_with (loadPackage fuel'))
           (_sc_packageDidExecute_with invokeCallbacks
              (fun name => loadPackage fuel' name VUndefined VUndefined [])))
        packageName target method args
  end.

Definition perform (fuel : nat) : Call -> M unit :=
  perform_with (loadPackage fuel).

Definition reload (fuel : nat) (name : string) : M bool :=
  loadPackage fuel name VUndefined VUndefined [].

Definition _sc_invokeCallbacksForPackage (fuel : nat) : string -> M unit :=
  _sc_invokeCallbacksForPackage_with (perform fuel) (S fuel).

Definition _sc_packageDidExecute (fuel : nat) : string -> M unit :=
  _sc_packageDidExecute_with (_sc_invokeCallbacksForPackage fuel) (reload fuel).

Definition _sc_evaluateJavaScriptForPackage (fuel : nat) : string -> M unit :=
  _sc_evaluateJavaScriptForPackage_with (perform fuel) (_sc_packageDidExecute fuel).

(** The body of the loop of [_sc_loadDependenciesForPackage]. *)
Definition load_dependency (fuel : nat) (packageName name : string) : M unit :=
  dependency <- packages_get name ;;
  match dependency with
  | None =>
      throw (fmt ("SC.Package._sc_loadDependenciesForPackage() could not find a " +:+
                  "requried dependency for package '%@'; needed '%@'")
               [packageName; name])
  | Some dependency =>
      update name (fun dependency =>
        Package.set_dependents
          (Some (default [] (Package.dependents dependency) ++ [packageName]))
          dependency) ;;
      log_info (fmt ("SC.Package._sc_loadDependenciesForPackage() loading " +:+
                     "dependency '%@' for '%@'") [name; packageName]) ;;
      _ <- reload fuel name ;;
      ret tt
  end.

Definition _sc_loadDependenciesForPackage (fuel : nat) (packageName : string)
    : M unit :=
  package <- packages_get packageName ;;
  log_info (fmt ("SC.Package._sc_loadDependenciesForPackage() for " +:+
                 "package '%@'") [packageName]) ;;
  match package with
  | None =>
      log_warn (fmt ("SC.Package._sc_loadDependenciesForPackage() " +:+
                     "could not find package '%@'") [packageName])
  | Some package =>
      match Package.dependencies package with
      | None | Some [] => ret tt
      | Some dependencies =>
          for_each dependencies (load_dependency fuel packageName)
      end
  end.

(** [_sc_packageDidLoad], the [onload] handler of the script element. *)
Definition _sc_packageDidLoad (fuel : nat) (packageName : string) : M unit :=
  package <- packages_get packageName ;;
  log_info (fmt "SC.Package._sc_packageDidLoad() for package '%@'" [packageName]) ;;
  match package with
  | None =>
      warn (fmt "SC.Package._sc_packageDidLoad() unknown package loaded '%@' "
              [packageName])
  | Some _ =>
      update packageName (Package.set_isLoaded true) ;;
      update packageName (Package.set_isLoading false) ;;
      met <- _sc_dependenciesMetForPackage packageName ;;
      if met then
        log_info ("SC.Package._sc_packageDidLoad() package loaded and " +:+
                  fmt "dependencies met for '%@'" [packageName]) ;;
        package <- packages_get packageName ;;
        if default false (Package.isExecuted <$> package) then ret tt
        else _sc_evaluateJavaScriptForPackage fuel packageName
      else
        log_info ("SC.Package._sc_packageDidLoad() package loaded but " +:+
                  fmt "its dependencies were not met '%@'" [packageName]) ;;
        _sc_loadDependenciesForPackage fuel packageName
  end.

End Functions.

(** *** Vocabulary of the properties *)

(** The world [w] with the events [tr] added to its trace. *)
Definition logged (w : World) (tr : list Event) : World :=
  mkWorld (manifest w) (queues w) (arrays w) (trace w ++ tr).

(** [name] refers to a hash of the manifest whose [isExecuted] flag is set. *)
Definition executed_in (m : gmap string Package.t) (name : string) : bool :=
  match m !! name with
  | Some p => Package.isExecuted p
  | None => false
  end.

(** The warning written when a callback of [packageName] raises. *)
Definition callback_warning (packageName : string) : Event :=
  LogWarn (fmt ("SC.Package._sc_packageDidExecute() error when attempting " +:+
                "to execute package callback for package '%@'") [packageName]).

(** *** Settings and small manifests, for the examples *)

(** The members of [Object.prototype] in a browser. *)
Definition Object_prototype : list string :=
  ["constructor"; "hasOwnProperty"; "isPrototypeOf"; "propertyIsEnumerable";
   "toLocaleString"; "toString"; "valueOf"; "__proto__"; "__defineGetter__";
   "__defineSetter__"; "__lookupGetter__"; "__lookupSetter__"].

Definition on_prototype (name : string) : bool :=
  bool_decide (name ∈ Object_prototype).

(** User code that never calls the loader and never raises. *)
Definition quiet_code (code : string) : Run := returns_at_once.
Definition quiet_body (method : value) (n : nat) : Run := returns_at_once.

Definition quiet : Setting :=
  mkSetting false PACKAGE_MODE_NORMAL on_prototype quiet_code quiet_body.

(** The function [VFunction 1] asks the loader for the package [P] when it
    is called for the first time, as code that needs [P] does; at its later
    calls, and in every other function, nothing calls the loader. *)
Definition asks_again (method : value) (n : nat) : Run :=
  if decide (method = VFunction 1 ∧ n = 0%nat)
  then mkRun [CallLoadPackage "P" VUndefined VUndefined []] None
  else returns_at_once.

Definition reentrant : Setting :=
  mkSetting false PACKAGE_MODE_NORMAL on_prototype quiet_code asks_again.

Definition empty_heaps (m : gmap string Package.t) : World := mkWorld m [] [] [].

(** A manifest with the one package [P], as the build tools emit it; and
    [P] once it is loaded and executed. *)
Definition new_P : Package.t :=
  Package.fresh "app" "p" None (Some [("other", "p()")]).

Definition done_P : Package.t :=
  Package.set_isExecuted true
    (Package.set_isReady true
       (Package.set_isLoaded true (Package.set_source (Some []) new_P))).

Definition new_world : World := empty_heaps (<["P" := new_P]> ∅).

(** [P] is executed and has one callback in its queue, [VFunction 1],
    registered with the argument array [[7]], which now holds the package
    name too. *)
Definition queued_P : Package.t := Package.set_callbacks (Some 0%nat) done_P.

Definition queued_world : World :=
  mkWorld (<["P" := queued_P]> ∅)
    [[mkClosure (VObject 1) (VFunction 1) 0]]
    [[VString "P"; VNumber 7]] [].

(** A package that lists a name that [packages[name]] does not find. *)
Definition orphan_P : Package.t :=
  Package.fresh "app" "p" (Some ["A"; "ghost"]) None.

Definition orphan_world : World :=
  empty_heaps
    (<["A" := Package.fresh "app" "a" None (Some [("other", "a()")])]>
       (<["P" := orphan_P]> ∅)).

(** Two callbacks are registered with the request for [P], the first one
    being [VFunction 1]; then the script of [P] arrives. *)
Definition two_callbacks_then_arrival (env : Setting) : Res unit * World :=
  let w1 := (loadPackage env 3 "P" (VObject 1) (VFunction 1) [] new_world).2 in
  let w2 := (loadPackage env 3 "P" (VObject 2) (VFunction 2) [VNumber 7] w1).2 in
  _sc_packageDidLoad env 3 "P" w2.

End Refined.

(** ** The package manager *)

Section Loader.

(** [this.log] (by default [SC.DEBUG_PACKAGES]). *)
Variable log : bool.

(** [SC.PACKAGE_MODE], the global mode mask. *)
Variable PACKAGE_MODE : Z.

(** The execution sink, [(window.execScript || eval)(code)]: [Some err] when
    running [code] raises [err], [None] when it returns. *)
Variable evalThrows : string -> option string.

(** Whether [method.apply(target, args)] raises for a registered callback. *)
Variable applyThrows : Callback -> bool.

Definition info (msg : string) : M unit := emit (LogInfo msg).
Definition warn (msg : string) : M unit := emit (LogWarn msg).

(** [if (log) SC.Logger.info(msg)] and [if (log) SC.Logger.warn(msg)] *)
Definition log_info (msg : string) : M unit := if log then info msg else ret tt.
Definition log_warn (msg : string) : M unit := if log then warn msg else ret tt.

(** [isLoaded(packageName)]; the argument is a package name or, when
    [SC.typeOf(packageName) === SC.T_HASH], the package hash itself. *)
Definition isLoaded (packageName : string + Package.t) : M bool :=
  package <- match packageName with
             | inr hash => ret (Some hash)
             | inl name => packages_get name
             end ;;
  match package with
  | None =>
      throw (fmt "SC.Package.isLoaded() could not find '%@'"
               [match packageName with inl name => name | inr _ => "[object Object]" end])
  | Some package => ret (Package.isLoaded package)
  end.

(** The reshaping of [(target, method, args)] at the head of
    [registerCallbackForPackage]: a callable [target] becomes the method, and
    a [method] given next to it becomes the first extra argument. *)
Definition callback_shape (target method : value) (args : list value)
    : value * value * list value :=
  if truthy target then
    if is_function target then
      (VNull, target, if negb (SC_none method) then method :: args else args)
    else (target, method, args)
  else (VNull, method, args).

Definition registerCallbackForPackage (packageName : string)
    (target method : value) (args : list value) : M unit :=
  package <- packages_get packageName ;;
  match package with
  | None =>
      log_warn (fmt ("SC.Package._registerCallbackForPackage() " +:+
                     "could not find package '%@'") [packageName])
  | Some _ =>
      if SC_none target && SC_none method then ret tt
      else
        let '(target, method, args) := callback_shape target method args in
        if negb (truthy method) || negb (is_function method) then ret tt
        else
          let args := VString packageName :: args in
          let cb := mkCallback target method args in
          update packageName (fun package =>
            Package.set_callbacks
              (Some (default [] (Package.callbacks package) ++ [cb])) package)
  end.

(** [callbacks[idx]()] inside its [try]/[catch]. *)
Definition invoke_callback (packageName : string) (cb : Callback) : M unit :=
  emit (Invoked cb) ;;
  if applyThrows cb then
    warn (fmt ("SC.Package._sc_packageDidExecute() error when attempting " +:+
               "to execute package callback for package '%@'") [packageName])
  else ret tt.

(** [_sc_invokeCallbacksForPackage]; without its guard, an unknown name makes
    [package.callbacks] a [TypeError]. *)
Definition _sc_invokeCallbacksForPackage (packageName : string) : M unit :=
  package <- packages_get packageName ;;
  match package with
  | None => throw "TypeError: Cannot read property 'callbacks' of undefined"
  | Some package =>
      for_each (default [] (Package.callbacks package)) (invoke_callback packageName) ;;
      update packageName (Package.set_callbacks None)
  end.

(** The body of the loop of [_sc_dependenciesMetForPackage]; [isReady] is the
    local variable. *)
Definition check_dependency (packageName : string) (isReady : bool)
    (name : string) : M bool :=
  dependency <- packages_get name ;;
  match dependency with
  | None =>
      throw (fmt ("SC.Package._sc_dependenciesMetForPackage() could not find a " +:+
                  "requried dependency for package '%@'; needed '%@'")
               [packageName; name])
  | Some dependency =>
      if negb (Package.isExecuted dependency) then
        update packageName (Package.set_isReady false) ;;
        ret false
      else ret isReady
  end.

Definition _sc_dependenciesMetForPackage (packageName : string) : M bool :=
  log_info (fmt ("SC.Package._sc_dependenciesMetForPackage() for " +:+ "'%@'")
              [packageName]) ;;
  package <- packages_get packageName ;;
  match package with
  | None =>
      log_warn (fmt ("SC.Package._sc_dependenciesMetForPackage() could " +:+
                     " not find package '%@'") [packageName]) ;;
      ret false
  | Some package =>
      match Package.dependencies package with
      | None | Some [] =>
          log_info (fmt ("SC.Package._sc_dependenciesMetForPackage() no " +:+
                         "dependencies found for package '%@'") [packageName]) ;;
          update packageName (Package.set_isReady true) ;;
          ret true
      | Some dependencies =>
          isReady <- for_fold dependencies true (check_dependency packageName) ;;
          if isReady then
            log_info (fmt "SC.Package._sc_dependenciesMetForPackage() for '%@'"
                        [packageName] +:+
                      " all dependencies loaded and executed, package is ready") ;;
            update packageName (Package.set_dependencies None) ;;
            update packageName (Package.set_isReady true) ;;
            ret isReady
          else
            log_info (fmt "SC.Package._sc_dependenciesMetForPackage() for '%@'"
                        [packageName] +:+
                      " some dependencies were not loaded or executed") ;;
            ret isReady
      end
  end.

(** ['/' + [rootNode, 'packages', basename].join('/')], or [null]. *)
Definition _sc_urlForPackage (packageName : string) : M (option string) :=
  package <- packages_get packageName ;;
  match package with
  | None =>
      log_warn (fmt "SC.Package._sc_urlForPackage() could not find package '%@'"
                  [packageName]) ;;
      ret None
  | Some package =>
      ret (Some ("/" +:+ Package.rootNode package +:+ "/" +:+ "packages" +:+ "/" +:+
                 Package.basename package))
  end.

(** [loadJavaScript]: the script element is created and appended; its
    [onload] handler, [_sc_packageDidLoad], runs later, when the browser has
    fetched the source. *)
Definition loadJavaScript (packageName : string) : M unit :=
  url <- _sc_urlForPackage packageName ;;
  package <- packages_get packageName ;;
  match package with
  | None =>
      log_warn (fmt "SC.Package.loadJavaScript() could not find package '%@'"
                  [packageName])
  | Some package =>
      if Package.isLoaded package then
        log_warn (fmt "SC.Package.loadJavaScript() package '%@' already loaded"
                    [packageName])
      else
        update packageName (Package.set_isLoading true) ;;
        emit (ScriptAppended url)
  end.

(** *** The three mutually recursive functions, with open recursion *)

Definition loadPackage_with (evaluate : string -> M unit)
    (packageName : string) (target method : value) (args : list value) : M bool :=
  log_info (fmt "SC.Package.loadPackage() for package '%@'" [packageName]) ;;
  package <- packages_get packageName ;;
  match package with
  | None =>
      warn (fmt "SC.Package.loadPackage() could not find package '%@'"
              [packageName]) ;;
      ret false
  | Some package =>
      loaded <- isLoaded (inr package) ;;
      if loaded then
        log_info (fmt "SC.Package.loadPackage() package already loaded '%@'"
                    [packageName]) ;;
        if Package.isReady package then
          log_info ("SC.Package.loadPackage() package already loaded " +:+
                    fmt "and ready '%@'" [packageName]) ;;
          if Package.doNotExecute package
             || bool_decide (is_Some (Package.failedDependencies package))
             || Package.didFailToEvaluate package
          then
            log_warn ("SC.Package.loadPackage() package flagged not to be " +:+
                      "executed due to failed dependencies") ;;
            ret true
          else if Package.isExecuted package then
            registerCallbackForPackage packageName target method args ;;
            _sc_invokeCallbacksForPackage packageName ;;
            ret true
          else
            evaluate packageName ;;
            ret true
        else
          log_info ("SC.Package.loadPackage() package loaded but was not " +:+
                    fmt "ready yet '%@'" [packageName]) ;;
          ret false
      else
        registerCallbackForPackage packageName target method args ;;
        loadJavaScript packageName ;;
        ret false
  end.

(** The [try]/[catch] around the execution sink. *)
Definition execute_code (packageName code : string) : M unit :=
  emit (ExecScript code) ;;
  match evalThrows code with
  | Some err =>
      warn (fmt "Caught error when processing package source '%@'" [packageName] +:+
            fmt ": %@" [err]) ;;
      log_info code ;;
      update packageName (Package.set_isExecuted false) ;;
      update packageName (Package.set_didFailToEvaluate true)
  | None => ret tt
  end.

Definition _sc_evaluateJavaScriptForPackage_with (didExecute : string -> M unit)
    (packageName : string) : M unit :=
  log_info ("SC.Package._sc_evaluateJavaScriptForPackage() attempting to " +:+
            fmt "execute source for package '%@'" [packageName]) ;;
  package <- packages_get packageName ;;
  match package with
  | None =>
      log_warn ("SC.Package._sc_evaluateJavaScriptForPackage() could not " +:+
                fmt "find package '%@'" [packageName])
  | Some package =>
      if Package.isExecuted package then
        warn (fmt ("SC.Package._sc_evaluateJavaScriptForPackage() package '%@' " +:+
                   "already executed!") [packageName])
      else
        match Package.source package with
        | None =>
            warn (fmt ("SC.Package._sc_evaluateJavaScriptForPackage() no source " +:+
                       "on requested package '%@'") [packageName])
        | Some source =>
            let '(code, source) := accumulate (parts_for PACKAGE_MODE) "" source in
            update packageName (Package.set_source (Some source)) ;;
            if nonempty code then
              execute_code packageName code ;;
              didExecute packageName
            else
              update packageName (Package.set_isExecuted false) ;;
              log_warn ("SC.Package._sc_evaluateJavaScriptForPackage() " +:+
                        fmt "no package source found for given package mode for package '%@'"
                          [packageName])
        end
  end.

(** What [_sc_packageDidExecute] does to a dependent of a package that failed
    to evaluate. *)
Definition poison (packageName : string) (dependent : Package.t) : Package.t :=
  Package.set_doNotExecute true
    (Package.set_failedDependencies
       (Some (default [] (Package.failedDependencies dependent) ++ [packageName]))
       dependent).

(** The body of the loop of [_sc_packageDidExecute] over [dependents].
    [dependent.dependencies = dependencies.removeAt(pos)] splices the live
    array of the dependent, which is the write of the spliced list. *)
Definition notify_dependent (loadPackage : string -> M bool)
    (packageName : string) (didFail : bool) (name : string) : M unit :=
  dependent <- packages_get name ;;
  match dependent with
  | None =>
      throw (fmt "SC.Package._sc_packageDidExecute() can't find dependent '%@' for '%@'"
               [name; packageName])
  | Some dependent =>
      match Package.dependencies dependent with
      | None =>
          log_warn (fmt "SC.Package._sc_packageDidExecute() dependent found '%@' for '%@' "
                      [name; packageName] +:+ "but was marked as " +:+
                    "not having dependencies" +:+
                    (if Package.isReady dependent then " and as ready" else "") +:+
                    ", so, something aint right yo")
      | Some dependencies =>
          if Package.isReady dependent then
            log_warn (fmt "SC.Package._sc_packageDidExecute() dependent found '%@' for '%@' "
                        [name; packageName] +:+ "but was marked as " +:+
                      "having dependencies" +:+ " and as ready" +:+
                      ", so, something aint right yo")
          else
            match indexOf packageName dependencies with
            | None =>
                log_warn (fmt "SC.Package._sc_packageDidExecute() dependent found '%@' for '%@' "
                            [name; packageName] +:+
                          "and had dependencies but does not " +:+
                          fmt "depend on '%@' apparently." [packageName])
            | Some pos =>
                if didFail then update name (poison packageName)
                else
                  update name
                    (Package.set_dependencies (Some (removeAt pos dependencies))) ;;
                  met <- _sc_dependenciesMetForPackage name ;;
                  if met then
                    _ <- loadPackage name ;;
                    ret tt
                  else ret tt
            end
      end
  end.

(** [_sc_packageDidExecute].  Nothing that runs inside the loop pushes onto
    a [dependents] array (only [_sc_loadDependenciesForPackage] does, from the
    [onload] handler), so the loop over the live array is the loop over its
    value on entry. *)
Definition _sc_packageDidExecute_with (loadPackage : string -> M bool)
    (packageName : string) : M unit :=
  log_info (fmt "SC.Package._sc_packageDidExecute() for package '%@'" [packageName]) ;;
  package <- packages_get packageName ;;
  match package with
  | None =>
      warn (fmt "SC.Package._sc_packageDidExecute() unknown package reporting '%@' "
              [packageName])
  | Some package =>
      let didFail := Package.didFailToEvaluate package in
      (if negb didFail then update packageName (Package.set_isExecuted true)
       else ret tt) ;;
      _sc_invokeCallbacksForPackage packageName ;;
      package <- packages_get packageName ;;
      match package ≫= Package.dependents with
      | None | Some [] => ret tt
      | Some dependents =>
          for_each dependents (notify_dependent loadPackage packageName didFail)
      end
  end.

(** *** Tying the knot *)

(** [this.loadPackage(name, target, method, ...args)].  One unit of fuel is
    spent each time [_sc_packageDidExecute] re-enters [loadPackage] for a
    dependent. *)
Fixpoint loadPackage (fuel : nat) (packageName : string)
    (target method : value) (args : list value) : M bool :=
  match fuel with
  | O => out_of_fuel
  | S fuel' =>
      loadPackage_with
        (_sc_evaluateJavaScriptForPackage_with
           (_sc_packageDidExecute_with
              (fun name => loadPackage fuel' name VUndefined VUndefined [])))
        packageName target method args
  end.

(** [this.loadPackage(name)], as [_sc_packageDidExecute] and
    [_sc_loadDependenciesForPackage] call it. *)
Definition reload (fuel : nat) (name : string) : M bool :=
  loadPackage fuel name VUndefined VUndefined [].

Definition _sc_packageDidExecute (fuel : nat) : string -> M unit :=
  _sc_packageDidExecute_with (reload fuel).

Definition _sc_evaluateJavaScriptForPackage (fuel : nat) : string -> M unit :=
  _sc_evaluateJavaScriptForPackage_with (_sc_packageDidExecute fuel).

(** The body of the loop of [_sc_loadDependenciesForPackage]. *)
Definition load_dependency (fuel : nat) (packageName name : string) : M unit :=
  dependency <- packages_get name ;;
  match dependency with
  | None =>
      throw (fmt ("SC.Package._sc_loadDependenciesForPackage() could not find a " +:+
                  "requried dependency for package '%@'; needed '%@'")
               [packageName; name])
  | Some dependency =>
      update name (fun dependency =>
        Package.set_dependents
          (Some (default [] (Package.dependents dependency) ++ [packageName]))
          dependency) ;;
      log_info (fmt ("SC.Package._sc_loadDependenciesForPackage() loading " +:+
                     "dependency '%@' for '%@'") [name; packageName]) ;;
      _ <- reload fuel name ;;
      ret tt
  end.

(** [_sc_loadDependenciesForPackage]; the loop runs over [SC.clone] of the
    dependencies, that is over their value when the function is entered. *)
Definition _sc_loadDependenciesForPackage (fuel : nat) (packageName : string)
    : M unit :=
  log_info (fmt ("SC.Package._sc_loadDependenciesForPackage() for " +:+
                 "package '%@'") [packageName]) ;;
  package <- packages_get packageName ;;
  match package with
  | None =>
      log_warn (fmt ("SC.Package._sc_loadDependenciesForPackage() " +:+
                     "could not find package '%@'") [packageName])
  | Some package =>
      match Package.dependencies package with
      | None | Some [] => ret tt
      | Some dependencies =>
          for_each dependencies (load_dependency fuel packageName)
      end
  end.

(** [_sc_packageDidLoad], the [onload] handler of the script element. *)
Definition _sc_packageDidLoad (fuel : nat) (packageName : string) : M unit :=
  log_info (fmt "SC.Package._sc_packageDidLoad() for package '%@'" [packageName]) ;;
  package <- packages_get packageName ;;
  match package with
  | None =>
      warn (fmt "SC.Package._sc_packageDidLoad() unknown package loaded '%@' "
              [packageName])
  | Some _ =>
      update packageName (Package.set_isLoaded true) ;;
      update packageName (Package.set_isLoading false) ;;
      met <- _sc_dependenciesMetForPackage packageName ;;
      if met then
        log_info ("SC.Package._sc_packageDidLoad() package loaded and " +:+
                  fmt "dependencies met for '%@'" [packageName]) ;;
        package <- packages_get packageName ;;
        if default false (Package.isExecuted <$> package) then ret tt
        else _sc_evaluateJavaScriptForPackage fuel packageName
      else
        log_info ("SC.Package._sc_packageDidLoad() package loaded but " +:+
                  fmt "its dependencies were not met '%@'" [packageName]) ;;
        _sc_loadDependenciesForPackage fuel packageName
  end.

(** *** Enumerating the manifest *)

(** [loadAll], [loadedPackages], [executedPackages] and [failedPackages] loop
    with [for (packageName in packages)] over the property names of the
    manifest object, in the order in which the engine enumerates them.  The
    map does not record that order (the loader never adds or removes a
    property, so it is the same throughout): the loops are given the names as
    the list [names]. *)

(** [loadAll]: [this.loadPackage(package)] for every name. *)
Definition loadAll (fuel : nat) (names : list string) : M unit :=
  for_each names (fun package => _ <- reload fuel package ;; ret tt).

(** The body of the loops of the three listings: a name without a hash is
    skipped, and a name is pushed when its hash passes the test. *)
Definition push_if (test : Package.t -> bool) (found : list string)
    (packageName : string) : M (list string) :=
  package <- packages_get packageName ;;
  match package with
  | None => ret found
  | Some package =>
      if test package then ret (found ++ [packageName]) else ret found
  end.

Definition loadedPackages (names : list string) : M (list string) :=
  for_fold names [] (push_if Package.isLoaded).

Definition executedPackages (names : list string) : M (list string) :=
  for_fold names [] (push_if Package.isExecuted).

(** [package.failedDependencies || package.doNotExecute
     || package.didFailToEvaluate] *)
Definition marked_failed (package : Package.t) : bool :=
  bool_decide (is_Some (Package.failedDependencies package))
  || Package.doNotExecute package || Package.didFailToEvaluate package.

Definition failedPackages (names : list string) : M (list string) :=
  for_fold names [] (push_if marked_failed).

(** ** Vocabulary of the properties *)

(** The dependency list of a hash, an absent list being empty. *)
Definition deps_list (p : Package.t) : list string :=
  default [] (Package.dependencies p).

(** [name] refers to a hash of the manifest whose [isExecuted] flag is set. *)
Definition executed_in (m : gmap string Package.t) (name : string) : bool :=
  match m !! name with
  | Some p => Package.isExecuted p
  | None => false
  end.

(** The callbacks called, and the code strings handed to the execution sink,
    in a trace, in order. *)
Definition invoked (tr : list Event) : list Callback :=
  omap (fun e => match e with Invoked cb => Some cb | _ => None end) tr.

Definition executed_codes (tr : list Event) : list string :=
  omap (fun e => match e with ExecScript code => Some code | _ => None end) tr.

(** What one callback of the queue leaves in the trace. *)
Definition callback_events (packageName : string) (cb : Callback) : list Event :=
  Invoked cb ::
  (if applyThrows cb then
     [LogWarn (fmt ("SC.Package._sc_packageDidExecute() error when attempting " +:+
                    "to execute package callback for package '%@'") [packageName])]
   else []).

(** *** The evaluator, as the specification words it *)

(** A category is selected by the mode mask when the mask has its bit, or the
    [NORMAL] bit, which stands for all four. *)
Definition selected (flags bit : Z) : bool :=
  has_flag flags PACKAGE_MODE_NORMAL || has_flag flags bit.

(** The four categories in the fixed order of evaluation, with their bits. *)
Definition categories : list (string * Z) :=
  [("other", PACKAGE_MODE_OTHER); ("models", PACKAGE_MODE_MODELS);
   ("controllers", PACKAGE_MODE_CONTROLLERS); ("views", PACKAGE_MODE_VIEWS)].

(** The code of a category, when the source mapping has some. *)
Definition code_of (src : list (string * string)) (part : string) : option string :=
  match source_get part src with
  | Some text => if nonempty text then Some text else None
  | None => None
  end.

(** Statements joined by the separator [';']. *)
Fixpoint join_code (texts : list string) : string :=
  match texts with
  | [] => ""
  | [text] => text
  | text :: texts' => text +:+ ";" +:+ join_code texts'
  end.

(** Specification of the evaluator's input to the execution sink: the code
    of the selected categories, in the fixed order, joined by [';']. *)
Definition spec_code (flags : Z) (src : list (string * string)) : string :=
  join_code
    (omap (code_of src)
       (fst <$> filter (fun c => selected flags c.2 = true) categories)).

(** *** Dependents and poisoning *)

Definition dependents_list (p : Package.t) : list string :=
  default [] (Package.dependents p).

Definition failed_list (p : Package.t) : list string :=
  default [] (Package.failedDependencies p).

(** A trace that holds log lines only. *)
Definition only_logs (tr : list Event) : Prop :=
  Forall (fun e => match e with LogInfo _ | LogWarn _ => True | _ => False end) tr.

(** The dependent [q] is waiting on [name]: it has a dependency list that
    holds [name], and is not marked ready. *)
Definition waiting_on (name : string) (q : Package.t) : bool :=
  negb (Package.isReady q) &&
  match Package.dependencies q with
  | Some l => bool_decide (name ∈ l)
  | None => false
  end.

(** The dependent [q] has been poisoned by the failure of [name]. *)
Definition poisoned_by (name : string) (q : Package.t) : Prop :=
  Package.doNotExecute q = true ∧
  ∃ l, Package.failedDependencies q = Some l ∧ name ∈ l.

(** A hash without its poison marks. *)
Definition unpoisoned (p : Package.t) : Package.t :=
  Package.set_doNotExecute false (Package.set_failedDependencies None p).

(** [p'] is [p] with, at most, more poison. *)
Definition more_poison (p p' : Package.t) : Prop :=
  unpoisoned p = unpoisoned p' ∧
  (Package.doNotExecute p = true -> Package.doNotExecute p' = true) ∧
  (∀ x, x ∈ failed_list p -> x ∈ failed_list p') ∧
  (is_Some (Package.failedDependencies p) -> is_Some (Package.failedDependencies p')).

(** Two manifests with the same names whose hashes are related by [R]. *)
Definition manifest_rel (R : Package.t -> Package.t -> Prop)
    (m m' : gmap string Package.t) : Prop :=
  ∀ x, match m !! x, m' !! x with
       | Some p, Some p' => R p p'
       | None, None => True
       | _, _ => False
       end.

(** *** The life of a package, as a transition system *)

(** The hash carries a poison mark; and [name] refers to a hash that failed
    to evaluate. *)
Definition poisoned (p : Package.t) : bool :=
  Package.doNotExecute p || bool_decide (is_Some (Package.failedDependencies p)).

Definition failed_in (m : gmap string Package.t) (name : string) : bool :=
  match m !! name with
  | Some p => Package.didFailToEvaluate p
  | None => false
  end.

(** What a write to a hash may do to the fields that decide execution, in a
    manifest [m]: [isExecuted] and [didFailToEvaluate] are never reset;
    [isExecuted] is set only on a hash that is ready and did not fail;
    [isReady] is set only on a hash left without dependencies, and cleared
    only on a hash that has some; a name leaves the dependency list only when
    it is executed; a hash is poisoned only while it is not ready and lists a
    failed package; [didFailToEvaluate] is set only with [isExecuted] false;
    and only packages of the manifest are registered as dependents. *)
Definition allowed (m : gmap string Package.t) (p p' : Package.t) : Prop :=
  (Package.isExecuted p = true -> Package.isExecuted p' = true) ∧
  (Package.didFailToEvaluate p = true -> Package.didFailToEvaluate p' = true) ∧
  (Package.isExecuted p' = true ->
   Package.isExecuted p = true ∨
   (Package.didFailToEvaluate p = false ∧ Package.isReady p = true)) ∧
  (Package.isReady p' = true -> Package.isReady p = true ∨ deps_list p' = []) ∧
  (∀ x, x ∈ deps_list p -> x ∈ deps_list p' ∨ executed_in m x = true) ∧
  deps_list p' `sublist_of` deps_list p ∧
  (poisoned p' = true ->
   poisoned p = true ∨
   (Package.isReady p = false ∧ ∃ x, x ∈ deps_list p ∧ failed_in m x = true)) ∧
  (Package.didFailToEvaluate p' = true ->
   Package.didFailToEvaluate p = true ∨ Package.isExecuted p' = false) ∧
  (Package.isReady p = true -> Package.isReady p' = true ∨ deps_list p ≠ []) ∧
  (∀ x, x ∈ dependents_list p' -> x ∈ dependents_list p ∨ is_Some (m !! x)).

(** One write to the hash stored under some name. *)
Definition step (m m' : gmap string Package.t) : Prop :=
  ∃ name f, m' = alter f name m ∧ ∀ p, m !! name = Some p -> allowed m p (f p).

Definition steps : relation (gmap string Package.t) := rtc step.

(** The hash under [name], if any, is marked ready. *)
Definition ready_at (name : string) (m : gmap string Package.t) : Prop :=
  ∀ p, m !! name = Some p -> Package.isReady p = true.

(** [B] is blocked by [A]: [A] failed to evaluate and is not executed, and
    [B], which is neither ready nor executed, still lists [A]. *)
Definition blocked (A B : string) (m : gmap string Package.t) : Prop :=
  ∃ a b, m !! A = Some a ∧ m !! B = Some b ∧
    Package.didFailToEvaluate a = true ∧ Package.isExecuted a = false ∧
    A ∈ deps_list b ∧ Package.isExecuted b = false ∧ Package.isReady b = false.

(** The marks of the hashes agree: a hash that failed is not executed, a
    ready hash has no dependencies left, an executed hash is ready, and a
    poisoned hash lists a failed package. *)
Definition consistent (m : gmap string Package.t) : Prop :=
  ∀ name p, m !! name = Some p ->
    (Package.didFailToEvaluate p = true -> Package.isExecuted p = false) ∧
    (Package.isReady p = true -> deps_list p = []) ∧
    (Package.isExecuted p = true -> Package.isReady p = true) ∧
    (poisoned p = true -> ∃ x, x ∈ deps_list p ∧ failed_in m x = true).

(** The manifest is closed: the names in the [dependencies] and [dependents]
    of its hashes are names of the manifest. *)
Definition closed (m : gmap string Package.t) : Prop :=
  map_Forall
    (fun _ p =>
       Forall (fun x => is_Some (m !! x)) (deps_list p) ∧
       Forall (fun x => is_Some (m !! x)) (dependents_list p)) m.

(** The packages of [D] are through: executed, or failed. *)
Definition through (D : gset string) (m : gmap string Package.t) : Prop :=
  ∀ name, name ∈ D ->
    ∃ p, m !! name = Some p ∧
         (Package.isExecuted p = true ∨ Package.didFailToEvaluate p = true).

(** The computation returns a value on [w]: it neither throws nor runs out of
    fuel. *)
Definition returns {A} (c : M A) (w : World) : Prop := ∃ a, (c w).1 = Ok a.

(** With [fuel] left and the packages of [D] through, the loader can still
    notify every other package of the closed manifest [m]. *)
Definition good (D : gset string) (fuel : nat) (m : gmap string Package.t) : Prop :=
  closed m ∧ through D m ∧ D ⊆ dom m ∧ (size (dom m) < size D + fuel)%nat.

(** A write that keeps a manifest good: the marks of being through are kept,
    dependencies only leave, and dependents are names of the manifest. *)
Definition harmless (m : gmap string Package.t) (p p' : Package.t) : Prop :=
  (Package.isExecuted p = true -> Package.isExecuted p' = true) ∧
  (Package.didFailToEvaluate p = true -> Package.didFailToEvaluate p' = true) ∧
  deps_list p' `sublist_of` deps_list p ∧
  (∀ x, x ∈ dependents_list p' -> x ∈ dependents_list p ∨ is_Some (m !! x)).

(** A hash, and a manifest, on which the loader has not worked yet. *)
Definition clean_package (p : Package.t) : bool :=
  negb (Package.isReady p) && negb (Package.isExecuted p) &&
  negb (Package.didFailToEvaluate p) && negb (poisoned p).

Definition clean (m : gmap string Package.t) : Prop :=
  map_Forall (fun _ p => clean_package p = true) m.

(** *** What the application and the browser can do to the loader *)

Inductive Op : Type :=
  | OpLoadPackage (packageName : string) (target method : value) (args : list value)
  | OpRegisterCallback (packageName : string) (target method : value)
      (args : list value)
  | OpLoadJavaScript (packageName : string)
  | OpIsLoaded (packageName : string)
  | OpScriptLoaded (packageName : string). (* el.onload: _sc_packageDidLoad *)

Definition run_op (fuel : nat) (op : Op) : M unit :=
  match op with
  | OpLoadPackage packageName target method args =>
      _ <- loadPackage fuel packageName target method args ;; ret tt
  | OpRegisterCallback packageName target method args =>
      registerCallbackForPackage packageName target method args
  | OpLoadJavaScript packageName => loadJavaScript packageName
  | OpIsLoaded packageName => _ <- isLoaded (inl packageName) ;; ret tt
  | OpScriptLoaded packageName => _sc_packageDidLoad fuel packageName
  end.

(** A sequence of calls, each with its fuel; a call that throws ends, and the
    next one runs on the state it left. *)
Fixpoint run_ops (ops : list (nat * Op)) (w : World) : World :=
  match ops with
  | [] => w
  | (fuel, op) :: ops' => run_ops ops' (run_op fuel op w).2
  end.

(** A function called back by the loader makes only steps of the transition
    system; [evaluate_sound] asks this of an evaluation on a ready package. *)
Definition reload_sound (f : string -> M bool) : Prop :=
  ∀ name w m0, steps m0 (manifest w) -> steps m0 (manifest (f name w).2).

Definition evaluate_sound (f : string -> M unit) : Prop :=
  ∀ name w m0, ready_at name (manifest w) -> steps m0 (manifest w) ->
    steps m0 (manifest (f name w).2).



(** *** A small manifest and its states, for the examples *)

(** Execution sinks and callbacks that always return, or always throw. *)
Definition eval_ok (code : string) : option string := None.
Definition eval_fail (code : string) : option string := Some "ReferenceError".
Definition apply_ok (cb : Callback) : bool := false.

(** A callback body that throws when called on behalf of [VObject 2]. *)
Definition apply_fail_second (cb : Callback) : bool :=
  bool_decide (cb_target cb = VObject 2).

(** The manifest as the build tools emit it: [A] without dependencies, and
    [B], which depends solely on [A].  The source of [A] lists its categories
    in the reverse of the order of evaluation. *)
Definition demo_A : Package.t :=
  Package.fresh "app" "a" None
    (Some [("views", "v()"); ("controllers", "c()"); ("models", "m()");
           ("other", "o()")]).

Definition demo_B : Package.t :=
  Package.fresh "app" "b" (Some ["A"]) (Some [("other", "b()")]).

Definition demo_world : World :=
  mkWorld (<["A" := demo_A]> (<["B" := demo_B]> ∅)) [].

(** [B] has been requested and loaded, has registered itself as a dependent
    of [A] and waits for it; the script of [A] has arrived, and [A] is about
    to be evaluated. *)
Definition waiting_A : Package.t :=
  Package.set_isReady true
    (Package.set_dependents (Some ["B"]) (Package.set_isLoaded true demo_A)).

Definition waiting_B : Package.t :=
  Package.set_isLoaded true demo_B.

Definition waiting_world : World :=
  mkWorld (<["A" := waiting_A]> (<["B" := waiting_B]> ∅)) [].

(** The same state after the code of [A] has thrown, before its
    notification. *)
Definition failed_world : World :=
  mkWorld
    (<["A" := Package.set_didFailToEvaluate true waiting_A]>
       (<["B" := waiting_B]> ∅)) [].

(** A package whose dependency list is present and empty. *)
Definition empty_deps_world : World :=
  mkWorld (<["P" := Package.fresh "app" "p" (Some []) None]> ∅) [].

(** A package whose only dependency is executed. *)
Definition met_P : Package.t := Package.fresh "app" "p" (Some ["A"]) None.

Definition met_world : World :=
  mkWorld
    (<["A" := Package.set_isExecuted true demo_A]> (<["P" := met_P]> ∅)) [].

(** An executed package with three callbacks in its queue. *)
Definition queued_callbacks : list Callback :=
  [mkCallback (VObject 1) (VFunction 1) [VString "P"];
   mkCallback (VObject 2) (VFunction 2) [VString "P"];
   mkCallback (VObject 3) (VFunction 3) [VString "P"; VNumber 7]].

Definition executed_P : Package.t :=
  Package.set_callbacks (Some queued_callbacks)
    (Package.set_isExecuted true
       (Package.set_isReady true
          (Package.set_isLoaded true (Package.fresh "app" "p" None (Some []))))).

Definition executed_world : World :=
  mkWorld (<["P" := executed_P]> ∅) [].

(** [A] once it has been loaded and executed. *)
Definition executed_A : Package.t :=
  Package.set_isExecuted true
    (Package.set_isReady true
       (Package.set_isLoaded true
          (Package.set_source (Some []) demo_A))).

(** *** Vocabulary of the further properties *)

(** The [src] of the script elements appended to the document, in a trace,
    in order. *)
Definition appended (tr : list Event) : list (option string) :=
  omap (fun e => match e with ScriptAppended url => Some url | _ => None end) tr.

(** The address from which the source of a package is requested. *)
Definition url_of (p : Package.t) : string :=
  "/" +:+ Package.rootNode p +:+ "/" +:+ "packages" +:+ "/" +:+ Package.basename p.

(** The hash [p] of [packageName] once [registerCallbackForPackage] has run
    for it: the queue has one more callback when the reshaped method is a
    function, and is as it was otherwise. *)
Definition registered (packageName : string) (target method : value)
    (args : list value) (p : Package.t) : Package.t :=
  let shape := callback_shape target method args in
  if is_function shape.1.2 then
    Package.set_callbacks
      (Some (default [] (Package.callbacks p) ++
             [mkCallback shape.1.1 shape.1.2 (VString packageName :: shape.2)]))
      p
  else p.

(** The guard of [loadPackage] on a loaded and ready package. *)
Definition flagged (p : Package.t) : bool :=
  Package.doNotExecute p
  || bool_decide (is_Some (Package.failedDependencies p))
  || Package.didFailToEvaluate p.

(** The hash of a package once its script has arrived and its dependencies
    are found to be met. *)
Definition arrived (p : Package.t) : Package.t :=
  let p1 := Package.set_isLoading false (Package.set_isLoaded true p) in
  Package.set_isReady true
    (match Package.dependencies p1 with
     | Some (_ :: _) => Package.set_dependencies None p1
     | _ => p1
     end).


(** What [_sc_loadDependenciesForPackage] does, for [packageName], to the
    hash of a dependency that is not loaded: [packageName] is pushed onto its
    dependents, and its source is requested. *)
Definition enlisted (packageName : string) (q : Package.t) : Package.t :=
  Package.set_isLoading true
    (Package.set_dependents (Some (dependents_list q ++ [packageName])) q).

(** Every dependency that [m0] lists for a package is, in [m], still listed
    by the package, or executed. *)
Definition accounted (m0 m : gmap string Package.t) : Prop :=
  ∀ name p0 p d, m0 !! name = Some p0 -> m !! name = Some p ->
    d ∈ deps_list p0 -> d ∈ deps_list p ∨ executed_in m d = true.

(** No package of [S] is executed. *)
Definition none_executed (S : gset string) (m : gmap string Package.t) : Prop :=
  ∀ x, x ∈ S -> executed_in m x = false.

(** [name] refers to a hash of the manifest that passes [test]. *)
Definition holds (test : Package.t -> bool) (m : gmap string Package.t)
    (name : string) : bool :=
  match m !! name with
  | Some p => test p
  | None => false
  end.

(** [p] holds code to run in the categories that the mode selects. *)
Definition has_code (p : Package.t) : bool :=
  match Package.source p with
  | Some src => nonempty (spec_code PACKAGE_MODE src)
  | None => false
  end.

(** The names of the packages of a manifest that hold code to run. *)
Definition with_code (m : gmap string Package.t) : gset string :=
  dom (filter (fun kv => has_code kv.2 = true) m).

(** What may become of the source mapping of a hash: a category keeps its
    code, or is a category that the mode selects and has been deleted. *)
Definition source_kept (s s' : option (list (string * string))) : Prop :=
  match s, s' with
  | None, None => True
  | Some src, Some src' =>
      ∀ part, source_get part src' = source_get part src ∨
              (part ∈ parts_for PACKAGE_MODE ∧ source_get part src' = None)
  | _, _ => False
  end.

(** What lasts in a hash through a write: its location, the marks of being
    loaded and of being poisoned, and its source but for deleted
    categories. *)
Definition lasting (p p' : Package.t) : Prop :=
  Package.rootNode p' = Package.rootNode p ∧
  Package.basename p' = Package.basename p ∧
  (Package.isLoaded p = true -> Package.isLoaded p' = true) ∧
  (Package.doNotExecute p = true -> Package.doNotExecute p' = true) ∧
  (∀ x, x ∈ failed_list p -> x ∈ failed_list p') ∧
  (is_Some (Package.failedDependencies p) ->
   is_Some (Package.failedDependencies p')) ∧
  source_kept (Package.source p) (Package.source p').

(** The world [w'] comes after [w]: the hashes are those of [w] with what
    lasts in them, the trace of [w] has been extended, and each code run
    since has used up a package that held code. *)
Definition advances (w w' : World) : Prop :=
  manifest_rel lasting (manifest w) (manifest w') ∧
  (∃ tr, trace w' = trace w ++ tr) ∧
  (length (executed_codes (trace w')) + size (with_code (manifest w')) <=
   length (executed_codes (trace w)) + size (with_code (manifest w)))%nat.

(** A computation that only advances the world. *)
Definition advancing {A} (c : M A) : Prop := ∀ w, advances w (c w).2.

(** *** Further states of the small manifest, for the examples *)

(** The calls that request [A] and bring its script; and those that request
    [B], bring its script, and then the script of [A], which [B] asked for. *)
Definition load_A : list (nat * Op) :=
  [(2%nat, OpLoadPackage "A" (VFunction 1) VUndefined []);
   (2%nat, OpScriptLoaded "A")].

Definition load_B : list (nat * Op) :=
  [(2%nat, OpLoadPackage "B" (VFunction 1) VUndefined []);
   (2%nat, OpScriptLoaded "B");
   (2%nat, OpScriptLoaded "A")].

(** [A] once it has been loaded and its code has thrown. *)
Definition thrown_A : Package.t :=
  Package.set_didFailToEvaluate true
    (Package.set_isReady true
       (Package.set_isLoaded true
          (Package.set_source (Some []) demo_A))).

(** A package that depends on itself, and two packages that depend on each
    other. *)
Definition knot_world : World :=
  mkWorld
    (<["P" := Package.fresh "app" "p" (Some ["P"]) (Some [("other", "p()")])]>
       (<["Q" := Package.fresh "app" "q" (Some ["R"]) (Some [("other", "q()")])]>
          (<["R" := Package.fresh "app" "r" (Some ["Q"]) (Some [("other", "r()")])]>
             ∅))) [].

(** The calls that request the three packages and bring their scripts. *)
Definition load_knot : list (nat * Op) :=
  [(4%nat, OpLoadPackage "P" (VFunction 1) VUndefined []);
   (4%nat, OpScriptLoaded "P");
   (4%nat, OpLoadPackage "Q" (VFunction 2) VUndefined []);
   (4%nat, OpScriptLoaded "Q");
   (4%nat, OpScriptLoaded "R");
   (4%nat, OpLoadPackage "P" VUndefined VUndefined []);
   (4%nat, OpLoadPackage "Q" VUndefined VUndefined [])].


(** ** Running the monad *)

Lemma bind_ret {A B} (a : A) (k : A -> M B) (w : World) :
  (x <- ret a ;; k x) w = k a w.
Proof. reflexivity. Qed.

Lemma bind_throw {A B} (err : string) (k : A -> M B) (w : World) :
  (x <- throw err ;; k x) w = (Throw err, w).
Proof. reflexivity. Qed.

Lemma bind_out_of_fuel {A B} (k : A -> M B) (w : World) :
  (x <- out_of_fuel ;; k x) w = (OutOfFuel, w).
Proof. reflexivity. Qed.

Lemma bind_get {B} (name : string) (k : option Package.t -> M B) (w : World) :
  (x <- packages_get name ;; k x) w = k (manifest w !! name) w.
Proof. reflexivity. Qed.

Lemma bind_update {B} (name : string) (f : Package.t -> Package.t)
    (k : unit -> M B) (w : World) :
  (x <- update name f ;; k x) w =
  k tt (mkWorld (alter f name (manifest w)) (trace w)).
Proof. reflexivity. Qed.

Lemma bind_emit {B} (e : Event) (k : unit -> M B) (w : World) :
  (x <- emit e ;; k x) w = k tt (mkWorld (manifest w) (trace w ++ [e])).
Proof. reflexivity. Qed.

Lemma bind_warn {B} (msg : string) (k : unit -> M B) (w : World) :
  (x <- warn msg ;; k x) w = k tt (mkWorld (manifest w) (trace w ++ [LogWarn msg])).
Proof. reflexivity. Qed.

Lemma log_info_run (msg : string) (w : World) :
  log_info msg w =
  (Ok tt, mkWorld (manifest w) (trace w ++ if log then [LogInfo msg] else [])).
Proof.
  unfold log_info, info, emit, ret. destruct log; [done|].
  rewrite app_nil_r. by destruct w.
Qed.

Lemma log_warn_run (msg : string) (w : World) :
  log_warn msg w =
  (Ok tt, mkWorld (manifest w) (trace w ++ if log then [LogWarn msg] else [])).
Proof.
  unfold log_warn, warn, emit, ret. destruct log; [done|].
  rewrite app_nil_r. by destruct w.
Qed.

Lemma bind_log_info {B} (msg : string) (k : unit -> M B) (w : World) :
  (x <- log_info msg ;; k x) w =
  k tt (mkWorld (manifest w) (trace w ++ if log then [LogInfo msg] else [])).
Proof. unfold bind. by rewrite log_info_run. Qed.

Lemma bind_log_warn {B} (msg : string) (k : unit -> M B) (w : World) :
  (x <- log_warn msg ;; k x) w =
  k tt (mkWorld (manifest w) (trace w ++ if log then [LogWarn msg] else [])).
Proof. unfold bind. by rewrite log_warn_run. Qed.

Lemma bind_assoc {A B C} (m : M A) (k1 : A -> M B) (k2 : B -> M C) (w : World) :
  (y <- (x <- m ;; k1 x) ;; k2 y) w = (x <- m ;; y <- k1 x ;; k2 y) w.
Proof. unfold bind. by destruct (m w) as [[a| |] w']. Qed.

Lemma bind_run {A B} (m : M A) (k : A -> M B) (w w' : World) (a : A) :
  m w = (Ok a, w') -> (x <- m ;; k x) w = k a w'.
Proof. unfold bind. by intros ->. Qed.

Lemma ret_run {A} (a : A) (w : World) : ret a w = (Ok a, w).
Proof. reflexivity. Qed.

Lemma throw_run {A} (err : string) (w : World) : @throw A err w = (Throw err, w).
Proof. reflexivity. Qed.

Lemma update_run (name : string) (f : Package.t -> Package.t) (w : World) :
  update name f w = (Ok tt, mkWorld (alter f name (manifest w)) (trace w)).
Proof. reflexivity. Qed.

Lemma emit_run (e : Event) (w : World) :
  emit e w = (Ok tt, mkWorld (manifest w) (trace w ++ [e])).
Proof. reflexivity. Qed.

Lemma warn_run (msg : string) (w : World) :
  warn msg w = (Ok tt, mkWorld (manifest w) (trace w ++ [LogWarn msg])).
Proof. reflexivity. Qed.

(** One step of symbolic execution of a computation applied to a world. *)
Ltac mstep :=
  first
    [ rewrite bind_ret | rewrite bind_throw | rewrite bind_out_of_fuel
    | rewrite bind_get | rewrite bind_update | rewrite bind_emit
    | rewrite bind_warn | rewrite bind_log_info | rewrite bind_log_warn
    | rewrite bind_assoc | rewrite log_info_run | rewrite log_warn_run
    | rewrite ret_run | rewrite throw_run | rewrite update_run
    | rewrite emit_run | rewrite warn_run
    | progress cbv beta match
    | progress cbn [manifest trace fst snd] ].

Ltac mrun := repeat mstep.

(** ** Traces *)

Create HintDb loader.

Lemma invoked_app (tr1 tr2 : list Event) :
  invoked (tr1 ++ tr2) = invoked tr1 ++ invoked tr2.
Proof. apply omap_app. Qed.

Lemma executed_codes_app (tr1 tr2 : list Event) :
  executed_codes (tr1 ++ tr2) = executed_codes tr1 ++ executed_codes tr2.
Proof. apply omap_app. Qed.

Lemma executed_codes_exec (code : string) (tr : list Event) :
  executed_codes (ExecScript code :: tr) = code :: executed_codes tr.
Proof. reflexivity. Qed.

Lemma invoked_exec (code : string) (tr : list Event) :
  invoked (ExecScript code :: tr) = invoked tr.
Proof. reflexivity. Qed.

Lemma only_logs_nil : only_logs [].
Proof. constructor. Qed.

Lemma only_logs_app (tr1 tr2 : list Event) :
  only_logs tr1 -> only_logs tr2 -> only_logs (tr1 ++ tr2).
Proof. apply Forall_app_2. Qed.

Lemma only_logs_info (b : bool) (msg : string) :
  only_logs (if b then [LogInfo msg] else []).
Proof. destruct b; repeat constructor. Qed.

Lemma only_logs_warn (b : bool) (msg : string) :
  only_logs (if b then [LogWarn msg] else []).
Proof. destruct b; repeat constructor. Qed.

Lemma only_logs_invoked (tr : list Event) : only_logs tr -> invoked tr = [].
Proof.
  induction 1 as [|e tr He _ IH]; [done|]. destruct e; try done; exact IH.
Qed.

Lemma only_logs_executed_codes (tr : list Event) :
  only_logs tr -> executed_codes tr = [].
Proof.
  induction 1 as [|e tr He _ IH]; [done|]. destruct e; try done; exact IH.
Qed.

#[local] Hint Resolve only_logs_nil only_logs_app only_logs_info only_logs_warn : loader.

(** Log lines, however they are put together. *)
Ltac solve_only_logs :=
  repeat first
    [ assumption
    | apply only_logs_nil | apply only_logs_info | apply only_logs_warn
    | apply only_logs_app
    | apply Forall_cons; split; [exact I|] ].

(** Projections of a trace skip its log lines. *)
Ltac drop_logs :=
  rewrite ?invoked_app, ?executed_codes_app;
  repeat match goal with
    | |- context [executed_codes ?t] =>
        rewrite (only_logs_executed_codes t) by solve_only_logs
    | |- context [invoked ?t] =>
        rewrite (only_logs_invoked t) by solve_only_logs
    end;
  rewrite ?app_nil_r.

(** ** Readiness: [_sc_dependenciesMetForPackage] *)

Lemma alter_lookup_insert (f : Package.t -> Package.t) (name : string)
    (p : Package.t) (m : gmap string Package.t) :
  m !! name = Some p -> alter f name m = <[name := f p]> m.
Proof.
  intros Hp. apply map_eq; intros k. rewrite lookup_alter, lookup_insert.
  case_decide; [subst k; by rewrite Hp | done].
Qed.

(** Once the local [isReady] is false the loop cannot answer true. *)
Lemma check_loop_false (packageName : string) (l : list string) (w : World) :
  (for_fold l false (check_dependency packageName) w).1 ≠ Ok true.
Proof.
  revert w. induction l as [|x l IH]; intros w; simpl; [discriminate|].
  unfold check_dependency. mrun.
  destruct (manifest w !! x) as [q|]; mrun; [|discriminate].
  destruct (Package.isExecuted q); simpl; mrun; apply IH.
Qed.

(** The loop answers true only when every dependency is executed. *)
Lemma check_loop_true (packageName : string) (l : list string) (b : bool) (w : World) :
  (for_fold l b (check_dependency packageName) w).1 = Ok true ->
  b = true ∧ forallb (executed_in (manifest w)) l = true.
Proof.
  revert b w. induction l as [|x l IH]; intros b w; simpl.
  - intros [= ->]. done.
  - unfold check_dependency, executed_in at 1. mrun.
    destruct (manifest w !! x) as [q|] eqn:Hx; mrun; [|discriminate].
    destruct (Package.isExecuted q); simpl; mrun.
    + intros H. apply IH in H. done.
    + intros H. by apply check_loop_false in H.
Qed.

(** When every dependency is executed the loop writes nothing. *)
Lemma check_loop_executed (packageName : string) (l : list string) (b : bool) (w : World) :
  forallb (executed_in (manifest w)) l = true ->
  for_fold l b (check_dependency packageName) w = (Ok b, w).
Proof.
  revert w. induction l as [|x l IH]; intros w; simpl; [done|].
  intros [Hx Hl]%andb_prop.
  unfold check_dependency. mrun.
  unfold executed_in in Hx.
  destruct (manifest w !! x) as [q|]; [|discriminate].
  rewrite Hx. simpl. mrun. by apply IH.
Qed.

(** The run of [_sc_dependenciesMetForPackage] on a package whose
    dependencies are all executed. *)
Lemma dependenciesMet_run_ready (packageName : string) (p : Package.t) (w : World) :
  manifest w !! packageName = Some p ->
  forallb (executed_in (manifest w)) (deps_list p) = true ->
  ∃ tr,
    _sc_dependenciesMetForPackage packageName w =
    (Ok true,
     mkWorld
       (<[packageName :=
            Package.set_isReady true
              (match Package.dependencies p with
               | Some (_ :: _) => Package.set_dependencies None p
               | _ => p
               end)]> (manifest w))
       (trace w ++ tr)) ∧
    only_logs tr.
Proof.
  intros Hp Hall. unfold _sc_dependenciesMetForPackage. mrun. rewrite Hp.
  unfold deps_list in Hall.
  destruct (Package.dependencies p) as [[|d l]|] eqn:Hdeps; simpl in Hall.
  - mrun. rewrite (alter_lookup_insert _ _ p) by done.
    rewrite <- !app_assoc. eexists; split; [reflexivity|]. solve_only_logs.
  - erewrite bind_run; [|apply check_loop_executed; exact Hall].
    mrun. rewrite (alter_lookup_insert _ _ (Package.set_dependencies None p)).
    2:{ rewrite lookup_alter. case_decide; [by rewrite Hp | done]. }
    rewrite (alter_lookup_insert _ _ p) by done. rewrite insert_insert_eq.
    rewrite <- !app_assoc. eexists; split; [reflexivity|]. solve_only_logs.
  - mrun. rewrite (alter_lookup_insert _ _ p) by done.
    rewrite <- !app_assoc. eexists; split; [reflexivity|]. solve_only_logs.
Qed.

(** Its answer is not true when some dependency is not executed. *)
Lemma dependenciesMet_true_executed (packageName : string) (p : Package.t) (w : World) :
  manifest w !! packageName = Some p ->
  (_sc_dependenciesMetForPackage packageName w).1 = Ok true ->
  forallb (executed_in (manifest w)) (deps_list p) = true.
Proof.
  intros Hp. unfold _sc_dependenciesMetForPackage. mrun. rewrite Hp.
  unfold deps_list.
  destruct (Package.dependencies p) as [[|d l]|] eqn:Hdeps; [done| |done].
  simpl default. intros Hr.
  set (w0 := mkWorld _ _) in Hr.
  destruct (for_fold (d :: l) true (check_dependency packageName) w0)
    as [[[]| |] w1] eqn:Hloop.
  - pose proof (check_loop_true packageName (d :: l) true w0) as H.
    rewrite Hloop in H. by destruct (H eq_refl).
  - exfalso. erewrite bind_run in Hr by exact Hloop. revert Hr. mrun. done.
  - exfalso. unfold bind at 1 in Hr. rewrite Hloop in Hr. done.
  - exfalso. unfold bind at 1 in Hr. rewrite Hloop in Hr. done.
Qed.

(** C1 (as amended).  For a package [p] of the manifest,
    [_sc_dependenciesMetForPackage] returns true if and only if every name in
    its dependency list (none, when the list is absent or empty) refers to a
    package of the manifest whose [isExecuted] flag is set.  When it returns
    true, [isReady] has been set, and the [dependencies] property has been
    deleted if the list was non-empty; an absent or empty list is left as it
    was. *)
Theorem dependenciesMet_iff_all_executed (packageName : string) (p : Package.t)
    (w : World) :
  manifest w !! packageName = Some p ->
  let r := _sc_dependenciesMetForPackage packageName w in
  (r.1 = Ok true ↔ forallb (executed_in (manifest w)) (deps_list p) = true) ∧
  (r.1 = Ok true ->
   manifest r.2 =
     <[packageName :=
         Package.set_isReady true
           (match Package.dependencies p with
            | Some (_ :: _) => Package.set_dependencies None p
            | _ => p
            end)]> (manifest w)).
Proof.
  intros Hp r.
  assert (Hiff : r.1 = Ok true ↔
                 forallb (executed_in (manifest w)) (deps_list p) = true).
  { split.
    - by apply dependenciesMet_true_executed.
    - intros Hall. subst r.
      destruct (dependenciesMet_run_ready _ _ _ Hp Hall) as (tr & -> & _). done. }
  split; [exact Hiff|].
  intros Hall%Hiff. subst r.
  destruct (dependenciesMet_run_ready _ _ _ Hp Hall) as (tr & -> & _). done.
Qed.

(** ** The callback queue *)

Lemma invoked_callback_events (packageName : string) (q : list Callback) :
  invoked (flat_map (callback_events packageName) q) = q.
Proof.
  induction q as [|cb q IH]; [done|].
  simpl. rewrite invoked_app, IH. unfold callback_events.
  by destruct (applyThrows cb).
Qed.

Lemma executed_codes_callback_events (packageName : string) (q : list Callback) :
  executed_codes (flat_map (callback_events packageName) q) = [].
Proof.
  induction q as [|cb q IH]; [done|].
  simpl. rewrite executed_codes_app, IH. unfold callback_events.
  by destruct (applyThrows cb).
Qed.

(** The loop over the queue calls every callback, in order, whatever the
    callbacks before it did, and writes nothing to the manifest. *)
Lemma invoke_loop_run (packageName : string) (q : list Callback) (w : World) :
  for_each q (invoke_callback packageName) w =
  (Ok tt, mkWorld (manifest w) (trace w ++ flat_map (callback_events packageName) q)).
Proof.
  revert w. induction q as [|cb q IH]; intros w; simpl.
  - rewrite app_nil_r. by destruct w.
  - unfold invoke_callback, callback_events. mrun.
    destruct (applyThrows cb); mrun; rewrite IH; cbn [manifest trace];
      by rewrite <- !app_assoc.
Qed.

Lemma invokeCallbacks_run (packageName : string) (p : Package.t) (w : World) :
  manifest w !! packageName = Some p ->
  _sc_invokeCallbacksForPackage packageName w =
  (Ok tt,
   mkWorld (<[packageName := Package.set_callbacks None p]> (manifest w))
     (trace w ++
      flat_map (callback_events packageName) (default [] (Package.callbacks p)))).
Proof.
  intros Hp. unfold _sc_invokeCallbacksForPackage. mrun. rewrite Hp.
  erewrite bind_run by apply invoke_loop_run. mrun.
  by rewrite (alter_lookup_insert _ _ p).
Qed.

(** Callbacks that do not call the loader, as this section takes them:
    when the callbacks of a package of the manifest are invoked, every
    callback queued on the hash is called, in the order of registration; a
    callback that throws is caught and logged with a warning, the callbacks
    after it are still called, and the hash is changed in nothing but its
    queue, which is deleted; invoking the callbacks of the package once more
    then calls none of them again.  What happens when a callback does call
    the loader is shown on [Refined], at the end. *)
Theorem invokeCallbacks_fifo_isolated_once (packageName : string) (p : Package.t)
    (w : World) :
  manifest w !! packageName = Some p ->
  let q := default [] (Package.callbacks p) in
  let r := _sc_invokeCallbacksForPackage packageName w in
  r.1 = Ok tt ∧
  trace r.2 = trace w ++ flat_map (callback_events packageName) q ∧
  invoked (trace r.2) = invoked (trace w) ++ q ∧
  manifest r.2 = <[packageName := Package.set_callbacks None p]> (manifest w) ∧
  let r' := _sc_invokeCallbacksForPackage packageName r.2 in
  r'.1 = Ok tt ∧ trace r'.2 = trace r.2 ∧ manifest r'.2 = manifest r.2.
Proof.
  intros Hp q r. subst q r. rewrite (invokeCallbacks_run _ _ _ Hp).
  cbn [fst snd manifest trace].
  rewrite invoked_app, invoked_callback_events.
  repeat split.
  - erewrite invokeCallbacks_run; [done|].
    cbn [manifest]. apply lookup_insert_eq.
  - erewrite invokeCallbacks_run by (cbn [manifest]; apply lookup_insert_eq).
    cbn [snd trace Package.callbacks Package.set_callbacks default flat_map].
    apply app_nil_r.
  - erewrite invokeCallbacks_run by (cbn [manifest]; apply lookup_insert_eq).
    cbn [snd manifest]. by rewrite insert_insert_eq.
Qed.

(** ** Registering a callback *)

(** The run of [registerCallbackForPackage] when the reshaped method is a
    function: one callback is pushed onto the queue. *)
Lemma registerCallback_run (packageName : string) (p : Package.t)
    (target method : value) (args : list value) (w : World) :
  manifest w !! packageName = Some p ->
  is_function (callback_shape target method args).1.2 = true ->
  registerCallbackForPackage packageName target method args w =
  (Ok tt,
   mkWorld
     (<[packageName :=
          Package.set_callbacks
            (Some (default [] (Package.callbacks p) ++
                   [mkCallback (callback_shape target method args).1.1
                      (callback_shape target method args).1.2
                      (VString packageName :: (callback_shape target method args).2)]))
            p]> (manifest w))
     (trace w)).
Proof.
  intros Hp Hfun. unfold registerCallbackForPackage. mrun. rewrite Hp.
  destruct (SC_none target && SC_none method) eqn:Hnone.
  { exfalso. apply andb_prop in Hnone as [Ht Hm].
    destruct target; try done; destruct method; done. }
  destruct (callback_shape target method args) as [[t' m'] a'] eqn:Hshape.
  cbn [fst snd] in *. 
  destruct m'; try done. cbn [truthy is_function negb orb]. mrun.
  by rewrite (alter_lookup_insert _ _ p).
Qed.

(** C10.  [registerCallbackForPackage] queues nothing whenever, after the
    reshaping of target and method, the method is absent or not a function:
    it returns, the manifest (and with it every callback queue) is unchanged,
    and nothing is called.  In particular this is so for a target that is not
    callable given with a method that is not a function. *)
Theorem registerCallback_drops_non_function (packageName : string)
    (target method : value) (args : list value) (w : World) :
  (is_function (callback_shape target method args).1.2 = false ->
   let r := registerCallbackForPackage packageName target method args w in
   r.1 = Ok tt ∧ manifest r.2 = manifest w ∧
   invoked (trace r.2) = invoked (trace w)) ∧
  (is_function target = false -> is_function method = false ->
   is_function (callback_shape target method args).1.2 = false).
Proof.
  split.
  - intros Hfun r. subst r. unfold registerCallbackForPackage. mrun.
    destruct (manifest w !! packageName) as [p|]; mrun.
    + destruct (SC_none target && SC_none method); mrun; [done|].
      destruct (callback_shape target method args) as [[t' m'] a'].
      cbn [fst snd] in Hfun. rewrite Hfun, orb_true_r. mrun. done.
    + rewrite invoked_app. destruct log; cbn; by rewrite ?app_nil_r.
  - intros Ht Hm. unfold callback_shape.
    destruct (truthy target); [|exact Hm]. rewrite Ht. exact Hm.
Qed.

(** ** Evaluation: what is handed to the execution sink *)

Lemma append_assoc (s1 s2 s3 : string) :
  (s1 +:+ s2) +:+ s3 = s1 +:+ s2 +:+ s3.
Proof.
  induction s1 as [|c s1 IH]; [done|].
  change (String c ((s1 +:+ s2) +:+ s3) = String c (s1 +:+ s2 +:+ s3)).
  by rewrite IH.
Qed.

Lemma append_empty_r (s : string) : s +:+ "" = s.
Proof.
  induction s as [|c s IH]; [done|].
  change (String c (s +:+ "") = String c s). by rewrite IH.
Qed.

Lemma source_get_delete (part part' : string) (src : list (string * string)) :
  source_get part (source_delete part' src) =
  if decide (part = part') then None else source_get part src.
Proof.
  unfold source_delete. induction src as [|[k v] src IH]; simpl.
  - by case_decide.
  - rewrite filter_cons. simpl. destruct (decide (k ≠ part')) as [Hk|Hk].
    + simpl. destruct (decide (k = part)) as [->|Hkp].
      * by rewrite decide_False.
      * exact IH.
    + apply dec_stable in Hk. subst k. rewrite IH.
      destruct (decide (part = part')) as [->|Hne]; [done|].
      by rewrite decide_False.
Qed.

Lemma omap_ext_in {A B} (f g : A -> option B) (l : list A) :
  (∀ x, x ∈ l -> f x = g x) -> omap f l = omap g l.
Proof.
  induction l as [|x l IH]; intros H; [done|]. csimpl.
  rewrite (H x) by (apply elem_of_cons; by left).
  rewrite IH; [done|]. intros y Hy. apply H, elem_of_cons. by right.
Qed.

Lemma omap_cons_eq {A B} (f : A -> option B) (x : A) (l : list A) :
  omap f (x :: l) =
  match f x with Some y => y :: omap f l | None => omap f l end.
Proof. reflexivity. Qed.

Lemma code_of_delete (part part' : string) (src : list (string * string)) :
  part ≠ part' -> code_of (source_delete part' src) part = code_of src part.
Proof.
  intros Hne. unfold code_of. rewrite source_get_delete. by rewrite decide_False.
Qed.

(** The code accumulated by the loop: the texts of the parts that have code,
    in the order of [parts], each preceded by [';'] unless the code is still
    empty. *)
Lemma accumulate_code (parts : list string) (code : string)
    (src : list (string * string)) :
  NoDup parts ->
  (accumulate parts code src).1 =
  match omap (code_of src) parts with
  | [] => code
  | texts => (if nonempty code then code +:+ ";" else code) +:+ join_code texts
  end.
Proof.
  revert code src. induction parts as [|part parts IH]; intros code src Hnd; [done|].
  apply NoDup_cons in Hnd as [Hpart Hnd]. simpl.
  assert (Hrest : ∀ src', omap (code_of (source_delete part src')) parts =
                          omap (code_of src') parts).
  { intros src'. apply omap_ext_in. intros x Hx.
    apply code_of_delete. intros ->. done. }
  unfold code_of at 1.
  destruct (source_get part src) as [text|]; [|by apply IH].
  destruct (nonempty text) eqn:Htext; [|by apply IH].
  rewrite IH by done. rewrite Hrest.
  assert (Hne : nonempty ((if nonempty code then code +:+ ";" else code) +:+ text) = true).
  { destruct code; simpl; [done|done]. }
  rewrite Hne.
  change (list_omap string string (code_of src) parts)
    with (omap (code_of src) parts).
  destruct (omap (code_of src) parts) as [|t ts] eqn:Hts; [done|].
  by rewrite !append_assoc.
Qed.

(** The source deleted by the loop: every part that had code is gone, and
    the other entries are as they were. *)
Lemma accumulate_source (parts : list string) (code : string)
    (src : list (string * string)) (part : string) :
  source_get part (accumulate parts code src).2 =
  if bool_decide (part ∈ parts ∧ is_Some (code_of src part)) then None
  else source_get part src.
Proof.
  revert code src. induction parts as [|x parts IH]; intros code src;
    cbn [accumulate snd].
  - rewrite bool_decide_eq_false_2; [done|]. intros [H _]. by apply elem_of_nil in H.
  - assert (Hskip : code_of src x = None ->
        (if bool_decide (part ∈ parts ∧ is_Some (code_of src part)) then None
         else source_get part src) =
        (if bool_decide (part ∈ x :: parts ∧ is_Some (code_of src part)) then None
         else source_get part src)).
    { intros Hx. apply (f_equal (fun b : bool => if b then None else source_get part src)).
      apply bool_decide_ext. rewrite elem_of_cons. split; [tauto|].
      intros [[->|H] Hs]; [|done]. rewrite Hx in Hs. by destruct Hs. }
    destruct (source_get x src) as [text|] eqn:Hx.
    2:{ rewrite IH. apply Hskip. unfold code_of. by rewrite Hx. }
    destruct (nonempty text) eqn:Htext.
    2:{ rewrite IH. apply Hskip. unfold code_of. by rewrite Hx, Htext. }
    rewrite IH. destruct (decide (part = x)) as [Heq|Hne].
    + rewrite source_get_delete, decide_True by done.
      rewrite (bool_decide_eq_true_2 (part ∈ x :: parts ∧ _)).
      2:{ split; [apply elem_of_cons; by left|]. subst part.
          unfold code_of. rewrite Hx, Htext. done. }
      match goal with |- (if ?b then _ else _) = _ => by destruct b end.
    + rewrite source_get_delete, decide_False by done.
      rewrite code_of_delete by done.
      apply (f_equal (fun b : bool => if b then None else source_get part src)).
      apply bool_decide_ext. rewrite elem_of_cons. split; [tauto|].
      intros [[->|H] Hs]; done.
Qed.

(** The [parts] array of the source lists the selected categories in the
    fixed order. *)
Lemma parts_for_selected (flags : Z) :
  parts_for flags = fst <$> filter (fun c => selected flags c.2 = true) categories.
Proof.
  unfold parts_for, categories, selected.
  destruct (has_flag flags PACKAGE_MODE_NORMAL); [done|].
  rewrite !filter_cons, filter_nil. cbn [snd orb].
  destruct (has_flag flags PACKAGE_MODE_OTHER),
    (has_flag flags PACKAGE_MODE_MODELS),
    (has_flag flags PACKAGE_MODE_CONTROLLERS),
    (has_flag flags PACKAGE_MODE_VIEWS); reflexivity.
Qed.

Lemma parts_for_NoDup (flags : Z) : NoDup (parts_for flags).
Proof.
  unfold parts_for.
  destruct (has_flag flags PACKAGE_MODE_NORMAL),
    (has_flag flags PACKAGE_MODE_OTHER),
    (has_flag flags PACKAGE_MODE_MODELS),
    (has_flag flags PACKAGE_MODE_CONTROLLERS),
    (has_flag flags PACKAGE_MODE_VIEWS); simpl;
    apply (bool_decide_unpack _); by vm_compute.
Qed.

(** The evaluator computes the code of the specification. *)
Lemma accumulate_spec_code (flags : Z) (src : list (string * string)) :
  (accumulate (parts_for flags) "" src).1 = spec_code flags src.
Proof.
  rewrite accumulate_code by apply parts_for_NoDup.
  unfold spec_code. rewrite <- parts_for_selected.
  by destruct (omap (code_of src) (parts_for flags)).
Qed.

(** ** Evaluation *)

(** The run of [_sc_evaluateJavaScriptForPackage] up to the execution sink:
    the selected parts are deleted from the source, and the code of the
    specification is executed; the notification follows. *)
Lemma evaluate_run (didExecute : string -> M unit) (packageName : string)
    (p : Package.t) (src : list (string * string)) (w : World) :
  manifest w !! packageName = Some p ->
  Package.isExecuted p = false ->
  Package.source p = Some src ->
  nonempty (spec_code PACKAGE_MODE src) = true ->
  ∃ tr, only_logs tr ∧
    _sc_evaluateJavaScriptForPackage_with didExecute packageName w =
    (execute_code packageName (spec_code PACKAGE_MODE src) ;; didExecute packageName)
      (mkWorld
         (<[packageName :=
              Package.set_source
                (Some (accumulate (parts_for PACKAGE_MODE) "" src).2) p]> (manifest w))
         (trace w ++ tr)).
Proof.
  intros Hp Hex Hsrc Hcode. unfold _sc_evaluateJavaScriptForPackage_with.
  mrun. rewrite Hp. mrun. rewrite Hex, Hsrc.
  pose proof (accumulate_spec_code PACKAGE_MODE src) as Hacc.
  destruct (accumulate (parts_for PACKAGE_MODE) "" src) as [code src'].
  cbn [fst snd] in *. subst code. mrun. rewrite Hcode.
  rewrite (alter_lookup_insert _ _ p) by done.
  eexists; split; [|reflexivity]. auto with loader.
Qed.

(** The run of the execution sink inside its [try]/[catch]. *)
Lemma execute_code_run (packageName code : string) (w : World) :
  ∃ tr, only_logs tr ∧
    execute_code packageName code w =
    (Ok tt,
     mkWorld
       (match evalThrows code with
        | Some _ =>
            alter (fun p => Package.set_didFailToEvaluate true
                              (Package.set_isExecuted false p))
              packageName (manifest w)
        | None => manifest w
        end)
       (trace w ++ ExecScript code :: tr)).
Proof.
  unfold execute_code. mrun. destruct (evalThrows code) as [err|]; mrun.
  - rewrite alter_alter_eq, <- !app_assoc. simpl.
    eexists; split; [|reflexivity].
    constructor; [done | apply only_logs_info].
  - exists []. split; [constructor|]. done.
Qed.

(** ** Notification of the dependents of a package that failed *)

Lemma indexOf_Some (x : string) (l : list string) (pos : nat) :
  indexOf x l = Some pos -> l !! pos = Some x.
Proof.
  revert pos. induction l as [|y l IH]; intros pos; simpl; [done|].
  case_decide as Hy; [by intros [= <-]; subst y|].
  destruct (indexOf x l) as [n|]; simpl; [|done].
  intros [= <-]. by apply IH.
Qed.

Lemma indexOf_None (x : string) (l : list string) :
  indexOf x l = None ↔ x ∉ l.
Proof.
  induction l as [|y l IH]; simpl.
  - split; [intros _; apply not_elem_of_nil | done].
  - rewrite not_elem_of_cons. case_decide as Hy.
    + subst y. split; [done | by intros [? _]].
    + destruct (indexOf x l) as [n|] eqn:Hn; simpl.
      * split; [done|]. intros [_ Hx]. by apply IH in Hx.
      * split; [|done]. intros _. split; [done | by apply IH].
Qed.

Lemma more_poison_refl (p : Package.t) : more_poison p p.
Proof. unfold more_poison. auto. Qed.

Lemma more_poison_trans (p1 p2 p3 : Package.t) :
  more_poison p1 p2 -> more_poison p2 p3 -> more_poison p1 p3.
Proof.
  intros (H1 & H2 & H3 & H4) (H1' & H2' & H3' & H4').
  repeat split; [congruence | auto | auto | auto].
Qed.

Lemma more_poison_poison (name : string) (p : Package.t) :
  more_poison p (poison name p).
Proof.
  unfold more_poison. split; [reflexivity|]. split; [done|]. split.
  - intros x Hx. unfold failed_list, poison. simpl. apply elem_of_app. by left.
  - intros _. simpl. by eexists.
Qed.

Lemma poisoned_by_poison (name : string) (p : Package.t) :
  poisoned_by name (poison name p).
Proof.
  split; [done|]. eexists; split; [reflexivity|].
  apply elem_of_app. right. by apply list_elem_of_singleton.
Qed.

Lemma more_poison_poisoned_by (name : string) (p p' : Package.t) :
  more_poison p p' -> poisoned_by name p -> poisoned_by name p'.
Proof.
  intros (_ & H2 & H3 & H4) (Hd & l & Hl & Hin). split; [auto|].
  destruct H4 as [l' Hl']; [by rewrite Hl|]. exists l'. split; [done|].
  specialize (H3 name). unfold failed_list in H3. rewrite Hl, Hl' in H3. auto.
Qed.

Lemma more_poison_waiting_on (name : string) (p p' : Package.t) :
  more_poison p p' -> waiting_on name p' = waiting_on name p.
Proof.
  intros (H1 & _). unfold waiting_on.
  apply (f_equal Package.isReady) in H1 as Hr.
  apply (f_equal Package.dependencies) in H1 as Hd.
  simpl in Hr, Hd. by rewrite Hr, Hd.
Qed.

Lemma manifest_rel_refl (R : Package.t -> Package.t -> Prop)
    (m : gmap string Package.t) :
  (∀ p, R p p) -> manifest_rel R m m.
Proof. intros HR x. by destruct (m !! x). Qed.

Lemma manifest_rel_trans (R : Package.t -> Package.t -> Prop)
    (m1 m2 m3 : gmap string Package.t) :
  (∀ p1 p2 p3, R p1 p2 -> R p2 p3 -> R p1 p3) ->
  manifest_rel R m1 m2 -> manifest_rel R m2 m3 -> manifest_rel R m1 m3.
Proof.
  intros HR H12 H23 x. specialize (H12 x). specialize (H23 x).
  destruct (m1 !! x), (m2 !! x), (m3 !! x); try done. by eapply HR.
Qed.

Lemma manifest_rel_insert (R : Package.t -> Package.t -> Prop)
    (m : gmap string Package.t) (x : string) (p p' : Package.t) :
  (∀ p, R p p) -> m !! x = Some p -> R p p' ->
  manifest_rel R m (<[x := p']> m).
Proof.
  intros HR Hp Hpp' y. rewrite lookup_insert. case_decide.
  - subst y. by rewrite Hp.
  - by destruct (m !! y).
Qed.

(** What the loop body does for a dependent when the package failed: the
    dependent is poisoned if it was waiting on the package, and left alone
    otherwise; nothing is removed from its dependencies. *)
Lemma notify_failed_run (loadPackage : string -> M bool)
    (packageName name : string) (q : Package.t) (w : World) :
  manifest w !! name = Some q ->
  ∃ tr, only_logs tr ∧
    notify_dependent loadPackage packageName true name w =
    (Ok tt,
     mkWorld
       (if waiting_on packageName q
        then <[name := poison packageName q]> (manifest w) else manifest w)
       (trace w ++ tr)).
Proof.
  intros Hq. unfold notify_dependent, waiting_on. mrun. rewrite Hq.
  destruct (Package.dependencies q) as [l|]; mrun.
  2:{ rewrite andb_false_r. eexists; split; [|reflexivity]. auto with loader. }
  destruct (Package.isReady q); mrun; cbn [negb andb].
  { eexists; split; [|reflexivity]. auto with loader. }
  destruct (indexOf packageName l) as [pos|] eqn:Hpos; mrun.
  - rewrite bool_decide_eq_true_2.
    2:{ apply indexOf_Some in Hpos. by eapply list_elem_of_lookup_2. }
    rewrite (alter_lookup_insert _ _ q) by done.
    exists []. rewrite app_nil_r. split; [constructor | done].
  - rewrite bool_decide_eq_false_2 by by apply indexOf_None.
    eexists; split; [|reflexivity]. auto with loader.
Qed.

(** The loop over the dependents of a package that failed. *)
Lemma poison_loop (loadPackage : string -> M bool) (packageName : string)
    (ds : list string) (w : World) :
  let r := for_each ds (notify_dependent loadPackage packageName true) w in
  manifest_rel more_poison (manifest w) (manifest r.2) ∧
  (∃ tr, only_logs tr ∧ trace r.2 = trace w ++ tr) ∧
  (Forall (fun d => is_Some (manifest w !! d)) ds -> r.1 = Ok tt) ∧
  (r.1 = Ok tt ->
   ∀ d q, d ∈ ds -> manifest w !! d = Some q ->
     waiting_on packageName q = true ->
     ∃ q', manifest r.2 !! d = Some q' ∧ poisoned_by packageName q').
Proof.
  revert w. induction ds as [|d0 ds IH]; intros w; cbn [for_each].
  { rewrite ret_run. cbn [fst snd]. split; [|split; [|split]].
    - apply manifest_rel_refl, more_poison_refl.
    - exists []. split; [constructor | by rewrite app_nil_r].
    - done.
    - intros _ d q Hd. by apply elem_of_nil in Hd. }
  destruct (manifest w !! d0) as [q0|] eqn:Hq0.
  2:{ assert (Hthrow : ∃ err, notify_dependent loadPackage packageName true d0 w
                              = (Throw err, w)).
      { unfold notify_dependent. mrun. rewrite Hq0. mrun. by eexists. }
      destruct Hthrow as [err Hthrow]. unfold bind. rewrite Hthrow. cbn [fst snd].
      split; [|split; [|split]].
      - apply manifest_rel_refl, more_poison_refl.
      - exists []. split; [constructor | by rewrite app_nil_r].
      - intros [[? H] _]%Forall_cons. by rewrite Hq0 in H.
      - done. }
  destruct (notify_failed_run loadPackage packageName d0 q0 w Hq0) as (tr0 & Htr0 & Hrun).
  erewrite bind_run by exact Hrun.
  set (w1 := mkWorld _ _) in *.
  assert (Hrel1 : manifest_rel more_poison (manifest w) (manifest w1)).
  { subst w1. cbn [manifest]. destruct (waiting_on packageName q0).
    - apply (manifest_rel_insert _ _ _ q0);
        [apply more_poison_refl | done | apply more_poison_poison].
    - apply manifest_rel_refl, more_poison_refl. }
  specialize (IH w1). cbv zeta in IH. cbv zeta.
  destruct (for_each ds (notify_dependent loadPackage packageName true) w1)
    as [r' w'] eqn:Hloop. cbn [fst snd] in *.
  destruct IH as (Hrel & (tr & Htr & Htrace) & Hok & Hpoison).
  split; [|split; [|split]].
  - eapply manifest_rel_trans; [apply more_poison_trans | exact Hrel1 | exact Hrel].
  - exists (tr0 ++ tr). split; [by apply only_logs_app|].
    rewrite Htrace. subst w1. cbn [trace]. by rewrite app_assoc.
  - intros [_ Hall]%Forall_cons. apply Hok.
    eapply Forall_impl; [exact Hall|]. intros d Hd. cbn beta in *.
    specialize (Hrel1 d).
    destruct (manifest w !! d), (manifest w1 !! d); try done; by destruct Hd.
  - intros Hr d q Hd Hq Hwait.
    destruct (decide (d ∈ ds)) as [Hin|Hnin].
    + specialize (Hrel1 d) as Hd1. rewrite Hq in Hd1.
      destruct (manifest w1 !! d) as [q1|] eqn:Hq1; [|done].
      apply (Hpoison Hr d q1 Hin Hq1).
      by rewrite (more_poison_waiting_on _ _ _ Hd1).
    + apply elem_of_cons in Hd as [->|Hd]; [|done].
      assert (q = q0) as -> by congruence.
      assert (Hw1 : manifest w1 !! d0 = Some (poison packageName q0)).
      { subst w1. cbn [manifest]. rewrite Hwait. apply lookup_insert_eq. }
      specialize (Hrel d0). rewrite Hw1 in Hrel.
      destruct (manifest w' !! d0) as [q'|]; [|done].
      exists q'. split; [done|].
      eapply more_poison_poisoned_by; [exact Hrel | apply poisoned_by_poison].
Qed.

(** ** The notification [_sc_packageDidExecute] *)

(** The run of [_sc_packageDidExecute] up to its loop: the package is marked
    executed unless it failed to evaluate, its callbacks are called and its
    queue is deleted; the loop over its dependents follows. *)
Lemma didExecute_run (loadPackage : string -> M bool) (packageName : string)
    (p : Package.t) (w : World) :
  manifest w !! packageName = Some p ->
  ∃ tr, invoked tr = default [] (Package.callbacks p) ∧ executed_codes tr = [] ∧
    _sc_packageDidExecute_with loadPackage packageName w =
    match Package.dependents p with
    | None | Some [] => ret tt
    | Some ds =>
        for_each ds
          (notify_dependent loadPackage packageName (Package.didFailToEvaluate p))
    end
      (mkWorld
         (<[packageName :=
              Package.set_callbacks None
                (if Package.didFailToEvaluate p then p
                 else Package.set_isExecuted true p)]> (manifest w))
         (trace w ++ tr)).
Proof.
  intros Hp. unfold _sc_packageDidExecute_with. mrun. rewrite Hp. mrun.
  exists ((if log then [LogInfo (fmt "SC.Package._sc_packageDidExecute() for package '%@'"
                                  [packageName])] else []) ++
          flat_map (callback_events packageName) (default [] (Package.callbacks p))).
  split; [|split].
  { rewrite invoked_app, invoked_callback_events.
    by rewrite only_logs_invoked by apply only_logs_info. }
  { rewrite executed_codes_app, executed_codes_callback_events.
    by rewrite only_logs_executed_codes by apply only_logs_info. }
  destruct (Package.didFailToEvaluate p) eqn:Hfail; cbn [negb]; mrun.
  - erewrite bind_run by (apply invokeCallbacks_run; exact Hp).
    mrun. rewrite lookup_insert_eq. cbn [mbind option_bind Package.dependents
      Package.set_callbacks]. by rewrite app_assoc.
  - erewrite bind_run.
    2:{ apply invokeCallbacks_run. cbn [manifest]. rewrite lookup_alter_eq, Hp.
        reflexivity. }
    mrun. rewrite lookup_insert_eq. cbn [mbind option_bind Package.dependents
      Package.set_callbacks Package.set_isExecuted Package.callbacks].
    rewrite (alter_lookup_insert _ _ p), insert_insert_eq by done.
    by rewrite app_assoc.
Qed.

(** A hash rewritten without touching its dependency list and its ready flag
    waits on the same packages. *)
Lemma waiting_on_lookup_insert (packageName name x : string) (p p1 q : Package.t)
    (m : gmap string Package.t) :
  m !! name = Some p -> m !! x = Some q ->
  Package.dependencies p1 = Package.dependencies p ->
  Package.isReady p1 = Package.isReady p ->
  ∃ q1, <[name := p1]> m !! x = Some q1 ∧
        waiting_on packageName q1 = waiting_on packageName q.
Proof.
  intros Hp Hq Hd Hr. rewrite lookup_insert. case_decide as Hx.
  - subst x. assert (q = p) as -> by congruence.
    exists p1. split; [done|]. unfold waiting_on. by rewrite Hd, Hr.
  - by exists q.
Qed.

(** The outcome of an evaluation whose code throws. *)
Lemma evaluate_failed_outcome (loadPackage : string -> M bool)
    (packageName : string) (p : Package.t) (src : list (string * string))
    (err : string) (w : World) :
  manifest w !! packageName = Some p ->
  Package.isExecuted p = false ->
  Package.source p = Some src ->
  nonempty (spec_code PACKAGE_MODE src) = true ->
  evalThrows (spec_code PACKAGE_MODE src) = Some err ->
  let r := _sc_evaluateJavaScriptForPackage_with
             (_sc_packageDidExecute_with loadPackage) packageName w in
  let p1 := Package.set_callbacks None
              (Package.set_didFailToEvaluate true
                 (Package.set_isExecuted false
                    (Package.set_source
                       (Some (accumulate (parts_for PACKAGE_MODE) "" src).2) p))) in
  manifest_rel more_poison (<[packageName := p1]> (manifest w)) (manifest r.2) ∧
  executed_codes (trace r.2) =
    executed_codes (trace w) ++ [spec_code PACKAGE_MODE src] ∧
  invoked (trace r.2) = invoked (trace w) ++ default [] (Package.callbacks p) ∧
  (Forall (fun d => is_Some (manifest w !! d)) (dependents_list p) -> r.1 = Ok tt) ∧
  (r.1 = Ok tt ->
   ∀ d q, d ∈ dependents_list p -> manifest w !! d = Some q ->
     waiting_on packageName q = true ->
     ∃ q', manifest r.2 !! d = Some q' ∧ poisoned_by packageName q').
Proof.
  intros Hp Hex Hsrc Hcode Herr r p1.
  destruct (evaluate_run (_sc_packageDidExecute_with loadPackage) _ _ _ _
              Hp Hex Hsrc Hcode) as (tr0 & Htr0 & Hrun0).
  subst r. rewrite Hrun0. clear Hrun0.
  set (w0 := mkWorld _ _).
  destruct (execute_code_run packageName (spec_code PACKAGE_MODE src) w0)
    as (tr1 & Htr1 & Hrun1).
  rewrite Herr in Hrun1. erewrite bind_run by exact Hrun1. clear Hrun1.
  subst w0. cbn [manifest trace]. rewrite alter_insert_eq.
  set (p0 := Package.set_didFailToEvaluate true _).
  set (w1 := mkWorld _ _).
  destruct (didExecute_run loadPackage packageName p0 w1) as (tr2 & Hinv2 & Hex2 & Hrun2).
  { subst w1. cbn [manifest]. apply lookup_insert_eq. }
  rewrite Hrun2. clear Hrun2. subst w1. cbn [manifest trace].
  rewrite insert_insert_eq.
  change (Package.didFailToEvaluate p0) with true. cbv match.
  change (Package.set_callbacks None p0) with p1.
  change (Package.dependents p0) with (Package.dependents p).
  change (Package.callbacks p0) with (Package.callbacks p) in Hinv2.
  set (w2 := mkWorld _ _).
  assert (Hcodes : executed_codes (trace w2) =
                   executed_codes (trace w) ++ [spec_code PACKAGE_MODE src]).
  { subst w2. cbn [trace]. rewrite !executed_codes_app, executed_codes_exec.
    rewrite Hex2, (only_logs_executed_codes tr0), (only_logs_executed_codes tr1) by done.
    by rewrite !app_nil_r. }
  assert (Hinvoked : invoked (trace w2) =
                     invoked (trace w) ++ default [] (Package.callbacks p)).
  { subst w2. cbn [trace]. rewrite !invoked_app, invoked_exec.
    rewrite Hinv2, (only_logs_invoked tr0), (only_logs_invoked tr1) by done.
    by rewrite !app_nil_r. }
  assert (Hloop : ∀ ds, dependents_list p = ds ->
    let r := for_each ds (notify_dependent loadPackage packageName true) w2 in
    manifest_rel more_poison (<[packageName:=p1]> (manifest w)) (manifest r.2) ∧
    executed_codes (trace r.2) =
      executed_codes (trace w) ++ [spec_code PACKAGE_MODE src] ∧
    invoked (trace r.2) = invoked (trace w) ++ default [] (Package.callbacks p) ∧
    (Forall (fun d => is_Some (manifest w !! d)) (dependents_list p) -> r.1 = Ok tt) ∧
    (r.1 = Ok tt ->
     ∀ d q, d ∈ dependents_list p -> manifest w !! d = Some q ->
       waiting_on packageName q = true ->
       ∃ q', manifest r.2 !! d = Some q' ∧ poisoned_by packageName q')).
  { intros ds Hds r.
    destruct (poison_loop loadPackage packageName ds w2)
      as (Hrel & (tr & Htr & Htrace) & Hok & Hpoison).
    fold r in Hrel, Htrace, Hok, Hpoison. rewrite Hds.
    split; [exact Hrel|]. split; [|split; [|split]].
    - rewrite Htrace, executed_codes_app, Hcodes.
      by rewrite (only_logs_executed_codes tr), app_nil_r.
    - rewrite Htrace, invoked_app, Hinvoked.
      by rewrite (only_logs_invoked tr), app_nil_r.
    - intros Hall. apply Hok. eapply Forall_impl; [exact Hall|].
      intros d Hd. cbn beta in *. subst w2. cbn [manifest].
      rewrite lookup_insert. case_decide; [done | exact Hd].
    - intros Hr d q Hd Hq Hwait.
      destruct (waiting_on_lookup_insert packageName packageName d p p1 q
                  (manifest w) Hp Hq eq_refl eq_refl) as (q1 & Hq1 & Hw1).
      apply (Hpoison Hr d q1 Hd Hq1). by rewrite Hw1. }
  unfold dependents_list in Hloop at 1.
  destruct (Package.dependents p) as [[|d ds]|] eqn:Hds.
  - specialize (Hloop [] eq_refl). exact Hloop.
  - specialize (Hloop (d :: ds) eq_refl). exact Hloop.
  - specialize (Hloop [] eq_refl). exact Hloop.
Qed.

(** C4.  For a package that is not yet executed and has source, the code
    string handed to the execution sink by
    [_sc_evaluateJavaScriptForPackage] is the code of the selected categories
    joined by [';'] in the fixed order OTHER, MODELS, CONTROLLERS, VIEWS, and
    the notification follows.  With the NORMAL bit in the mode mask and code in
    all four categories it is [other;models;controllers;views], wherever the
    categories stand in the source mapping; and for every mask that selects
    OTHER, the code of OTHER comes first. *)
Theorem evaluate_hands_over_fixed_order (didExecute : string -> M unit)
    (packageName : string) (p : Package.t) (src : list (string * string))
    (w : World) :
  manifest w !! packageName = Some p ->
  Package.isExecuted p = false ->
  Package.source p = Some src ->
  (nonempty (spec_code PACKAGE_MODE src) = true ->
   ∃ w1, _sc_evaluateJavaScriptForPackage_with didExecute packageName w =
           didExecute packageName w1 ∧
         executed_codes (trace w1) =
           executed_codes (trace w) ++ [spec_code PACKAGE_MODE src]) ∧
  (∀ o m c v,
     has_flag PACKAGE_MODE PACKAGE_MODE_NORMAL = true ->
     source_get "other" src = Some o -> nonempty o = true ->
     source_get "models" src = Some m -> nonempty m = true ->
     source_get "controllers" src = Some c -> nonempty c = true ->
     source_get "views" src = Some v -> nonempty v = true ->
     spec_code PACKAGE_MODE src = o +:+ ";" +:+ m +:+ ";" +:+ c +:+ ";" +:+ v) ∧
  (∀ o,
     selected PACKAGE_MODE PACKAGE_MODE_OTHER = true ->
     source_get "other" src = Some o -> nonempty o = true ->
     ∃ rest, spec_code PACKAGE_MODE src = o +:+ rest).
Proof.
  intros Hp Hex Hsrc. split; [|split].
  - intros Hcode.
    destruct (evaluate_run didExecute _ _ _ _ Hp Hex Hsrc Hcode) as (tr0 & Htr0 & ->).
    set (w0 := mkWorld _ _).
    destruct (execute_code_run packageName (spec_code PACKAGE_MODE src) w0)
      as (tr1 & Htr1 & Hrun).
    erewrite bind_run by exact Hrun. eexists; split; [reflexivity|].
    subst w0. cbn [trace]. rewrite !executed_codes_app, executed_codes_exec.
    by rewrite (only_logs_executed_codes tr0), (only_logs_executed_codes tr1),
      app_nil_r.
  - intros o m c v HN Ho Hno Hm Hnm Hc Hnc Hv Hnv.
    unfold spec_code, categories. rewrite !filter_cons, filter_nil.
    unfold selected. rewrite HN. cbn [orb]. rewrite !decide_True by done.
    rewrite !fmap_cons, fmap_nil. cbn [fst]. rewrite !omap_cons_eq.
    unfold code_of. by rewrite Ho, Hno, Hm, Hnm, Hc, Hnc, Hv, Hnv.
  - intros o Hsel Ho Hno. unfold spec_code, categories.
    rewrite filter_cons. cbn [snd]. rewrite decide_True by done.
    rewrite fmap_cons. cbn [fst]. rewrite omap_cons_eq.
    unfold code_of at 1. rewrite Ho, Hno.
    match goal with |- context [omap ?f ?l] => destruct (omap f l) as [|t ts] end.
    + exists "". cbn [join_code]. by rewrite append_empty_r.
    + eexists. cbn [join_code]. reflexivity.
Qed.

(** C5.  When the accumulated code throws, the error does not leave
    [_sc_evaluateJavaScriptForPackage]: the hash gets [didFailToEvaluate] and
    keeps [isExecuted] false, and [_sc_packageDidExecute] is invoked all the
    same, on that state.  After the notification the two flags are as they
    were set, the queued callbacks have been called, the evaluation has
    returned normally when every registered dependent is a package of the
    manifest, and the dependents that were waiting are poisoned. *)
Theorem evaluation_error_is_caught (loadPackage : string -> M bool)
    (packageName : string) (p : Package.t) (src : list (string * string))
    (err : string) (w : World) :
  manifest w !! packageName = Some p ->
  Package.isExecuted p = false ->
  Package.source p = Some src ->
  nonempty (spec_code PACKAGE_MODE src) = true ->
  evalThrows (spec_code PACKAGE_MODE src) = Some err ->
  (∀ didExecute : string -> M unit,
     ∃ w1 p1,
       _sc_evaluateJavaScriptForPackage_with didExecute packageName w =
         didExecute packageName w1 ∧
       manifest w1 !! packageName = Some p1 ∧
       Package.didFailToEvaluate p1 = true ∧ Package.isExecuted p1 = false) ∧
  let r := _sc_evaluateJavaScriptForPackage_with
             (_sc_packageDidExecute_with loadPackage) packageName w in
  (∃ p', manifest r.2 !! packageName = Some p' ∧
         Package.didFailToEvaluate p' = true ∧ Package.isExecuted p' = false ∧
         Package.callbacks p' = None) ∧
  invoked (trace r.2) = invoked (trace w) ++ default [] (Package.callbacks p) ∧
  (Forall (fun d => is_Some (manifest w !! d)) (dependents_list p) -> r.1 = Ok tt) ∧
  (r.1 = Ok tt ->
   ∀ d q, d ∈ dependents_list p -> manifest w !! d = Some q ->
     waiting_on packageName q = true ->
     ∃ q', manifest r.2 !! d = Some q' ∧ poisoned_by packageName q').
Proof.
  intros Hp Hex Hsrc Hcode Herr. split.
  - intros didExecute.
    destruct (evaluate_run didExecute _ _ _ _ Hp Hex Hsrc Hcode) as (tr0 & Htr0 & ->).
    set (w0 := mkWorld _ _).
    destruct (execute_code_run packageName (spec_code PACKAGE_MODE src) w0)
      as (tr1 & Htr1 & Hrun).
    rewrite Herr in Hrun. erewrite bind_run by exact Hrun.
    eexists _, _. split; [reflexivity|]. subst w0. cbn [manifest].
    rewrite alter_insert_eq, lookup_insert_eq. done.
  - intros r.
    destruct (evaluate_failed_outcome loadPackage _ _ _ _ w Hp Hex Hsrc Hcode Herr)
      as (Hrel & _ & Hinv & Hok & Hpoison).
    fold r in Hrel, Hinv, Hok, Hpoison.
    split; [|split; [exact Hinv | split; [exact Hok | exact Hpoison]]].
    specialize (Hrel packageName). rewrite lookup_insert_eq in Hrel.
    destruct (manifest r.2 !! packageName) as [p'|]; [|done].
    exists p'. split; [done|]. destruct Hrel as (Heq & _).
    apply (f_equal Package.didFailToEvaluate) in Heq as H1.
    apply (f_equal Package.isExecuted) in Heq as H2.
    apply (f_equal Package.callbacks) in Heq as H3.
    simpl in H1, H2, H3. done.
Qed.

(** When no selected part has code, the accumulation does nothing. *)
Lemma accumulate_nothing (parts : list string) (code : string)
    (src : list (string * string)) :
  (∀ part, part ∈ parts -> code_of src part = None) ->
  accumulate parts code src = (code, src).
Proof.
  induction parts as [|x parts IH]; intros Hnone; [done|]. cbn [accumulate].
  pose proof (Hnone x (list_elem_of_here _ _)) as Hx. unfold code_of in Hx.
  assert (Hrest : ∀ part, part ∈ parts -> code_of src part = None).
  { intros part Hin. apply Hnone, elem_of_cons. by right. }
  destruct (source_get x src) as [text|]; [|by apply IH].
  destruct (nonempty text); [done | by apply IH].
Qed.

(** After the accumulation no selected part has code left. *)
Lemma accumulate_consumes (parts : list string) (code : string)
    (src : list (string * string)) (part : string) :
  part ∈ parts -> code_of (accumulate parts code src).2 part = None.
Proof.
  intros Hin. unfold code_of at 1. rewrite accumulate_source.
  case_bool_decide as Hc; [done|].
  destruct (code_of src part) eqn:Hcode.
  - exfalso. apply Hc. split; [done | by eexists].
  - exact Hcode.
Qed.

(** A second evaluation of a package whose selected parts are consumed. *)
Lemma evaluate_consumed (didExecute : string -> M unit) (packageName : string)
    (p : Package.t) (src : list (string * string)) (w : World) :
  manifest w !! packageName = Some p ->
  Package.isExecuted p = false ->
  Package.source p = Some src ->
  (∀ part, part ∈ parts_for PACKAGE_MODE -> code_of src part = None) ->
  ∃ tr, only_logs tr ∧
    _sc_evaluateJavaScriptForPackage_with didExecute packageName w =
    (Ok tt, mkWorld (manifest w) (trace w ++ tr)).
Proof.
  intros Hp Hex Hsrc Hnone. unfold _sc_evaluateJavaScriptForPackage_with.
  mrun. rewrite Hp. mrun. rewrite Hex, Hsrc.
  rewrite (accumulate_nothing _ _ _ Hnone). mrun. cbn [nonempty]. mrun.
  rewrite alter_alter_eq, <- app_assoc.
  rewrite (alter_lookup_insert _ _ p) by done.
  rewrite insert_id.
  2:{ rewrite Hp. f_equal. destruct p. simpl in *. by subst. }
  eexists; split; [|reflexivity]. auto with loader.
Qed.


(** ** [loadPackage] *)

(** The run of [loadPackage] with a callback on an executed package that
    carries no failure mark; and the guard of the evaluation. *)
Lemma loadPackage_executed_run (fuel : nat)
    (packageName : string) (p : Package.t) (target method : value)
    (args : list value) (w : World) :
  manifest w !! packageName = Some p ->
  Package.isLoaded p = true ->
  Package.isReady p = true ->
  Package.isExecuted p = true ->
  Package.doNotExecute p = false ->
  Package.failedDependencies p = None ->
  Package.didFailToEvaluate p = false ->
  is_function (callback_shape target method args).1.2 = true ->
  let shape := callback_shape target method args in
  let cb := mkCallback shape.1.1 shape.1.2 (VString packageName :: shape.2) in
  let r := loadPackage (S fuel) packageName target method args w in
  r.1 = Ok true ∧
  invoked (trace r.2) =
    invoked (trace w) ++ default [] (Package.callbacks p) ++ [cb] ∧
  executed_codes (trace r.2) = executed_codes (trace w) ∧
  manifest r.2 = <[packageName := Package.set_callbacks None p]> (manifest w) ∧
  ∀ didExecute : string -> M unit,
    let r' := _sc_evaluateJavaScriptForPackage_with didExecute packageName w in
    r'.1 = Ok tt ∧ manifest r'.2 = manifest w ∧
    executed_codes (trace r'.2) = executed_codes (trace w).
Proof.
  intros Hp Hloaded Hready Hexecuted Hdne Hfd Hfail Hfun shape cb r.
  split; [|split; [|split; [|split]]].
  5:{ intros didExecute r'. subst r'.
      unfold _sc_evaluateJavaScriptForPackage_with. mrun. rewrite Hp. mrun.
      rewrite Hexecuted. mrun. split; [done|]. split; [done|].
      by drop_logs. }
  all: subst r; cbn [loadPackage]; unfold loadPackage_with; mrun; rewrite Hp;
    unfold isLoaded; mrun; rewrite Hloaded; mrun; rewrite Hready; mrun;
    rewrite Hdne, Hfd, Hfail, Hexecuted; cbn [orb bool_decide]; mrun.
  all: rewrite ?bool_decide_eq_false_2 by (by intros [? ?]); cbn [orb]; mrun.
  all: erewrite bind_run by (apply registerCallback_run; [exact Hp | exact Hfun]).
  all: erewrite bind_run
         by (apply invokeCallbacks_run; cbn [manifest]; apply lookup_insert_eq).
  all: mrun; cbn [Package.callbacks Package.set_callbacks default].
  - done.
  - rewrite !invoked_app, invoked_callback_events. drop_logs. reflexivity.
  - rewrite !executed_codes_app, executed_codes_callback_events. by drop_logs.
  - by rewrite insert_insert_eq.
Qed.

(** ** Every write of the loader is a step of the transition system *)

Lemma steps_refl (m : gmap string Package.t) : steps m m.
Proof. apply rtc_refl. Qed.

Lemma steps_trans (m1 m2 m3 : gmap string Package.t) :
  steps m1 m2 -> steps m2 m3 -> steps m1 m3.
Proof. apply rtc_trans. Qed.

Lemma steps_alter (f : Package.t -> Package.t) (name : string)
    (m : gmap string Package.t) :
  (∀ p, m !! name = Some p -> allowed m p (f p)) -> steps m (alter f name m).
Proof. intros H. apply rtc_once. by exists name, f. Qed.

Lemma steps_insert (name : string) (p p' : Package.t) (m : gmap string Package.t) :
  m !! name = Some p -> allowed m p p' -> steps m (<[name := p']> m).
Proof.
  intros Hp Hal. rewrite <- (alter_lookup_insert (fun _ => p') name p m Hp).
  apply steps_alter. intros q Hq. by assert (q = p) as -> by congruence.
Qed.

(** A write that leaves the deciding fields alone. *)
Lemma allowed_same (m : gmap string Package.t) (p p' : Package.t) :
  Package.isExecuted p' = Package.isExecuted p ->
  Package.didFailToEvaluate p' = Package.didFailToEvaluate p ->
  Package.isReady p' = Package.isReady p ->
  Package.dependencies p' = Package.dependencies p ->
  Package.doNotExecute p' = Package.doNotExecute p ->
  Package.failedDependencies p' = Package.failedDependencies p ->
  Package.dependents p' = Package.dependents p ->
  allowed m p p'.
Proof.
  intros H1 H2 H3 H4 H5 H6 H7. unfold allowed, deps_list, poisoned, dependents_list.
  rewrite H1, H2, H3, H4, H5, H6, H7. repeat split; auto.
Qed.

Lemma step_lookup (m m' : gmap string Package.t) (x : string) :
  step m m' ->
  match m !! x, m' !! x with
  | Some p, Some p' => allowed m p p'
  | None, None => True
  | _, _ => False
  end.
Proof.
  intros (name & f & -> & Hal). rewrite lookup_alter. case_decide as Hx.
  - subst x. destruct (m !! name) as [p|]; simpl; [by apply Hal | done].
  - destruct (m !! x) as [p|]; [|done]. by apply allowed_same.
Qed.

Lemma executed_in_step (m m' : gmap string Package.t) (x : string) :
  step m m' -> executed_in m x = true -> executed_in m' x = true.
Proof.
  intros Hstep. pose proof (step_lookup m m' x Hstep) as H. unfold executed_in.
  destruct (m !! x) as [p|], (m' !! x) as [p'|]; try done.
  destruct H as (H1 & _). exact H1.
Qed.

Lemma executed_in_steps (m m' : gmap string Package.t) (x : string) :
  steps m m' -> executed_in m x = true -> executed_in m' x = true.
Proof. induction 1; eauto using executed_in_step. Qed.

Lemma is_Some_step (m m' : gmap string Package.t) (x : string) :
  step m m' -> is_Some (m !! x) ↔ is_Some (m' !! x).
Proof.
  intros Hstep. pose proof (step_lookup m m' x Hstep) as H.
  destruct (m !! x), (m' !! x); try done; split; intros [? ?]; done.
Qed.

Lemma is_Some_steps (m m' : gmap string Package.t) (x : string) :
  steps m m' -> is_Some (m !! x) ↔ is_Some (m' !! x).
Proof.
  induction 1 as [|m1 m2 m3 Hstep _ IH]; [done|].
  by rewrite (is_Some_step m1 m2 x Hstep).
Qed.

Lemma failed_in_step (m m' : gmap string Package.t) (x : string) :
  step m m' -> failed_in m x = true -> failed_in m' x = true.
Proof.
  intros Hstep. pose proof (step_lookup m m' x Hstep) as H. unfold failed_in.
  destruct (m !! x) as [p|], (m' !! x) as [p'|]; try done.
  destruct H as (_ & H2 & _). exact H2.
Qed.

Lemma failed_in_steps (m m' : gmap string Package.t) (x : string) :
  steps m m' -> failed_in m x = true -> failed_in m' x = true.
Proof. induction 1; eauto using failed_in_step. Qed.

Lemma ready_at_alter (f : Package.t -> Package.t) (name x : string)
    (m : gmap string Package.t) :
  (∀ p, Package.isReady (f p) = Package.isReady p) ->
  ready_at x m -> ready_at x (alter f name m).
Proof.
  intros Hf Hr p'. rewrite lookup_alter. case_decide as Hx.
  - subst x. destruct (m !! name) as [p|] eqn:Hp; simpl; [|done].
    intros [= <-]. rewrite Hf. by apply Hr.
  - apply Hr.
Qed.

Lemma steps_bind {A B} (m : M A) (k : A -> M B) (w : World)
    (m0 : gmap string Package.t) :
  steps m0 (manifest (m w).2) ->
  (∀ a w', m w = (Ok a, w') -> steps m0 (manifest (k a w').2)) ->
  steps m0 (manifest ((x <- m ;; k x) w).2).
Proof.
  intros Hm Hk. unfold bind. destruct (m w) as [[a| |] w'] eqn:Hrun; auto.
Qed.

Lemma steps_then_alter (f : Package.t -> Package.t) (name : string)
    (m0 m : gmap string Package.t) :
  steps m0 m -> (∀ p, m !! name = Some p -> allowed m p (f p)) ->
  steps m0 (alter f name m).
Proof. intros H Hal. eapply steps_trans; [exact H | by apply steps_alter]. Qed.

(** The loop of [_sc_dependenciesMetForPackage] only ever clears [isReady]. *)
Lemma check_loop_steps (packageName : string) (l : list string) (b : bool)
    (w : World) (m0 : gmap string Package.t) :
  (∀ p, manifest w !! packageName = Some p -> deps_list p ≠ []) ->
  steps m0 (manifest w) ->
  steps m0 (manifest (for_fold l b (check_dependency packageName) w).2).
Proof.
  revert b w. induction l as [|x l IH]; intros b w Hdeps Hw; cbn [for_fold].
  - by rewrite ret_run.
  - unfold check_dependency. mrun.
    destruct (manifest w !! x) as [q|]; mrun; [|done].
    destruct (Package.isExecuted q); cbn [negb]; mrun; apply IH; cbn [manifest];
      [done | done | |].
    + intros p'. rewrite lookup_alter_eq.
      destruct (manifest w !! packageName) as [p|] eqn:Hp; simpl; [|done].
      intros [= <-]. exact (Hdeps p eq_refl).
    + apply steps_then_alter; [done|]. intros p Hp.
      unfold allowed, deps_list, poisoned; simpl.
      repeat split; auto; try done. intros _. right. by apply Hdeps.
Qed.

Lemma dependenciesMet_steps (packageName : string) (w : World)
    (m0 : gmap string Package.t) :
  steps m0 (manifest w) ->
  steps m0 (manifest (_sc_dependenciesMetForPackage packageName w).2).
Proof.
  intros Hw. unfold _sc_dependenciesMetForPackage. mrun.
  destruct (manifest w !! packageName) as [p|] eqn:Hp; mrun; [|done].
  assert (Htriv : deps_list p = [] ->
    steps m0 (alter (Package.set_isReady true) packageName (manifest w))).
  { intros Hnil. apply steps_then_alter; [done|]. intros p' Hp'.
    assert (p' = p) as -> by congruence.
    unfold allowed. simpl. unfold deps_list in *. simpl.
    repeat split; auto. }
  destruct (Package.dependencies p) as [[|d l]|] eqn:Hdeps; mrun.
  - apply Htriv. unfold deps_list. by rewrite Hdeps.
  - set (w0 := mkWorld _ _).
    assert (Hne : ∀ p', manifest w0 !! packageName = Some p' -> deps_list p' ≠ []).
    { intros p'. subst w0. cbn [manifest]. rewrite Hp. intros [= <-].
      unfold deps_list. by rewrite Hdeps. }
    apply steps_bind; [by apply check_loop_steps|].
    intros isReady w1 Hloop.
    assert (Hw1 : steps m0 (manifest w1)).
    { pose proof (check_loop_steps packageName (d :: l) true w0 m0 Hne Hw) as H.
      by rewrite Hloop in H. }
    destruct isReady; mrun; [|done].
    pose proof (check_loop_true packageName (d :: l) true w0) as Htrue.
    rewrite Hloop in Htrue. destruct (Htrue eq_refl) as [_ Hall].
    rewrite (check_loop_executed packageName (d :: l) true w0 Hall) in Hloop.
    injection Hloop as <-. subst w0. cbn [manifest] in *.
    rewrite alter_alter_eq. apply steps_then_alter; [done|].
    intros p' Hp'. assert (p' = p) as -> by congruence.
    unfold allowed, deps_list. simpl. repeat split; auto.
    + intros x Hx. right. rewrite Hdeps in Hx. simpl in Hx.
      rewrite forallb_forall in Hall. apply Hall. by apply list_elem_of_In.
    + apply sublist_nil_l.
  - apply Htriv. unfold deps_list. by rewrite Hdeps.
Qed.

(** When it answers true the package is marked ready. *)
Lemma dependenciesMet_ready (packageName : string) (w : World) :
  (_sc_dependenciesMetForPackage packageName w).1 = Ok true ->
  ready_at packageName (manifest (_sc_dependenciesMetForPackage packageName w).2).
Proof.
  intros Htrue. destruct (manifest w !! packageName) as [p|] eqn:Hp.
  - pose proof (dependenciesMet_true_executed _ _ _ Hp Htrue) as Hall.
    destruct (dependenciesMet_run_ready _ _ _ Hp Hall) as (tr & -> & _).
    cbn [snd manifest]. intros p'. rewrite lookup_insert_eq. by intros [= <-].
  - exfalso. revert Htrue. unfold _sc_dependenciesMetForPackage. mrun.
    rewrite Hp. mrun. done.
Qed.

Lemma registerCallback_steps (packageName : string) (target method : value)
    (args : list value) (w : World) (m0 : gmap string Package.t) :
  steps m0 (manifest w) ->
  steps m0 (manifest (registerCallbackForPackage packageName target method args w).2).
Proof.
  intros Hw. unfold registerCallbackForPackage. mrun.
  destruct (manifest w !! packageName) as [p|]; mrun; [|done].
  destruct (SC_none target && SC_none method); mrun; [done|].
  destruct (callback_shape target method args) as [[t' m'] a'].
  destruct (negb (truthy m') || negb (is_function m')); mrun; [done|].
  apply steps_then_alter; [done|]. intros p' _. by apply allowed_same.
Qed.

Lemma invokeCallbacks_steps (packageName : string) (w : World)
    (m0 : gmap string Package.t) :
  steps m0 (manifest w) ->
  steps m0 (manifest (_sc_invokeCallbacksForPackage packageName w).2).
Proof.
  intros Hw. unfold _sc_invokeCallbacksForPackage. mrun.
  destruct (manifest w !! packageName) as [p|]; mrun; [|done].
  erewrite bind_run by apply invoke_loop_run. mrun.
  apply steps_then_alter; [done|]. intros p' _. by apply allowed_same.
Qed.

Lemma loadJavaScript_steps (packageName : string) (w : World)
    (m0 : gmap string Package.t) :
  steps m0 (manifest w) ->
  steps m0 (manifest (loadJavaScript packageName w).2).
Proof.
  intros Hw. unfold loadJavaScript, _sc_urlForPackage. mrun.
  destruct (manifest w !! packageName) as [p|] eqn:Hp; mrun; rewrite Hp; mrun;
    [|done].
  destruct (Package.isLoaded p); mrun; [done|].
  apply steps_then_alter; [done|]. intros p' _. by apply allowed_same.
Qed.

Lemma elem_of_removeAt (x y : string) (pos : nat) (l : list string) :
  l !! pos = Some y -> x ∈ l -> x ∈ removeAt pos l ∨ x = y.
Proof.
  intros Hpos Hx. unfold removeAt.
  rewrite <- (take_drop_middle l pos y Hpos) in Hx.
  rewrite elem_of_app, elem_of_cons in Hx. rewrite elem_of_app. tauto.
Qed.

Lemma removeAt_sublist (pos : nat) (l : list string) :
  removeAt pos l `sublist_of` l.
Proof.
  unfold removeAt. rewrite <- (take_drop pos l) at 3.
  apply sublist_app; [done|].
  replace (S pos) with (pos + 1)%nat by lia.
  rewrite <- drop_drop. apply sublist_drop.
Qed.

(** The body of the loop of [_sc_packageDidExecute]. *)
Lemma notify_steps (loadPackage : string -> M bool) (packageName : string)
    (didFail : bool) (name : string) (w : World) (m0 : gmap string Package.t) :
  reload_sound loadPackage ->
  (if didFail then failed_in (manifest w) packageName = true
   else executed_in (manifest w) packageName = true) ->
  steps m0 (manifest w) ->
  steps m0 (manifest (notify_dependent loadPackage packageName didFail name w).2).
Proof.
  intros Hlp Hmark Hw. unfold notify_dependent. mrun.
  destruct (manifest w !! name) as [q|] eqn:Hq; mrun; [|done].
  destruct (Package.dependencies q) as [l|] eqn:Hdeps; mrun; [|done].
  destruct (Package.isReady q) eqn:Hready; mrun; [done|].
  destruct (indexOf packageName l) as [pos|] eqn:Hpos; mrun; [|done].
  apply indexOf_Some in Hpos as Hl.
  destruct didFail; mrun.
  - apply steps_then_alter; [done|].
    intros q' Hq'. assert (q' = q) as -> by congruence.
    unfold allowed, deps_list. simpl. rewrite Hdeps. simpl.
    repeat split; auto.
    intros _. right. split; [done|]. exists packageName. split; [|done].
    by eapply list_elem_of_lookup_2.
  - set (w1 := mkWorld _ _).
    assert (Hw1 : steps m0 (manifest w1)).
    { subst w1. cbn [manifest]. apply steps_then_alter; [done|].
      intros q' Hq'. assert (q' = q) as -> by congruence.
      unfold allowed, deps_list, poisoned. simpl. rewrite Hdeps. simpl.
      repeat split; auto.
      - intros x Hx.
        destruct (elem_of_removeAt x packageName pos l Hl Hx) as [?| ->]; auto.
      - apply removeAt_sublist. }
    apply steps_bind; [by apply dependenciesMet_steps|].
    intros met w2 Hmet.
    assert (Hw2 : steps m0 (manifest w2)).
    { pose proof (dependenciesMet_steps name w1 m0 Hw1) as H.
      by rewrite Hmet in H. }
    destruct met; mrun; [|done].
    apply steps_bind; [by apply Hlp|].
    intros b w3 Hb. mrun.
    pose proof (Hlp name w2 m0 Hw2) as H. by rewrite Hb in H.
Qed.

Lemma notify_loop_steps (loadPackage : string -> M bool) (packageName : string)
    (didFail : bool) (ds : list string) (w : World) (m0 : gmap string Package.t) :
  reload_sound loadPackage ->
  (if didFail then failed_in (manifest w) packageName = true
   else executed_in (manifest w) packageName = true) ->
  steps m0 (manifest w) ->
  steps m0 (manifest
              (for_each ds (notify_dependent loadPackage packageName didFail) w).2).
Proof.
  intros Hlp. revert w. induction ds as [|d ds IH]; intros w Hmark Hw;
    cbn [for_each].
  - by rewrite ret_run.
  - apply steps_bind; [by apply notify_steps|].
    intros [] w1 Hrun.
    pose proof (notify_steps loadPackage packageName didFail d w m0 Hlp Hmark Hw) as H1.
    pose proof (notify_steps loadPackage packageName didFail d w (manifest w) Hlp Hmark
                  (steps_refl _)) as H2.
    rewrite Hrun in H1, H2. cbn [snd] in H1, H2.
    apply IH; [|done]. destruct didFail.
    + by eapply failed_in_steps.
    + by eapply executed_in_steps.
Qed.

Lemma didExecute_steps (loadPackage : string -> M bool) :
  reload_sound loadPackage ->
  evaluate_sound (_sc_packageDidExecute_with loadPackage).
Proof.
  intros Hlp packageName w m0 Hready Hw.
  destruct (manifest w !! packageName) as [p|] eqn:Hp.
  2:{ unfold _sc_packageDidExecute_with. mrun. rewrite Hp. mrun. done. }
  destruct (didExecute_run loadPackage packageName p w Hp) as (tr & _ & _ & ->).
  set (p1 := Package.set_callbacks None _).
  set (w1 := mkWorld _ _).
  assert (Hw1 : steps m0 (manifest w1)).
  { subst w1. cbn [manifest]. eapply steps_trans; [exact Hw|].
    apply (steps_insert _ p); [done|]. subst p1.
    destruct (Package.didFailToEvaluate p) eqn:Hfail; [by apply allowed_same|].
    unfold allowed, deps_list. simpl.
    repeat split; auto. }
  assert (Hmark : if Package.didFailToEvaluate p
                  then failed_in (manifest w1) packageName = true
                  else executed_in (manifest w1) packageName = true).
  { subst w1 p1. cbn [manifest]. unfold executed_in, failed_in.
    rewrite lookup_insert_eq. by destruct (Package.didFailToEvaluate p) eqn:Hfail. }
  destruct (Package.dependents p) as [[|d ds]|]; try (by rewrite ret_run).
  by apply notify_loop_steps.
Qed.

Lemma evaluate_steps (didExecute : string -> M unit) :
  evaluate_sound didExecute ->
  evaluate_sound (_sc_evaluateJavaScriptForPackage_with didExecute).
Proof.
  intros Hd packageName w m0 Hready Hw.
  unfold _sc_evaluateJavaScriptForPackage_with. mrun.
  destruct (manifest w !! packageName) as [p|] eqn:Hp; mrun; [|done].
  destruct (Package.isExecuted p) eqn:Hex; mrun; [done|].
  destruct (Package.source p) as [src|]; mrun; [|done].
  destruct (accumulate (parts_for PACKAGE_MODE) "" src) as [code src'].
  mrun. set (m1 := alter _ _ _).
  assert (Hm1 : steps m0 m1).
  { apply steps_then_alter; [done|]. intros p' _. by apply allowed_same. }
  assert (Hp1 : ∃ p1, m1 !! packageName = Some p1 ∧ Package.isExecuted p1 = false ∧
                      Package.isReady p1 = true).
  { subst m1. rewrite lookup_alter_eq, Hp. eexists; split; [reflexivity|].
    simpl. split; [done | by apply Hready]. }
  destruct Hp1 as (p1 & Hp1 & Hex1 & Hready1).
  destruct (nonempty code); mrun.
  - set (w1 := mkWorld _ _).
    destruct (execute_code_run packageName code w1) as (tr & _ & Hrun).
    erewrite bind_run by exact Hrun. subst w1. cbn [manifest trace].
    apply Hd; cbn [manifest].
    + destruct (evalThrows code).
      * apply ready_at_alter; [done|]. intros p'. by rewrite Hp1; intros [= <-].
      * intros p'. by rewrite Hp1; intros [= <-].
    + destruct (evalThrows code); [|done].
      apply steps_then_alter; [done|]. intros p'. rewrite Hp1; intros [= <-].
      unfold allowed, deps_list. simpl. rewrite Hex1. repeat split; auto; done.
  - apply steps_then_alter; [done|]. intros p'. rewrite Hp1; intros [= <-].
    unfold allowed, deps_list. simpl. rewrite Hex1. repeat split; auto; done.
Qed.

Lemma loadPackage_with_steps (evaluate : string -> M unit)
    (packageName : string) (target method : value) (args : list value)
    (w : World) (m0 : gmap string Package.t) :
  evaluate_sound evaluate ->
  steps m0 (manifest w) ->
  steps m0 (manifest (loadPackage_with evaluate packageName target method args w).2).
Proof.
  intros Hev Hw. unfold loadPackage_with. mrun.
  destruct (manifest w !! packageName) as [p|] eqn:Hp; mrun; [|done].
  unfold isLoaded. mrun.
  destruct (Package.isLoaded p); mrun.
  - destruct (Package.isReady p) eqn:Hready; mrun; [|done].
    destruct (Package.doNotExecute p
              || bool_decide (is_Some (Package.failedDependencies p))
              || Package.didFailToEvaluate p); mrun; [done|].
    destruct (Package.isExecuted p); mrun.
    + set (w1 := mkWorld _ _).
      pose proof (registerCallback_steps packageName target method args w1 m0 Hw) as H.
      apply steps_bind; [done|].
      intros [] w2 Hrun. mrun. rewrite Hrun in H. cbn [snd] in H.
      apply steps_bind; [by apply invokeCallbacks_steps|].
      intros [] w3 Hrun2. mrun.
      pose proof (invokeCallbacks_steps packageName w2 m0 H) as H2.
      by rewrite Hrun2 in H2.
    + set (w1 := mkWorld _ _).
      assert (Hev1 : steps m0 (manifest (evaluate packageName w1).2)).
      { apply Hev; [|done]. intros p'. subst w1. cbn [manifest].
        by rewrite Hp; intros [= <-]. }
      apply steps_bind; [done|]. intros [] w2 Hrun. mrun. by rewrite Hrun in Hev1.
  - set (w1 := mkWorld _ _).
    apply steps_bind; [by apply registerCallback_steps|].
    intros [] w2 Hrun. mrun.
    pose proof (registerCallback_steps packageName target method args w1 m0 Hw) as H.
    rewrite Hrun in H. cbn [snd] in H.
    apply steps_bind; [by apply loadJavaScript_steps|].
    intros [] w3 Hrun3. mrun.
    pose proof (loadJavaScript_steps packageName w2 m0 H) as H3.
    by rewrite Hrun3 in H3.
Qed.

Lemma loadPackage_steps (fuel : nat) (packageName : string)
    (target method : value) (args : list value) (w : World)
    (m0 : gmap string Package.t) :
  steps m0 (manifest w) ->
  steps m0 (manifest (loadPackage fuel packageName target method args w).2).
Proof.
  revert packageName target method args w m0.
  induction fuel as [|fuel IH]; intros packageName target method args w m0 Hw.
  - done.
  - cbn [loadPackage]. apply loadPackage_with_steps; [|done].
    apply evaluate_steps, didExecute_steps. intros name w' m0' Hw'. by apply IH.
Qed.

Lemma reload_steps (fuel : nat) : reload_sound (reload fuel).
Proof. intros name w m0 Hw. by apply loadPackage_steps. Qed.

Lemma evaluate_fuel_steps (fuel : nat) :
  evaluate_sound (_sc_evaluateJavaScriptForPackage fuel).
Proof. apply evaluate_steps, didExecute_steps, reload_steps. Qed.

(** The body of the loop of [_sc_loadDependenciesForPackage]. *)
Lemma load_dependency_steps (fuel : nat) (packageName name : string) (w : World)
    (m0 : gmap string Package.t) :
  is_Some (manifest w !! packageName) ->
  steps m0 (manifest w) ->
  steps m0 (manifest (load_dependency fuel packageName name w).2).
Proof.
  intros Hin Hw. unfold load_dependency. mrun.
  destruct (manifest w !! name) as [q|] eqn:Hq; mrun; [|done].
  set (w2 := mkWorld _ _).
  assert (Hw2 : steps m0 (manifest w2)).
  { subst w2. cbn [manifest]. apply steps_then_alter; [done|].
    intros q' Hq'. assert (q' = q) as -> by congruence.
    unfold allowed, deps_list, poisoned, dependents_list. simpl.
    repeat split; auto.
    intros x [Hx|Hx]%elem_of_app; [by left | right].
    apply list_elem_of_singleton in Hx. by subst x. }
  apply steps_bind; [by apply reload_steps|].
  intros b w3 Hrun. mrun.
  pose proof (reload_steps fuel name w2 m0 Hw2) as H. by rewrite Hrun in H.
Qed.

Lemma load_dependencies_loop_steps (fuel : nat) (packageName : string)
    (l : list string) (w : World) (m0 : gmap string Package.t) :
  is_Some (manifest w !! packageName) ->
  steps m0 (manifest w) ->
  steps m0 (manifest (for_each l (load_dependency fuel packageName) w).2).
Proof.
  revert w. induction l as [|d l IH]; intros w Hin Hw; cbn [for_each];
    [by rewrite ret_run|].
  apply steps_bind; [by apply load_dependency_steps|].
  intros [] w2 Hrun.
  pose proof (load_dependency_steps fuel packageName d w m0 Hin Hw) as H1.
  pose proof (load_dependency_steps fuel packageName d w (manifest w) Hin
                (steps_refl _)) as H2.
  rewrite Hrun in H1, H2. cbn [snd] in H1, H2.
  apply IH; [|done]. by apply (is_Some_steps _ _ _ H2).
Qed.

Lemma loadDependencies_steps (fuel : nat) (packageName : string) (w : World)
    (m0 : gmap string Package.t) :
  steps m0 (manifest w) ->
  steps m0 (manifest (_sc_loadDependenciesForPackage fuel packageName w).2).
Proof.
  intros Hw. unfold _sc_loadDependenciesForPackage. mrun.
  destruct (manifest w !! packageName) as [p|] eqn:Hp; mrun; [|done].
  destruct (Package.dependencies p) as [[|d l]|]; mrun; try done.
  apply load_dependencies_loop_steps; [|done]. cbn [manifest]. by rewrite Hp.
Qed.

Lemma packageDidLoad_steps (fuel : nat) (packageName : string) (w : World)
    (m0 : gmap string Package.t) :
  steps m0 (manifest w) ->
  steps m0 (manifest (_sc_packageDidLoad fuel packageName w).2).
Proof.
  intros Hw. unfold _sc_packageDidLoad. mrun.
  destruct (manifest w !! packageName) as [p|] eqn:Hp; mrun; [|done].
  set (w1 := mkWorld _ _).
  assert (Hw1 : steps m0 (manifest w1)).
  { subst w1. cbn [manifest]. rewrite alter_alter_eq.
    apply steps_then_alter; [done|]. intros p' _. by apply allowed_same. }
  apply steps_bind; [by apply dependenciesMet_steps|].
  intros met w2 Hmet.
  pose proof (dependenciesMet_steps packageName w1 m0 Hw1) as Hw2.
  rewrite Hmet in Hw2. cbn [snd] in Hw2.
  destruct met; mrun.
  - pose proof (dependenciesMet_ready packageName w1) as Hready.
    rewrite Hmet in Hready. specialize (Hready eq_refl). cbn [snd] in Hready.
    destruct (manifest w2 !! packageName) as [p2|] eqn:Hp2; simpl.
    + destruct (Package.isExecuted p2); mrun; [done|].
      by apply evaluate_fuel_steps.
    + by apply evaluate_fuel_steps.
  - by apply loadDependencies_steps.
Qed.

Lemma run_op_steps (fuel : nat) (op : Op) (w : World) (m0 : gmap string Package.t) :
  steps m0 (manifest w) -> steps m0 (manifest (run_op fuel op w).2).
Proof.
  intros Hw. destruct op as [n t m a|n t m a|n|n|n]; cbn [run_op].
  - apply steps_bind; [by apply loadPackage_steps|]. intros b w1 Hrun. mrun.
    pose proof (loadPackage_steps fuel n t m a w m0 Hw) as H. by rewrite Hrun in H.
  - by apply registerCallback_steps.
  - by apply loadJavaScript_steps.
  - unfold isLoaded. mrun. destruct (manifest w !! n); mrun; done.
  - by apply packageDidLoad_steps.
Qed.

Lemma run_ops_steps (ops : list (nat * Op)) (w : World) :
  steps (manifest w) (manifest (run_ops ops w)).
Proof.
  revert w. induction ops as [|[fuel op] ops IH]; intros w; cbn [run_ops].
  - apply steps_refl.
  - eapply steps_trans; [|apply IH]. apply run_op_steps, steps_refl.
Qed.

(** ** A package blocked by a failed dependency stays blocked *)

Lemma blocked_step (A B : string) (m m' : gmap string Package.t) :
  blocked A B m -> step m m' -> blocked A B m'.
Proof.
  intros (a & b & Ha & Hb & Hfail & Hexa & Hdep & Hexb & Hrb) Hstep.
  pose proof (step_lookup m m' A Hstep) as HA. rewrite Ha in HA.
  pose proof (step_lookup m m' B Hstep) as HB. rewrite Hb in HB.
  destruct (m' !! A) as [a'|] eqn:Ha'; [|done].
  destruct (m' !! B) as [b'|] eqn:Hb'; [|done].
  destruct HA as (_ & A2 & A3 & _).
  destruct HB as (_ & _ & B3 & B4 & B5 & _).
  assert (HinA : A ∈ deps_list b').
  { destruct (B5 A Hdep) as [?|Hex]; [done|].
    unfold executed_in in Hex. rewrite Ha in Hex. congruence. }
  exists a', b'. repeat split; auto.
  - destruct (Package.isExecuted a') eqn:E; [|done].
    destruct (A3 eq_refl) as [?|[? _]]; congruence.
  - destruct (Package.isExecuted b') eqn:E; [|done].
    destruct (B3 eq_refl) as [?|[_ ?]]; congruence.
  - destruct (Package.isReady b') eqn:E; [|done].
    destruct (B4 eq_refl) as [?|Hnil]; [congruence|].
    rewrite Hnil in HinA. by apply elem_of_nil in HinA.
Qed.

Lemma blocked_steps (A B : string) (m m' : gmap string Package.t) :
  steps m m' -> blocked A B m -> blocked A B m'.
Proof. induction 1; eauto using blocked_step. Qed.

(** What the failure path does reach.  Let [A] fail evaluation (its code
    throws) while [B] depends solely on [A] and is neither ready nor
    executed.  Then, whatever is called afterwards ([loadPackage], for [B] or
    any other package, with any fuel, [registerCallbackForPackage],
    [loadJavaScript], [isLoaded], or the arrival of a script), [B] never has
    [isExecuted] set.  The marks are written on the names that [A.dependents]
    holds at that time: if [B] is among them (all of them packages of the
    manifest), the notification of [A] returns and leaves [B.doNotExecute]
    true and [A] in [B.failedDependencies].  A [B] whose script arrives later
    is not among them and gets no mark. *)
Theorem failed_dependency_poisons_dependent (fuel : nat) (A B : string)
    (a b : Package.t) (src : list (string * string)) (err : string) (w : World) :
  manifest w !! A = Some a ->
  Package.isExecuted a = false ->
  Package.source a = Some src ->
  nonempty (spec_code PACKAGE_MODE src) = true ->
  evalThrows (spec_code PACKAGE_MODE src) = Some err ->
  manifest w !! B = Some b ->
  Package.dependencies b = Some [A] ->
  Package.isReady b = false ->
  Package.isExecuted b = false ->
  let r := _sc_evaluateJavaScriptForPackage fuel A w in
  (B ∈ dependents_list a ->
   Forall (fun d => is_Some (manifest w !! d)) (dependents_list a) ->
   r.1 = Ok tt ∧ ∃ b1, manifest r.2 !! B = Some b1 ∧ poisoned_by A b1) ∧
  ∀ ops : list (nat * Op),
    ∃ b2, manifest (run_ops ops r.2) !! B = Some b2 ∧ Package.isExecuted b2 = false.
Proof.
  intros Ha Hexa Hsrc Hcode Herr Hb Hdeps Hrb Hexb r.
  destruct (evaluate_failed_outcome (reload fuel) A a src err w
              Ha Hexa Hsrc Hcode Herr) as (Hrel & _ & _ & Hok & Hpoison).
  fold (_sc_packageDidExecute fuel) in Hrel, Hok, Hpoison.
  fold (_sc_evaluateJavaScriptForPackage fuel) in Hrel, Hok, Hpoison.
  fold r in Hrel, Hok, Hpoison.
  assert (Hwait : waiting_on A b = true).
  { unfold waiting_on. rewrite Hrb, Hdeps. simpl.
    apply bool_decide_eq_true_2, list_elem_of_singleton. done. }
  assert (Hblocked : blocked A B (manifest r.2)).
  { pose proof (Hrel A) as HA. rewrite lookup_insert_eq in HA.
    destruct (manifest r.2 !! A) as [a1|] eqn:Ha1; [|done].
    destruct HA as (HeqA & _).
    apply (f_equal Package.didFailToEvaluate) in HeqA as H1.
    apply (f_equal Package.isExecuted) in HeqA as H2.
    simpl in H1, H2.
    pose proof (Hrel B) as HB. rewrite lookup_insert in HB.
    destruct (manifest r.2 !! B) as [b1|] eqn:Hb1.
    2:{ case_decide; [done|]. by rewrite Hb in HB. }
    exists a1, b1. split; [done|]. split; [done|]. split; [done|]. split; [done|].
    assert (Hsame : more_poison b b1 ∨ (b = a ∧ more_poison
              (Package.set_callbacks None
                 (Package.set_didFailToEvaluate true
                    (Package.set_isExecuted false
                       (Package.set_source
                          (Some (accumulate (parts_for PACKAGE_MODE) "" src).2) a))))
              b1)).
    { case_decide as HAB.
      - right. subst B. split; [congruence | exact HB].
      - left. by rewrite Hb in HB. }
    destruct Hsame as [(HeqB & _)|[-> (HeqB & _)]];
      apply (f_equal Package.dependencies) in HeqB as H3;
      apply (f_equal Package.isExecuted) in HeqB as H4;
      apply (f_equal Package.isReady) in HeqB as H5;
      simpl in H3, H4, H5; unfold deps_list; rewrite <- H3, Hdeps; simpl;
      (split; [by apply list_elem_of_singleton|]); split; congruence. }
  split.
  - intros Hreg Hall.
    assert (Hr : r.1 = Ok tt) by auto. split; [done|].
    by apply (Hpoison Hr B b).
  - intros ops.
    pose proof (blocked_steps A B _ _ (run_ops_steps ops r.2) Hblocked)
      as (a' & b' & _ & Hb' & _ & _ & _ & Hex' & _).
    by exists b'.
Qed.

(** ** Notification of the dependents of a package that succeeded *)










(** ** The marks of the hashes stay consistent *)

Lemma consistent_step (m m' : gmap string Package.t) :
  consistent m -> step m m' -> consistent m'.
Proof.
  intros Hc Hstep name p' Hp'.
  pose proof (step_lookup m m' name Hstep) as Hal. rewrite Hp' in Hal.
  destruct (m !! name) as [p|] eqn:Hp; [|done].
  destruct (Hc name p Hp) as (C1 & C2 & C3 & C4).
  destruct Hal as (A1 & A2 & A3 & A4 & A5 & A6 & A7 & A8 & A9 & _).
  assert (Hfailed : ∀ x, x ∈ deps_list p -> failed_in m x = true ->
                         x ∈ deps_list p' ∧ failed_in m' x = true).
  { intros x Hx Hf. split; [|by eapply failed_in_step].
    destruct (A5 x Hx) as [?|Hex]; [done|]. exfalso.
    unfold failed_in in Hf. unfold executed_in in Hex.
    destruct (m !! x) as [px|] eqn:Hpx; [|done].
    destruct (Hc x px Hpx) as (Cx & _). rewrite Cx in Hex; done. }
  split; [|split; [|split]].
  - intros Hf. destruct (Package.isExecuted p') eqn:Hex; [|done].
    destruct (A8 Hf) as [Hfp|?]; [|done].
    destruct (A3 eq_refl) as [Hexp|[Hnf _]]; [|congruence].
    rewrite (C1 Hfp) in Hexp. done.
  - intros Hr. destruct (A4 Hr) as [Hrp|?]; [|done].
    rewrite (C2 Hrp) in A6. by apply sublist_nil_r in A6.
  - intros Hex.
    assert (Hrp : Package.isReady p = true).
    { destruct (A3 Hex) as [?|[_ ?]]; auto. }
    destruct (A9 Hrp) as [?|Hne]; [done|]. by rewrite (C2 Hrp) in Hne.
  - intros Hpo. destruct (A7 Hpo) as [Hpp|[_ (x & Hx & Hf)]].
    + destruct (C4 Hpp) as (x & Hx & Hf). exists x. by apply Hfailed.
    + exists x. by apply Hfailed.
Qed.

Lemma consistent_steps (m m' : gmap string Package.t) :
  steps m m' -> consistent m -> consistent m'.
Proof. induction 1; eauto using consistent_step. Qed.

Lemma clean_consistent (m : gmap string Package.t) : clean m -> consistent m.
Proof.
  intros Hclean name p Hp. specialize (Hclean name p Hp). cbn beta in Hclean.
  unfold clean_package in Hclean.
  apply andb_prop in Hclean as [[[H1 H2]%andb_prop H3]%andb_prop H4].
  apply negb_true_iff in H1, H2, H3, H4.
  repeat split; intros; congruence.
Qed.

(** An executed package carries no failure mark. *)
Lemma consistent_executed (m : gmap string Package.t) (name : string)
    (p : Package.t) :
  consistent m -> m !! name = Some p -> Package.isExecuted p = true ->
  Package.doNotExecute p = false ∧ Package.failedDependencies p = None ∧
  Package.didFailToEvaluate p = false.
Proof.
  intros Hc Hp Hex. destruct (Hc name p Hp) as (C1 & C2 & C3 & C4).
  assert (Hpo : poisoned p = false).
  { destruct (poisoned p) eqn:E; [|done].
    destruct (C4 eq_refl) as (x & Hx & _).
    rewrite (C2 (C3 Hex)) in Hx. by apply elem_of_nil in Hx. }
  unfold poisoned in Hpo. apply orb_false_elim in Hpo as [H1 H2].
  split; [done|]. split.
  - apply bool_decide_eq_false in H2.
    destruct (Package.failedDependencies p); [|done]. exfalso. apply H2. by eexists.
  - destruct (Package.didFailToEvaluate p) eqn:E; [|done].
    rewrite (C1 eq_refl) in Hex. done.
Qed.

(** Callbacks that do not call the loader, as this section takes them.
    Take any state that the loader reaches from a manifest on which it
    has not worked yet, by calls of [loadPackage],
    [registerCallbackForPackage], [loadJavaScript], [isLoaded] and arrivals
    of scripts.  On a package that is loaded, ready and executed in that
    state, [loadPackage] with a new callback registers the callback and calls
    it within the call: the callbacks called are those that were queued, in
    order, followed by the new one, once, with the package name as its first
    argument; the queue is then deleted, the call returns true, no code
    reaches the execution sink and the hash is otherwise unchanged.  An
    evaluation of the package is stopped by its [isExecuted] flag. *)
Theorem loadPackage_executed_runs_callback_once (w0 : World)
    (ops : list (nat * Op)) (fuel : nat) (packageName : string) (p : Package.t)
    (target method : value) (args : list value) :
  clean (manifest w0) ->
  let w := run_ops ops w0 in
  manifest w !! packageName = Some p ->
  Package.isLoaded p = true ->
  Package.isReady p = true ->
  Package.isExecuted p = true ->
  is_function (callback_shape target method args).1.2 = true ->
  let shape := callback_shape target method args in
  let cb := mkCallback shape.1.1 shape.1.2 (VString packageName :: shape.2) in
  let r := loadPackage (S fuel) packageName target method args w in
  r.1 = Ok true ∧
  invoked (trace r.2) =
    invoked (trace w) ++ default [] (Package.callbacks p) ++ [cb] ∧
  executed_codes (trace r.2) = executed_codes (trace w) ∧
  manifest r.2 = <[packageName := Package.set_callbacks None p]> (manifest w) ∧
  ∀ didExecute : string -> M unit,
    let r' := _sc_evaluateJavaScriptForPackage_with didExecute packageName w in
    r'.1 = Ok tt ∧ manifest r'.2 = manifest w ∧
    executed_codes (trace r'.2) = executed_codes (trace w).
Proof.
  intros Hclean w Hp Hloaded Hready Hexecuted Hfun.
  assert (Hc : consistent (manifest w)).
  { eapply consistent_steps; [apply run_ops_steps | by apply clean_consistent]. }
  destruct (consistent_executed _ _ _ Hc Hp Hexecuted) as (H1 & H2 & H3).
  by apply loadPackage_executed_run.
Qed.

(** ** The loader returns: no throw on a closed manifest, and enough fuel *)

Lemma returns_bind {A B} (c : M A) (k : A -> M B) (w : World) :
  returns c w ->
  (∀ a w', c w = (Ok a, w') -> returns (k a) w') ->
  ∃ b, ((x <- c ;; k x) w).1 = Ok b.
Proof.
  intros [a Ha] Hk. unfold bind.
  destruct (c w) as [[a'| |] w'] eqn:Hrun; simpl in Ha; try done.
  by apply Hk.
Qed.

Lemma closed_lookup (m : gmap string Package.t) (name : string) (p : Package.t) :
  closed m -> m !! name = Some p ->
  (∀ x, x ∈ deps_list p -> is_Some (m !! x)) ∧
  (∀ x, x ∈ dependents_list p -> is_Some (m !! x)).
Proof.
  intros Hclosed Hp. destruct (Hclosed name p Hp) as [H1 H2].
  rewrite Forall_forall in H1. rewrite Forall_forall in H2. done.
Qed.

Lemma allowed_harmless (m : gmap string Package.t) (p p' : Package.t) :
  allowed m p p' -> harmless m p p'.
Proof.
  intros (A1 & A2 & _ & _ & _ & A6 & _ & _ & _ & A10). by repeat split.
Qed.

Lemma good_alter (D : gset string) (fuel : nat) (g : Package.t -> Package.t)
    (name : string) (m : gmap string Package.t) :
  (∀ p, m !! name = Some p -> harmless m p (g p)) ->
  good D fuel m -> good D fuel (alter g name m).
Proof.
  intros Hg (Hclosed & Hthrough & Hsub & Hsize).
  assert (Hsome : ∀ x, is_Some (m !! x) -> is_Some (alter g name m !! x)).
  { intros x. by rewrite lookup_alter_is_Some. }
  assert (Hrec : ∀ x p', alter g name m !! x = Some p' ->
                   ∃ p, m !! x = Some p ∧ harmless m p p').
  { intros x p'. rewrite lookup_alter. case_decide as Hx.
    - subst x. destruct (m !! name) as [p|] eqn:Hp; simpl; [|done].
      intros [= <-]. exists p. split; [done | by apply Hg].
    - intros Hp. exists p'. split; [done|]. repeat split; auto. }
  split; [|split; [|split]].
  - intros x p' Hp'. destruct (Hrec x p' Hp') as (p & Hp & _ & _ & H3 & H4).
    destruct (closed_lookup m x p Hclosed Hp) as [Hd Hds]. cbn beta. split.
    + apply Forall_forall. intros y Hy. apply Hsome, Hd.
      by eapply elem_of_sublist.
    + apply Forall_forall. intros y Hy. apply Hsome.
      destruct (H4 y Hy) as [?|?]; auto.
  - intros x Hx. destruct (Hthrough x Hx) as (p & Hp & Hmark).
    destruct (Hsome x) as [p' Hp']; [by rewrite Hp|].
    destruct (Hrec x p' Hp') as (p0 & Hp0 & H1 & H2 & _).
    assert (p0 = p) as -> by congruence.
    exists p'. split; [done|]. destruct Hmark; auto.
  - by rewrite dom_alter_L.
  - by rewrite dom_alter_L.
Qed.

Lemma good_step (D : gset string) (fuel : nat) (m m' : gmap string Package.t) :
  good D fuel m -> step m m' -> good D fuel m'.
Proof.
  intros Hgood (name & g & -> & Hal). apply good_alter; [|done].
  intros p Hp. by apply allowed_harmless, Hal.
Qed.

Lemma good_steps (D : gset string) (fuel : nat) (m m' : gmap string Package.t) :
  steps m m' -> good D fuel m -> good D fuel m'.
Proof. induction 1; eauto using good_step. Qed.

(** One more package through, one unit of fuel less. *)
Lemma good_through (D : gset string) (fuel : nat) (name : string) (p : Package.t)
    (m : gmap string Package.t) :
  good D (S fuel) m -> name ∉ D -> m !! name = Some p ->
  Package.isExecuted p = true ∨ Package.didFailToEvaluate p = true ->
  good (D ∪ {[name]}) fuel m.
Proof.
  intros (Hclosed & Hthrough & Hsub & Hsize) Hnin Hp Hmark.
  split; [done|]. split; [|split].
  - intros x [Hx| ->%elem_of_singleton]%elem_of_union; [by apply Hthrough|].
    by exists p.
  - apply union_subseteq. split; [done|].
    apply singleton_subseteq_l, elem_of_dom. by exists p.
  - rewrite size_union by set_solver. rewrite size_singleton. lia.
Qed.

(** Out of fuel, a manifest cannot be good. *)
Lemma good_fuel (D : gset string) (m : gmap string Package.t) :
  ¬ good D 0 m.
Proof.
  intros (_ & _ & Hsub & Hsize). apply subseteq_size in Hsub. lia.
Qed.

(** A package that is not through is not in [D]. *)
Lemma good_not_through (D : gset string) (fuel : nat) (name : string)
    (p : Package.t) (m : gmap string Package.t) :
  good D fuel m -> m !! name = Some p ->
  Package.isExecuted p = false -> Package.didFailToEvaluate p = false ->
  name ∉ D.
Proof.
  intros (_ & Hthrough & _) Hp Hex Hfail Hin.
  destruct (Hthrough name Hin) as (p' & Hp' & Hmark).
  assert (p' = p) as -> by congruence. destruct Hmark; congruence.
Qed.

Lemma check_loop_returns (packageName : string) (l : list string) (b : bool)
    (w : World) :
  (∀ x, x ∈ l -> is_Some (manifest w !! x)) ->
  returns (for_fold l b (check_dependency packageName)) w.
Proof.
  revert b w. induction l as [|x l IH]; intros b w Hall; unfold returns;
    cbn [for_fold].
  - rewrite ret_run. by eexists.
  - unfold check_dependency. mrun.
    destruct (Hall x) as [q Hq]; [apply elem_of_cons; by left|]. rewrite Hq. mrun.
    assert (Hrest : ∀ y, y ∈ l -> is_Some (manifest w !! y)).
    { intros y Hy. apply Hall, elem_of_cons. by right. }
    destruct (Package.isExecuted q); cbn [negb]; mrun; apply IH; cbn [manifest];
      [done|].
    intros y Hy. rewrite lookup_alter_is_Some. by apply Hrest.
Qed.

Lemma dependenciesMet_returns (packageName : string) (w : World) :
  closed (manifest w) ->
  returns (_sc_dependenciesMetForPackage packageName) w.
Proof.
  intros Hclosed. unfold returns, _sc_dependenciesMetForPackage. mrun.
  destruct (manifest w !! packageName) as [p|] eqn:Hp; mrun; [|by eexists].
  destruct (closed_lookup _ _ _ Hclosed Hp) as [Hdeps _].
  unfold deps_list in Hdeps.
  destruct (Package.dependencies p) as [[|d l]|]; mrun; try by eexists.
  apply returns_bind; [by apply check_loop_returns|].
  intros [] w1 _; unfold returns; mrun; by eexists.
Qed.

Lemma registerCallback_returns (packageName : string) (target method : value)
    (args : list value) (w : World) :
  returns (registerCallbackForPackage packageName target method args) w.
Proof.
  unfold returns, registerCallbackForPackage. mrun.
  destruct (manifest w !! packageName) as [p|]; mrun; [|by eexists].
  destruct (SC_none target && SC_none method); mrun; [by eexists|].
  destruct (callback_shape target method args) as [[t' m'] a'].
  destruct (negb (truthy m') || negb (is_function m')); mrun; by eexists.
Qed.

Lemma invokeCallbacks_returns (packageName : string) (w : World) :
  is_Some (manifest w !! packageName) ->
  returns (_sc_invokeCallbacksForPackage packageName) w.
Proof.
  intros [p Hp]. unfold returns. rewrite (invokeCallbacks_run _ _ _ Hp). by eexists.
Qed.

Lemma loadJavaScript_returns (packageName : string) (w : World) :
  returns (loadJavaScript packageName) w.
Proof.
  unfold returns, loadJavaScript, _sc_urlForPackage. mrun.
  destruct (manifest w !! packageName) as [p|] eqn:Hp; mrun; rewrite Hp; mrun;
    [|by eexists].
  destruct (Package.isLoaded p); mrun; by eexists.
Qed.

Lemma notify_returns (loadPackage : string -> M bool) (packageName : string)
    (didFail : bool) (name : string) (w : World) (D : gset string) (fuel : nat) :
  reload_sound loadPackage ->
  (∀ d w', good D fuel (manifest w') -> returns (loadPackage d) w') ->
  good D fuel (manifest w) ->
  is_Some (manifest w !! name) ->
  returns (notify_dependent loadPackage packageName didFail name) w.
Proof.
  intros Hlp Hret Hgood [q Hq]. unfold returns, notify_dependent. mrun.
  rewrite Hq. mrun.
  destruct (Package.dependencies q) as [l|] eqn:Hdeps; mrun; [|by eexists].
  destruct (Package.isReady q) eqn:Hready; mrun; [by eexists|].
  destruct (indexOf packageName l) as [pos|] eqn:Hpos; mrun; [|by eexists].
  destruct didFail; mrun; [by eexists|].
  set (w1 := mkWorld _ _).
  assert (Hgood1 : good D fuel (manifest w1)).
  { subst w1. cbn [manifest]. apply good_alter; [|done].
    intros q' Hq'. assert (q' = q) as -> by congruence.
    unfold harmless, deps_list, dependents_list. simpl. rewrite Hdeps. simpl.
    repeat split; auto. apply removeAt_sublist. }
  apply returns_bind; [apply dependenciesMet_returns, Hgood1|].
  intros met w2 Hmet.
  assert (Hgood2 : good D fuel (manifest w2)).
  { eapply good_steps; [|exact Hgood1].
    pose proof (dependenciesMet_steps name w1 _ (steps_refl _)) as H.
    by rewrite Hmet in H. }
  unfold returns. destruct met; mrun; [|by eexists].
  apply returns_bind; [by apply Hret|].
  intros b w3 _. unfold returns. mrun. by eexists.
Qed.

Lemma notify_loop_returns (loadPackage : string -> M bool) (packageName : string)
    (didFail : bool) (ds : list string) (w : World) (D : gset string)
    (fuel : nat) :
  reload_sound loadPackage ->
  (∀ d w', good D fuel (manifest w') -> returns (loadPackage d) w') ->
  good D fuel (manifest w) ->
  (if didFail then failed_in (manifest w) packageName = true
   else executed_in (manifest w) packageName = true) ->
  (∀ d, d ∈ ds -> is_Some (manifest w !! d)) ->
  returns (for_each ds (notify_dependent loadPackage packageName didFail)) w.
Proof.
  intros Hlp Hret. revert w.
  induction ds as [|d ds IH]; intros w Hgood Hmark Hall; unfold returns;
    cbn [for_each].
  - rewrite ret_run. by eexists.
  - apply returns_bind.
    { eapply notify_returns; eauto. apply Hall, elem_of_cons. by left. }
    intros [] w1 Hrun.
    pose proof (notify_steps loadPackage packageName didFail d w (manifest w) Hlp Hmark
                  (steps_refl _)) as Hsteps.
    rewrite Hrun in Hsteps. cbn [snd] in Hsteps.
    apply IH.
    + by eapply good_steps.
    + destruct didFail; [by eapply failed_in_steps | by eapply executed_in_steps].
    + intros d' Hd'. apply (is_Some_steps _ _ _ Hsteps), Hall, elem_of_cons.
      by right.
Qed.

Lemma didExecute_returns (loadPackage : string -> M bool) (packageName : string)
    (w : World) (D : gset string) (fuel : nat) :
  reload_sound loadPackage ->
  (∀ d w', good (D ∪ {[packageName]}) fuel (manifest w') ->
           returns (loadPackage d) w') ->
  good D (S fuel) (manifest w) ->
  packageName ∉ D ->
  returns (_sc_packageDidExecute_with loadPackage packageName) w.
Proof.
  intros Hlp Hret Hgood Hnin. unfold returns.
  destruct (manifest w !! packageName) as [p|] eqn:Hp.
  2:{ unfold _sc_packageDidExecute_with. mrun. rewrite Hp. mrun. by eexists. }
  destruct (didExecute_run loadPackage packageName p w Hp) as (tr & _ & _ & ->).
  set (p1 := Package.set_callbacks None _).
  set (w1 := mkWorld _ _).
  assert (Hgood1 : good (D ∪ {[packageName]}) fuel (manifest w1)).
  { apply (good_through D fuel packageName p1); [|done| |].
    - subst w1. cbn [manifest].
      rewrite <- (alter_lookup_insert (fun _ => p1) packageName p _ Hp).
      apply good_alter; [|done]. intros p' Hp'.
      assert (p' = p) as -> by congruence. subst p1.
      unfold harmless, deps_list, dependents_list.
      destruct (Package.didFailToEvaluate p) eqn:Hfail; simpl; rewrite ?Hfail;
        repeat split; auto.
    - subst w1. cbn [manifest]. apply lookup_insert_eq.
    - subst p1. destruct (Package.didFailToEvaluate p) eqn:Hfail; simpl; auto. }
  assert (Hmark : if Package.didFailToEvaluate p
                  then failed_in (manifest w1) packageName = true
                  else executed_in (manifest w1) packageName = true).
  { subst w1 p1. cbn [manifest]. unfold executed_in, failed_in.
    rewrite lookup_insert_eq. by destruct (Package.didFailToEvaluate p) eqn:Hfail. }
  destruct Hgood as (Hclosed & _).
  destruct (closed_lookup _ _ _ Hclosed Hp) as [_ Hds].
  unfold dependents_list in Hds.
  destruct (Package.dependents p) as [[|d ds]|]; try (rewrite ret_run; by eexists).
  eapply notify_loop_returns; eauto.
  intros d' Hd'. subst w1. cbn [manifest]. rewrite lookup_insert_is_Some'.
  right. by apply Hds.
Qed.

Lemma evaluate_returns (didExecute : string -> M unit) (packageName : string)
    (w : World) (D : gset string) (fuel : nat) :
  (∀ w', good D fuel (manifest w') -> returns (didExecute packageName) w') ->
  good D fuel (manifest w) ->
  returns (_sc_evaluateJavaScriptForPackage_with didExecute packageName) w.
Proof.
  intros Hret Hgood. unfold returns, _sc_evaluateJavaScriptForPackage_with. mrun.
  destruct (manifest w !! packageName) as [p|] eqn:Hp; mrun; [|by eexists].
  destruct (Package.isExecuted p) eqn:Hex; mrun; [by eexists|].
  destruct (Package.source p) as [src|]; mrun; [|by eexists].
  destruct (accumulate (parts_for PACKAGE_MODE) "" src) as [code src'].
  mrun. set (m1 := alter _ _ _).
  assert (Hgood1 : good D fuel m1).
  { apply good_alter; [|done]. intros p' _.
    unfold harmless, deps_list, dependents_list. simpl. repeat split; auto. }
  destruct (nonempty code); mrun; [|by eexists].
  set (w1 := mkWorld _ _).
  destruct (execute_code_run packageName code w1) as (tr & _ & Hrun).
  erewrite bind_run by exact Hrun. subst w1. cbn [manifest trace].
  apply Hret. cbn [manifest]. destruct (evalThrows code); [|done].
  apply good_alter; [|done]. intros p'. subst m1. rewrite lookup_alter_eq, Hp.
  simpl. intros [= <-].
  unfold harmless, deps_list, dependents_list. simpl. rewrite Hex.
  repeat split; auto; done.
Qed.

Lemma loadPackage_with_returns (evaluate : string -> M unit)
    (packageName : string) (target method : value) (args : list value)
    (w : World) (D : gset string) (fuel : nat) :
  (∀ w', good D fuel (manifest w') -> packageName ∉ D ->
         returns (evaluate packageName) w') ->
  good D fuel (manifest w) ->
  returns (loadPackage_with evaluate packageName target method args) w.
Proof.
  intros Hret Hgood. unfold returns, loadPackage_with. mrun.
  destruct (manifest w !! packageName) as [p|] eqn:Hp; mrun; [|by eexists].
  unfold isLoaded. mrun.
  destruct (Package.isLoaded p); mrun.
  - destruct (Package.isReady p) eqn:Hready; mrun; [|by eexists].
    destruct (Package.doNotExecute p
              || bool_decide (is_Some (Package.failedDependencies p))
              || Package.didFailToEvaluate p) eqn:Hflag; mrun; [by eexists|].
    destruct (Package.isExecuted p) eqn:Hex; mrun.
    + set (w1 := mkWorld _ _).
      apply returns_bind; [apply registerCallback_returns|].
      intros [] w2 Hrun. unfold returns. mrun.
      apply returns_bind.
      { apply invokeCallbacks_returns.
        pose proof (registerCallback_steps packageName target method args w1 _
                      (steps_refl _)) as H.
        rewrite Hrun in H. apply (is_Some_steps _ _ _ H).
        subst w1. cbn [manifest]. by rewrite Hp. }
      intros [] w3 _. unfold returns. mrun. by eexists.
    + set (w1 := mkWorld _ _).
      apply returns_bind.
      { apply Hret; [done|]. apply orb_false_elim in Hflag as [_ Hfail].
        by eapply good_not_through. }
      intros [] w2 _. unfold returns. mrun. by eexists.
  - apply returns_bind; [apply registerCallback_returns|].
    intros [] w2 _. unfold returns. mrun.
    apply returns_bind; [apply loadJavaScript_returns|].
    intros [] w3 _. unfold returns. mrun. by eexists.
Qed.

(** With a unit of fuel for each package that is not through, and one more,
    [loadPackage] returns on a closed manifest. *)
Lemma loadPackage_returns (fuel : nat) (D : gset string) (packageName : string)
    (target method : value) (args : list value) (w : World) :
  good D fuel (manifest w) ->
  returns (loadPackage fuel packageName target method args) w.
Proof.
  revert D packageName target method args w.
  induction fuel as [|fuel IH]; intros D packageName target method args w Hgood.
  - by apply good_fuel in Hgood.
  - cbn [loadPackage]. apply (loadPackage_with_returns _ _ _ _ _ _ D (S fuel));
      [|done].
    intros w1 Hgood1 Hnin. apply (evaluate_returns _ _ _ D (S fuel)); [|done].
    intros w2 Hgood2. apply (didExecute_returns _ _ _ D fuel); [|  |done|done].
    + intros name w' m0 Hw'. by apply loadPackage_steps.
    + intros d w3 Hgood3. by apply (IH (D ∪ {[packageName]})).
Qed.


(** [loadPackage] returns on a closed manifest when the fuel exceeds the number
    of packages. *)
Lemma loadPackage_fuel_returns (fuel : nat) (packageName : string)
    (target method : value) (args : list value) (w : World) :
  closed (manifest w) -> (size (manifest w) < fuel)%nat ->
  returns (loadPackage fuel packageName target method args) w.
Proof.
  intros Hclosed Hsize. apply (loadPackage_returns fuel ∅).
  split; [done|]. split; [|split].
  - intros x Hx. by apply elem_of_empty in Hx.
  - apply empty_subseteq.
  - rewrite size_dom, size_empty. lia.
Qed.



(** * Further properties of the loader *)

(** ** Script elements in a trace *)

Lemma appended_app (tr1 tr2 : list Event) :
  appended (tr1 ++ tr2) = appended tr1 ++ appended tr2.
Proof. apply omap_app. Qed.

Lemma only_logs_appended (tr : list Event) : only_logs tr -> appended tr = [].
Proof.
  induction 1 as [|e tr He _ IH]; [done|]. destruct e; try done; exact IH.
Qed.

Lemma appended_callback_events (packageName : string) (q : list Callback) :
  appended (flat_map (callback_events packageName) q) = [].
Proof.
  induction q as [|cb q IH]; [done|]. cbn [flat_map].
  rewrite appended_app, IH, app_nil_r. unfold callback_events.
  by destruct (applyThrows cb).
Qed.

Lemma appended_exec (code : string) (tr : list Event) :
  appended (ExecScript code :: tr) = appended tr.
Proof. reflexivity. Qed.

(** What a trace made of log lines, callbacks, code and script elements
    shows of each kind. *)
Ltac sift_logs :=
  match goal with
  | |- context [executed_codes ?t] =>
      rewrite (only_logs_executed_codes t) by solve_only_logs
  | |- context [invoked ?t] =>
      rewrite (only_logs_invoked t) by solve_only_logs
  | |- context [appended ?t] =>
      rewrite (only_logs_appended t) by solve_only_logs
  end.

Ltac sift :=
  repeat first
    [ rewrite invoked_app | rewrite executed_codes_app | rewrite appended_app
    | rewrite invoked_callback_events | rewrite executed_codes_callback_events
    | rewrite appended_callback_events
    | rewrite executed_codes_exec | rewrite invoked_exec | rewrite appended_exec
    | sift_logs
    | progress cbn [app] ];
  rewrite ?app_nil_r.

Lemma world_eta (w : World) : mkWorld (manifest w) (trace w) = w.
Proof. by destruct w. Qed.

(** ** Registering, whatever the callback *)

Lemma registered_fields (packageName : string) (target method : value)
    (args : list value) (p : Package.t) :
  let p' := registered packageName target method args p in
  Package.rootNode p' = Package.rootNode p ∧
  Package.basename p' = Package.basename p ∧
  Package.dependencies p' = Package.dependencies p ∧
  Package.dependents p' = Package.dependents p ∧
  Package.source p' = Package.source p ∧
  Package.isLoading p' = Package.isLoading p ∧
  Package.isLoaded p' = Package.isLoaded p ∧
  Package.isReady p' = Package.isReady p ∧
  Package.isExecuted p' = Package.isExecuted p ∧
  Package.didFailToEvaluate p' = Package.didFailToEvaluate p ∧
  Package.doNotExecute p' = Package.doNotExecute p ∧
  Package.failedDependencies p' = Package.failedDependencies p.
Proof.
  unfold registered. cbv zeta.
  by destruct (is_function (callback_shape target method args).1.2).
Qed.

(** The run of [registerCallbackForPackage] on a package of the manifest. *)
Lemma registerCallback_known_run (packageName : string) (p : Package.t)
    (target method : value) (args : list value) (w : World) :
  manifest w !! packageName = Some p ->
  registerCallbackForPackage packageName target method args w =
  (Ok tt,
   mkWorld (<[packageName := registered packageName target method args p]> (manifest w))
     (trace w)).
Proof.
  intros Hp. unfold registered. cbv zeta.
  destruct (is_function (callback_shape target method args).1.2) eqn:Hfun.
  - by apply registerCallback_run.
  - rewrite insert_id by done. rewrite world_eta.
    unfold registerCallbackForPackage. mrun. rewrite Hp.
    destruct (SC_none target && SC_none method); mrun; [done|].
    destruct (callback_shape target method args) as [[t' m'] a'].
    cbn [fst snd] in Hfun. rewrite Hfun, orb_true_r. by mrun.
Qed.

(** ** The request for the source *)

(** The run of [loadJavaScript] on a package that is not loaded: the hash is
    marked as loading and a script element is appended for its address. *)
Lemma loadJavaScript_run (packageName : string) (p : Package.t) (w : World) :
  manifest w !! packageName = Some p ->
  Package.isLoaded p = false ->
  loadJavaScript packageName w =
  (Ok tt,
   mkWorld (<[packageName := Package.set_isLoading true p]> (manifest w))
     (trace w ++ [ScriptAppended (Some (url_of p))])).
Proof.
  intros Hp Hloaded. unfold loadJavaScript, _sc_urlForPackage. mrun.
  rewrite Hp. mrun. rewrite Hp. mrun. rewrite Hloaded. mrun.
  by rewrite (alter_lookup_insert _ _ p).
Qed.

(** The run of [loadPackage] on a package that is not loaded. *)
Lemma loadPackage_unloaded_run (fuel : nat) (packageName : string)
    (p : Package.t) (target method : value) (args : list value) (w : World) :
  manifest w !! packageName = Some p ->
  Package.isLoaded p = false ->
  loadPackage (S fuel) packageName target method args w =
  (Ok false,
   mkWorld
     (<[packageName :=
          Package.set_isLoading true
            (registered packageName target method args p)]> (manifest w))
     (trace w ++
      (if log then [LogInfo (fmt "SC.Package.loadPackage() for package '%@'"
                               [packageName])] else []) ++
      [ScriptAppended (Some (url_of p))])).
Proof.
  intros Hp Hloaded. cbn [loadPackage]. unfold loadPackage_with. mrun.
  rewrite Hp. unfold isLoaded. mrun. rewrite Hloaded. mrun.
  erewrite bind_run by (apply registerCallback_known_run; exact Hp).
  destruct (registered_fields packageName target method args p)
    as (Hroot & Hbase & _ & _ & _ & _ & Hl & _).
  erewrite bind_run.
  2:{ apply loadJavaScript_run; [cbn [manifest]; apply lookup_insert_eq|].
      by rewrite Hl. }
  mrun. rewrite insert_insert_eq, <- app_assoc.
  unfold url_of. by rewrite Hroot, Hbase.
Qed.

(** X1.  [loadPackage] on a package of the manifest whose source is not
    loaded returns false, queues the callback when there is one, marks the
    hash as loading and appends one script element for the address
    [/rootNode/packages/basename]; no code is run and no callback is called.
    It does so whether or not the hash is already marked as loading: a second
    request made before the source has arrived appends a second script
    element for the same address. *)
Theorem loadPackage_requests_unloaded_package (fuel fuel' : nat)
    (packageName : string) (p : Package.t) (target method target' method' : value)
    (args args' : list value) (w : World) :
  manifest w !! packageName = Some p ->
  Package.isLoaded p = false ->
  let r := loadPackage (S fuel) packageName target method args w in
  let r' := loadPackage (S fuel') packageName target' method' args' r.2 in
  (r.1 = Ok false ∧
   manifest r.2 =
     <[packageName :=
         Package.set_isLoading true
           (registered packageName target method args p)]> (manifest w) ∧
   ∃ tr, only_logs tr ∧
     trace r.2 = trace w ++ tr ++ [ScriptAppended (Some (url_of p))]) ∧
  (r'.1 = Ok false ∧
   appended (trace r'.2) =
     appended (trace w) ++ [Some (url_of p); Some (url_of p)] ∧
   executed_codes (trace r'.2) = executed_codes (trace w) ∧
   invoked (trace r'.2) = invoked (trace w) ∧
   ∃ p', manifest r'.2 !! packageName = Some p' ∧
         Package.callbacks p' =
           Package.callbacks
             (registered packageName target' method' args'
                (registered packageName target method args p))).
Proof.
  intros Hp Hloaded r r'. subst r'. subst r.
  rewrite (loadPackage_unloaded_run fuel packageName p) by done.
  cbn [fst snd]. split.
  { split; [done|]. split; [done|]. eexists. split; [|reflexivity].
    apply only_logs_info. }
  set (p1 := Package.set_isLoading true _).
  destruct (registered_fields packageName target method args p)
    as (Hroot & Hbase & _ & _ & _ & _ & Hl & _).
  rewrite (loadPackage_unloaded_run fuel' packageName p1).
  2:{ cbn [manifest]. apply lookup_insert_eq. }
  2:{ subst p1. cbn [Package.isLoaded Package.set_isLoading]. by rewrite Hl. }
  cbn [fst snd manifest trace]. split; [done|].
  assert (Hurl : url_of p1 = url_of p).
  { subst p1. unfold url_of.
    cbn [Package.rootNode Package.basename Package.set_isLoading].
    by rewrite Hroot, Hbase. }
  rewrite Hurl. split; [|split; [|split]].
  - sift. by rewrite <- app_assoc.
  - by sift.
  - by sift.
  - eexists. split; [apply lookup_insert_eq|].
    subst p1. unfold registered. cbv zeta.
    destruct (is_function (callback_shape target' method' args').1.2);
      destruct (is_function (callback_shape target method args).1.2); done.
Qed.

(** X2.  [loadPackage] on a package that is loaded but is not ready, or that
    is ready and carries a failure mark, returns at once: false when the
    package is not ready, true when it is; the manifest is unchanged and only
    log lines are written.  In particular the callback given to the call is
    neither queued nor called. *)
Theorem loadPackage_drops_callback_of_stalled_package (fuel : nat)
    (packageName : string) (p : Package.t) (target method : value)
    (args : list value) (w : World) :
  manifest w !! packageName = Some p ->
  Package.isLoaded p = true ->
  Package.isReady p = false ∨ flagged p = true ->
  let r := loadPackage (S fuel) packageName target method args w in
  r.1 = Ok (Package.isReady p) ∧
  manifest r.2 = manifest w ∧
  ∃ tr, only_logs tr ∧ trace r.2 = trace w ++ tr.
Proof.
  intros Hp Hloaded Hstall r. subst r. cbn [loadPackage].
  unfold loadPackage_with. mrun. rewrite Hp. unfold isLoaded. mrun.
  rewrite Hloaded. mrun.
  destruct (Package.isReady p) eqn:Hready; mrun.
  - destruct Hstall as [?|Hflag]; [done|]. unfold flagged in Hflag.
    rewrite Hflag. mrun. split; [done|]. split; [done|].
    rewrite <- !app_assoc. eexists. split; [|reflexivity]. solve_only_logs.
  - split; [done|]. split; [done|].
    rewrite <- !app_assoc. eexists. split; [|reflexivity]. solve_only_logs.
Qed.

(** ** The arrival of the source *)

Lemma executed_in_insert_same (m : gmap string Package.t) (name x : string)
    (p p' : Package.t) :
  m !! name = Some p -> Package.isExecuted p' = Package.isExecuted p ->
  executed_in (<[name := p']> m) x = executed_in m x.
Proof.
  intros Hp Hex. unfold executed_in. rewrite lookup_insert.
  case_decide as Hx; [|done]. subst x. by rewrite Hp.
Qed.

Lemma forallb_same {A} (f g : A -> bool) (l : list A) :
  (∀ x, f x = g x) -> forallb f l = forallb g l.
Proof.
  intros Hfg. induction l as [|x l IH]; [done|]. simpl. by rewrite Hfg, IH.
Qed.

(** The run of [_sc_packageDidLoad] on a package whose dependencies are all
    executed: the hash is marked loaded and ready, and the evaluation follows
    unless the package is executed already. *)
Lemma packageDidLoad_met_run (fuel : nat) (packageName : string) (p : Package.t)
    (w : World) :
  manifest w !! packageName = Some p ->
  forallb (executed_in (manifest w)) (deps_list p) = true ->
  ∃ tr, only_logs tr ∧
    _sc_packageDidLoad fuel packageName w =
    (if Package.isExecuted p then ret tt
     else _sc_evaluateJavaScriptForPackage fuel packageName)
      (mkWorld (<[packageName := arrived p]> (manifest w)) (trace w ++ tr)).
Proof.
  intros Hp Hdeps. unfold _sc_packageDidLoad. mrun. rewrite Hp. mrun.
  rewrite alter_alter_eq, (alter_lookup_insert _ _ p) by done.
  set (p1 := Package.set_isLoading false (Package.set_isLoaded true p)).
  set (w1 := mkWorld _ _).
  destruct (dependenciesMet_run_ready packageName p1 w1) as (tr & Hrun & Htr).
  { subst w1. cbn [manifest]. apply lookup_insert_eq. }
  { subst w1. cbn [manifest].
    rewrite <- Hdeps. apply forallb_same. intros x.
    by apply (executed_in_insert_same _ _ _ p). }
  erewrite bind_run by exact Hrun. mrun. subst w1. cbn [manifest trace].
  rewrite lookup_insert_eq, insert_insert_eq, <- !app_assoc.
  eexists. split; [|unfold arrived; cbv zeta; fold p1].
  2:{ cbn [fmap option_fmap option_map default].
      assert (Hex : Package.isExecuted
                (Package.set_isReady true
                   match Package.dependencies p1 with
                   | Some (_ :: _) => Package.set_dependencies None p1
                   | _ => p1
                   end) = Package.isExecuted p).
      { subst p1. by destruct (Package.dependencies _) as [[|? ?]|]. }
      rewrite Hex. reflexivity. }
  solve_only_logs.
Qed.




(** X4.  In every state that the loader reaches from a manifest on which it
    has not worked yet, a second arrival of the script of a package that is
    executed runs no code and calls no callback: the hash is marked loaded
    once more, and nothing else changes. *)
Theorem second_arrival_of_executed_package_runs_nothing (w0 : World)
    (ops : list (nat * Op)) (fuel : nat) (packageName : string) (p : Package.t) :
  clean (manifest w0) ->
  let w := run_ops ops w0 in
  manifest w !! packageName = Some p ->
  Package.isExecuted p = true ->
  let r := _sc_packageDidLoad fuel packageName w in
  r.1 = Ok tt ∧
  manifest r.2 =
    <[packageName := Package.set_isLoading false (Package.set_isLoaded true p)]>
      (manifest w) ∧
  ∃ tr, only_logs tr ∧ trace r.2 = trace w ++ tr.
Proof.
  intros Hclean w Hp Hex r.
  assert (Hcons : consistent (manifest w)).
  { eapply consistent_steps; [apply run_ops_steps | by apply clean_consistent]. }
  destruct (Hcons packageName p Hp) as (_ & Hready & Hexr & _).
  specialize (Hexr Hex). specialize (Hready Hexr).
  destruct (packageDidLoad_met_run fuel packageName p w Hp) as (tr & Htr & Hrun).
  { by rewrite Hready. }
  subst r. rewrite Hrun, Hex. cbn [fst snd manifest trace ret].
  split; [done|]. split; [|by exists tr].
  f_equal. unfold arrived. cbv zeta. unfold deps_list in Hready.
  cbn [Package.dependencies Package.set_isLoading Package.set_isLoaded].
  destruct p as [? ? deps ? ? ? ? ? rdy ? ? ? ?]. cbn in *. subst rdy.
  by destruct deps as [[|? ?]|].
Qed.

(** ** Packages without code *)

Lemma nonempty_append_l (s1 s2 : string) :
  nonempty s1 = true -> nonempty (s1 +:+ s2) = true.
Proof. by destruct s1. Qed.

Lemma code_of_nonempty (src : list (string * string)) (part text : string) :
  code_of src part = Some text -> nonempty text = true.
Proof.
  unfold code_of. destruct (source_get part src) as [t|]; [|done].
  destruct (nonempty t) eqn:Ht; [|done]. by intros [= <-].
Qed.

(** When the code of the selected categories is empty, no selected category
    has code. *)
Lemma spec_code_empty (flags : Z) (src : list (string * string)) :
  nonempty (spec_code flags src) = false ->
  ∀ part, part ∈ parts_for flags -> code_of src part = None.
Proof.
  unfold spec_code. rewrite <- parts_for_selected.
  induction (parts_for flags) as [|x parts IH]; intros Hempty part Hin.
  { by apply elem_of_nil in Hin. }
  rewrite omap_cons_eq in Hempty.
  destruct (code_of src x) as [text|] eqn:Hx.
  - exfalso. apply code_of_nonempty in Hx. cbn [join_code] in Hempty.
    destruct (omap (code_of src) parts).
    + congruence.
    + by rewrite nonempty_append_l in Hempty.
  - apply elem_of_cons in Hin as [->|Hin]; [done | by apply IH].
Qed.

(** The run of [loadPackage] on a package that is loaded, ready, without a
    failure mark and not executed: the evaluation. *)
Lemma loadPackage_ready_run (fuel : nat) (packageName : string) (p : Package.t)
    (target method : value) (args : list value) (w : World) :
  manifest w !! packageName = Some p ->
  Package.isLoaded p = true ->
  Package.isReady p = true ->
  flagged p = false ->
  Package.isExecuted p = false ->
  ∃ tr, only_logs tr ∧
    loadPackage (S fuel) packageName target method args w =
    (_sc_evaluateJavaScriptForPackage fuel packageName ;; ret true)
      (mkWorld (manifest w) (trace w ++ tr)).
Proof.
  intros Hp Hloaded Hready Hflag Hex. cbn [loadPackage].
  unfold loadPackage_with. mrun. rewrite Hp. unfold isLoaded. mrun.
  rewrite Hloaded. mrun. rewrite Hready. mrun. unfold flagged in Hflag.
  rewrite Hflag, Hex. rewrite <- !app_assoc.
  eexists. split; [|reflexivity]. solve_only_logs.
Qed.

(** X5.  The evaluation of a package that is not executed and has no source,
    or no code in the categories that the mode selects, runs nothing: it
    returns, the manifest is unchanged (the package is not marked executed
    and its callbacks stay in the queue) and only log lines are written.
    [loadPackage] on such a package, once it is loaded and ready, returns
    true all the same, and drops the callback it was given. *)
Theorem evaluation_without_code_does_nothing (fuel : nat) (packageName : string)
    (p : Package.t) (target method : value) (args : list value) (w : World) :
  manifest w !! packageName = Some p ->
  Package.isExecuted p = false ->
  (∀ src, Package.source p = Some src ->
     nonempty (spec_code PACKAGE_MODE src) = false) ->
  (∀ didExecute : string -> M unit,
     let r := _sc_evaluateJavaScriptForPackage_with didExecute packageName w in
     r.1 = Ok tt ∧ manifest r.2 = manifest w ∧
     ∃ tr, only_logs tr ∧ trace r.2 = trace w ++ tr) ∧
  (Package.isLoaded p = true -> Package.isReady p = true -> flagged p = false ->
   let r := loadPackage (S fuel) packageName target method args w in
   r.1 = Ok true ∧ manifest r.2 = manifest w ∧
   ∃ tr, only_logs tr ∧ trace r.2 = trace w ++ tr).
Proof.
  intros Hp Hex Hcode.
  assert (Heval : ∀ (didExecute : string -> M unit) (w1 : World),
            manifest w1 = manifest w ->
            ∃ tr, only_logs tr ∧
              _sc_evaluateJavaScriptForPackage_with didExecute packageName w1 =
              (Ok tt, mkWorld (manifest w) (trace w1 ++ tr))).
  { intros didExecute w1 Hw1.
    destruct (Package.source p) as [src|] eqn:Hsrc.
    - destruct (evaluate_consumed didExecute packageName p src w1)
        as (tr & Htr & Hrun); [by rewrite Hw1|done..| |].
      { by apply spec_code_empty, Hcode. }
      exists tr. split; [done|]. by rewrite Hrun, Hw1.
    - unfold _sc_evaluateJavaScriptForPackage_with. mrun. rewrite Hw1, Hp. mrun.
      rewrite Hex, Hsrc. mrun. rewrite <- app_assoc.
      eexists. split; [|reflexivity]. solve_only_logs. }
  split.
  - intros didExecute r. subst r.
    destruct (Heval didExecute w eq_refl) as (tr & Htr & ->).
    split; [done|]. split; [done|]. by exists tr.
  - intros Hloaded Hready Hflag r. subst r.
    destruct (loadPackage_ready_run fuel packageName p target method args w)
      as (tr1 & Htr1 & ->); [done..|].
    destruct (Heval (_sc_packageDidExecute fuel) (mkWorld (manifest w) (trace w ++ tr1))
                eq_refl) as (tr2 & Htr2 & Hrun).
    unfold _sc_evaluateJavaScriptForPackage. erewrite bind_run by exact Hrun.
    mrun. split; [done|]. split; [done|].
    exists (tr1 ++ tr2). split; [solve_only_logs | by rewrite app_assoc].
Qed.

(** ** The check of the dependencies, when some are not executed *)

Lemma bind_ext {A B} (m : M A) (k1 k2 : A -> M B) (w : World) :
  (∀ a w', k1 a w' = k2 a w') -> (x <- m ;; k1 x) w = (x <- m ;; k2 x) w.
Proof. intros H. unfold bind. destruct (m w) as [[a| |] w']; auto. Qed.

Lemma executed_in_alter (f : Package.t -> Package.t) (name x : string)
    (m : gmap string Package.t) :
  (∀ p, Package.isExecuted (f p) = Package.isExecuted p) ->
  executed_in (alter f name m) x = executed_in m x.
Proof.
  intros Hf. unfold executed_in. rewrite lookup_alter.
  case_decide as Hx; [subst x | reflexivity].
  destruct (m !! name) as [p|]; simpl; [apply Hf | reflexivity].
Qed.

(** The run of the loop of [_sc_dependenciesMetForPackage] over names of the
    manifest: the answer, and the ready flag cleared when a dependency is not
    executed. *)
Lemma check_loop_run (packageName : string) (l : list string) (b : bool)
    (w : World) :
  Forall (fun x => is_Some (manifest w !! x)) l ->
  for_fold l b (check_dependency packageName) w =
  (Ok (b && forallb (executed_in (manifest w)) l),
   mkWorld
     (if forallb (executed_in (manifest w)) l then manifest w
      else alter (Package.set_isReady false) packageName (manifest w))
     (trace w)).
Proof.
  revert b w. induction l as [|x l IH]; intros b w Hall; cbn [for_fold forallb].
  { rewrite ret_run, andb_true_r. by rewrite world_eta. }
  apply Forall_cons in Hall as [[q Hq] Hall].
  assert (Hx : executed_in (manifest w) x = Package.isExecuted q).
  { unfold executed_in. by rewrite Hq. }
  rewrite Hx. unfold check_dependency at 1. mrun. rewrite Hq.
  destruct (Package.isExecuted q); cbn [negb andb]; mrun.
  - by apply IH.
  - rewrite IH.
    2:{ cbn [manifest]. eapply Forall_impl; [exact Hall|].
        intros y Hy. by rewrite lookup_alter_is_Some. }
    cbn [manifest trace]. rewrite andb_false_r, alter_alter_eq.
    by destruct (forallb _ l).
Qed.

(** The run of [_sc_dependenciesMetForPackage] on a package with a
    dependency that is not executed. *)
Lemma dependenciesMet_unmet_run (packageName : string) (p : Package.t)
    (w : World) :
  manifest w !! packageName = Some p ->
  Forall (fun x => is_Some (manifest w !! x)) (deps_list p) ->
  forallb (executed_in (manifest w)) (deps_list p) = false ->
  ∃ tr, only_logs tr ∧
    _sc_dependenciesMetForPackage packageName w =
    (Ok false,
     mkWorld (<[packageName := Package.set_isReady false p]> (manifest w))
       (trace w ++ tr)).
Proof.
  intros Hp Hall Hunmet. unfold _sc_dependenciesMetForPackage. mrun.
  rewrite Hp. mrun. unfold deps_list in *.
  destruct (Package.dependencies p) as [[|d l]|]; try done.
  change (default [] (Some (d :: l))) with (d :: l) in *.
  erewrite bind_run by (by apply check_loop_run).
  cbn [manifest]. rewrite Hunmet. cbn [andb]. mrun.
  rewrite (alter_lookup_insert _ _ p), <- app_assoc by done.
  eexists. split; [|reflexivity]. solve_only_logs.
Qed.


(** ** The arrival of a package whose dependencies are not loaded *)

Lemma enlisted_fields (packageName : string) (q : Package.t) :
  url_of (enlisted packageName q) = url_of q ∧
  Package.isLoaded (enlisted packageName q) = Package.isLoaded q ∧
  Package.isExecuted (enlisted packageName q) = Package.isExecuted q.
Proof. done. Qed.

Lemma registered_undefined (packageName : string) (p : Package.t) :
  registered packageName VUndefined VUndefined [] p = p.
Proof. done. Qed.

(** The run of the loop of [_sc_loadDependenciesForPackage] over
    dependencies that are not loaded. *)
Lemma load_dependencies_loop_run (fuel : nat) (packageName : string)
    (l : list string) (w : World) :
  (∀ d, d ∈ l -> ∃ q, manifest w !! d = Some q ∧ Package.isLoaded q = false) ->
  ∃ tr,
    for_each l (load_dependency (S fuel) packageName) w =
    (Ok tt,
     mkWorld (foldl (fun m d => alter (enlisted packageName) d m) (manifest w) l)
       (trace w ++ tr)) ∧
    appended tr = (fun d => url_of <$> manifest w !! d) <$> l ∧
    invoked tr = [] ∧ executed_codes tr = [].
Proof.
  revert w. induction l as [|d l IH]; intros w Hall; cbn [for_each foldl fmap list_fmap].
  { exists []. rewrite ret_run, app_nil_r, world_eta. done. }
  destruct (Hall d) as (q & Hq & Hloaded); [apply elem_of_cons; by left|].
  unfold load_dependency at 1. mrun. rewrite Hq. mrun.
  unfold reload.
  erewrite bind_run.
  2:{ apply (loadPackage_unloaded_run fuel d
               (Package.set_dependents
                  (Some (default [] (Package.dependents q) ++ [packageName])) q)).
      - cbn [manifest]. by rewrite lookup_alter_eq, Hq.
      - done. }
  mrun. rewrite registered_undefined.
  rewrite (alter_lookup_insert _ _ q), insert_insert_eq by done.
  change (Package.set_isLoading true _) with (enlisted packageName q).
  rewrite <- (alter_lookup_insert (enlisted packageName) d q) by done.
  set (w1 := mkWorld _ _).
  destruct (IH w1) as (tr & Hrun & Happ & Hinv & Hexe).
  { intros d' Hd'. destruct (Hall d') as (q' & Hq' & Hl'); [apply elem_of_cons; by right|].
    subst w1. cbn [manifest]. rewrite lookup_alter. case_decide as Hdd.
    - subst d'. rewrite Hq'. eexists. split; [reflexivity|].
      by rewrite (proj1 (proj2 (enlisted_fields packageName q'))).
    - by exists q'. }
  rewrite Hrun. subst w1. cbn [manifest trace].
  eexists. split; [rewrite <- !app_assoc; reflexivity|].
  split; [|split].
  - sift. rewrite Happ. cbn [appended omap app manifest fmap option_fmap option_map].
    f_equal. apply list_fmap_ext. intros _ d' _. rewrite lookup_alter.
    case_decide as Hdd; [|done]. subst d'. by rewrite Hq.
  - sift. exact Hinv.
  - sift. exact Hexe.
Qed.

(** The hashes after the loop: each dependency is marked as loading and
    lists the package among its dependents, and the other hashes are as they
    were. *)
Lemma enlisted_loop_lookup (packageName : string) (l : list string)
    (m : gmap string Package.t) (x : string) (q : Package.t) :
  m !! x = Some q ->
  ∃ q', foldl (fun m d => alter (enlisted packageName) d m) m l !! x = Some q' ∧
    (x ∉ l -> q' = q) ∧
    (x ∈ l ∨ (Package.isLoading q = true ∧ packageName ∈ dependents_list q) ->
     Package.isLoading q' = true ∧ packageName ∈ dependents_list q').
Proof.
  revert m q. induction l as [|d l IH]; intros m q Hq; cbn [foldl].
  { exists q. split; [done|]. split; [done|].
    intros [Hin|?]; [by apply elem_of_nil in Hin | done]. }
  destruct (decide (d = x)) as [->|Hne].
  - destruct (IH (alter (enlisted packageName) x m) (enlisted packageName q))
      as (q' & Hq' & _ & Hmark).
    { by rewrite lookup_alter_eq, Hq. }
    exists q'. split; [done|]. split.
    + intros Hnin. exfalso. apply Hnin, elem_of_cons. by left.
    + intros _. apply Hmark. right. split; [done|].
      unfold enlisted, dependents_list. cbn. apply elem_of_app. right.
      by apply list_elem_of_singleton.
  - destruct (IH (alter (enlisted packageName) d m) q) as (q' & Hq' & Hsame & Hmark).
    { by rewrite lookup_alter_ne. }
    exists q'. split; [done|]. split.
    + intros Hnin. apply Hsame. intros Hin. apply Hnin, elem_of_cons. by right.
    + intros [[?|Hin]%elem_of_cons|Hq0]; [congruence|apply Hmark; by left|].
      apply Hmark. by right.
Qed.

(** X9.  The script of a package arrives while some of its dependencies are
    not executed, none of them being loaded (and the package does not list
    itself).  The handler marks the package
    as loaded and not ready, and then, for each dependency in the order of the
    list, pushes the package onto the dependents of the dependency and
    requests its source: one script element is appended for each, no code is
    run and no callback is called.  Every dependency ends up marked as
    loading with the package among its dependents; the other hashes are as
    they were. *)
Theorem arrival_with_unmet_dependencies_requests_them (fuel : nat)
    (packageName : string) (p : Package.t) (deps : list string) (w : World) :
  manifest w !! packageName = Some p ->
  Package.dependencies p = Some deps ->
  packageName ∉ deps ->
  (∀ d, d ∈ deps -> ∃ q, manifest w !! d = Some q ∧ Package.isLoaded q = false) ->
  forallb (executed_in (manifest w)) deps = false ->
  let r := _sc_packageDidLoad (S fuel) packageName w in
  let p1 := Package.set_isReady false
              (Package.set_isLoading false (Package.set_isLoaded true p)) in
  r.1 = Ok tt ∧
  manifest r.2 =
    foldl (fun m d => alter (enlisted packageName) d m)
      (<[packageName := p1]> (manifest w)) deps ∧
  appended (trace r.2) =
    appended (trace w) ++ ((fun d => url_of <$> manifest w !! d) <$> deps) ∧
  invoked (trace r.2) = invoked (trace w) ∧
  executed_codes (trace r.2) = executed_codes (trace w) ∧
  manifest r.2 !! packageName = Some p1 ∧
  (∀ d, d ∈ deps ->
     ∃ q', manifest r.2 !! d = Some q' ∧ Package.isLoading q' = true ∧
           packageName ∈ dependents_list q') ∧
  (∀ x, x ≠ packageName -> x ∉ deps -> manifest r.2 !! x = manifest w !! x).
Proof.
  intros Hp Hdeps Hself Hall Hunmet r p1.
  set (p0 := Package.set_isLoading false (Package.set_isLoaded true p)).
  set (m1 := <[packageName := p1]> (manifest w)).
  assert (Hrun : ∃ tr,
            r = (Ok tt,
                 mkWorld (foldl (fun m d => alter (enlisted packageName) d m) m1 deps)
                   (trace w ++ tr)) ∧
            appended tr = (fun d => url_of <$> manifest w !! d) <$> deps ∧
            invoked tr = [] ∧ executed_codes tr = []).
  { subst r m1. unfold _sc_packageDidLoad. mrun. rewrite Hp. mrun.
    rewrite alter_alter_eq, (alter_lookup_insert _ _ p) by done.
    change ((Package.set_isLoading false ∘ Package.set_isLoaded true) p) with p0.
    set (w1 := mkWorld _ _).
    destruct (dependenciesMet_unmet_run packageName p0 w1) as (tr1 & Htr1 & Hmet).
    { subst w1. cbn [manifest]. apply lookup_insert_eq. }
    { unfold deps_list. change (Package.dependencies p0) with (Package.dependencies p).
      rewrite Hdeps. cbn [default]. apply Forall_forall. intros d Hd.
      destruct (Hall d Hd) as (q & Hq & _). subst w1. cbn [manifest].
      rewrite lookup_insert_is_Some'. right. by rewrite Hq. }
    { unfold deps_list. change (Package.dependencies p0) with (Package.dependencies p).
      rewrite Hdeps. cbn [default]. rewrite <- Hunmet. apply forallb_same.
      intros x. subst w1. cbn [manifest]. by apply (executed_in_insert_same _ _ _ p). }
    erewrite bind_run by exact Hmet. subst w1. cbn [manifest trace]. mrun.
    rewrite insert_insert_eq. change (Package.set_isReady false p0) with p1.
    unfold _sc_loadDependenciesForPackage. mrun.
    rewrite lookup_insert_eq. mrun.
    change (Package.dependencies p1) with (Package.dependencies p). rewrite Hdeps.
    set (w2 := mkWorld _ _).
    destruct (load_dependencies_loop_run fuel packageName deps w2)
      as (tr2 & Hloop & Happ & Hinv & Hexe).
    { intros d Hd. destruct (Hall d Hd) as (q & Hq & Hl). exists q.
      split; [|done]. subst w2. cbn [manifest].
      rewrite lookup_insert_ne; [done|]. by intros ->. }
    assert (Hmatch : match deps with
                     | [] => ret tt
                     | _ :: _ => for_each deps (load_dependency (S fuel) packageName)
                     end w2 =
                     for_each deps (load_dependency (S fuel) packageName) w2).
    { by destruct deps. }
    rewrite Hmatch, Hloop. subst w2. cbn [manifest trace].
    eexists. split; [rewrite <- !app_assoc; reflexivity|].
    split; [|split].
    - sift. rewrite Happ. apply list_fmap_ext. intros i d Hd. cbn [manifest].
      rewrite lookup_insert_ne; [done|].
      apply list_elem_of_lookup_2 in Hd. intros Heq. apply Hself. by rewrite Heq.
    - by sift.
    - by sift. }
  destruct Hrun as (tr & -> & Happ & Hinv & Hexe). cbn [fst snd manifest trace].
  split; [done|]. split; [done|].
  split; [by rewrite appended_app, Happ|].
  split; [by rewrite invoked_app, Hinv, app_nil_r|].
  split; [by rewrite executed_codes_app, Hexe, app_nil_r|].
  split; [|split].
  - destruct (enlisted_loop_lookup packageName deps m1 packageName p1)
      as (q' & Hq' & Hsame & _); [apply lookup_insert_eq|].
    by rewrite Hq', (Hsame Hself).
  - intros d Hd. destruct (Hall d Hd) as (q & Hq & _).
    destruct (enlisted_loop_lookup packageName deps m1 d q) as (q' & Hq' & _ & Hmark).
    { subst m1. rewrite lookup_insert_ne; [done|]. by intros ->. }
    exists q'. split; [done|]. apply Hmark. by left.
  - intros x Hx Hnin. destruct (manifest w !! x) as [q|] eqn:Hq.
    + destruct (enlisted_loop_lookup packageName deps m1 x q) as (q' & Hq' & Hsame & _).
      { subst m1. by rewrite lookup_insert_ne. }
      by rewrite Hq', (Hsame Hnin).
    + clear -Hq Hx. subst m1.
      assert (Hm : <[packageName := p1]> (manifest w) !! x = None)
        by (by rewrite lookup_insert_ne).
      revert Hm. generalize (<[packageName := p1]> (manifest w)).
      induction deps as [|d deps IH]; intros m Hm; cbn [foldl]; [done|].
      apply IH. by rewrite lookup_alter_None.
Qed.

(** ** A dependency executes while a loaded dependent waits on it *)


(** ** The order of execution *)

Lemma accounted_refl (m : gmap string Package.t) : accounted m m.
Proof.
  intros name p0 p d Hp0 Hp Hd. left. by assert (p = p0) as -> by congruence.
Qed.

Lemma accounted_step (m0 m m' : gmap string Package.t) :
  accounted m0 m -> step m m' -> accounted m0 m'.
Proof.
  intros Hacc Hstep name p0 p' d Hp0 Hp' Hd.
  pose proof (step_lookup m m' name Hstep) as Hal. rewrite Hp' in Hal.
  destruct (m !! name) as [p|] eqn:Hp; [|done].
  destruct Hal as (_ & _ & _ & _ & Hleave & _).
  destruct (Hacc name p0 p d Hp0 Hp Hd) as [Hin|Hex].
  - destruct (Hleave d Hin) as [?|Hex]; [by left|].
    right. by eapply executed_in_step.
  - right. by eapply executed_in_step.
Qed.

Lemma accounted_steps (m0 m m' : gmap string Package.t) :
  steps m m' -> accounted m0 m -> accounted m0 m'.
Proof. induction 1; eauto using accounted_step. Qed.

(** X11.  Whatever is called on the loader, and in whatever order, starting
    from a manifest on which it has not worked yet: a package that is
    executed has all the dependencies that the manifest listed for it
    executed. *)
Theorem executed_package_has_executed_dependencies (w0 : World)
    (ops : list (nat * Op)) (packageName d : string) (p0 p : Package.t) :
  clean (manifest w0) ->
  manifest w0 !! packageName = Some p0 ->
  d ∈ deps_list p0 ->
  let w := run_ops ops w0 in
  manifest w !! packageName = Some p ->
  Package.isExecuted p = true ->
  executed_in (manifest w) d = true.
Proof.
  intros Hclean Hp0 Hd w Hp Hex.
  assert (Hsteps : steps (manifest w0) (manifest w)) by apply run_ops_steps.
  assert (Hcons : consistent (manifest w)).
  { eapply consistent_steps; [exact Hsteps | by apply clean_consistent]. }
  assert (Hacc : accounted (manifest w0) (manifest w)).
  { eapply accounted_steps; [exact Hsteps | apply accounted_refl]. }
  destruct (Hcons packageName p Hp) as (_ & Hready & Hexr & _).
  destruct (Hacc packageName p0 p d Hp0 Hp Hd) as [Hin|?]; [|done].
  rewrite (Hready (Hexr Hex)) in Hin. by apply elem_of_nil in Hin.
Qed.

(** ** The listings *)

(** The run of the loop of a listing: the names that pass the test, in the
    order of the enumeration; the state is not touched. *)
Lemma listing_run (test : Package.t -> bool) (names found : list string)
    (w : World) :
  for_fold names found (push_if test) w =
  (Ok (found ++ filter (fun x => holds test (manifest w) x = true) names), w).
Proof.
  revert found. induction names as [|x names IH]; intros found; cbn [for_fold].
  { by rewrite ret_run, app_nil_r. }
  unfold push_if at 1. mrun. rewrite filter_cons.
  assert (Hh : holds test (manifest w) x =
               match manifest w !! x with Some p => test p | None => false end)
    by done.
  destruct (manifest w !! x) as [p|]; mrun.
  - destruct (test p); mrun; rewrite IH.
    + rewrite decide_True by done. by rewrite <- app_assoc.
    + rewrite decide_False; [done|]. by rewrite Hh.
  - rewrite IH. rewrite decide_False; [done|]. by rewrite Hh.
Qed.

Lemma elem_of_listing (test : Package.t -> bool) (names : list string)
    (m : gmap string Package.t) (x : string) :
  x ∈ filter (fun x => holds test m x = true) names ↔
  x ∈ names ∧ ∃ p, m !! x = Some p ∧ test p = true.
Proof.
  rewrite list_elem_of_filter. unfold holds. split.
  - intros [Hx Hin]. split; [done|]. destruct (m !! x) as [p|]; [|done]. by exists p.
  - intros [Hin (p & Hp & Ht)]. split; [|done]. by rewrite Hp.
Qed.

(** X12.  The three listings return, without touching the state, the names
    of the enumeration whose hash is marked loaded, is marked executed, or
    carries a failure mark, in the order of the enumeration.  In every state
    that the loader reaches from a manifest on which it has not worked yet,
    no package is listed both as executed and as failed. *)
Theorem listings_of_executed_and_failed_are_disjoint (w0 : World)
    (ops : list (nat * Op)) (names : list string) :
  clean (manifest w0) ->
  let w := run_ops ops w0 in
  loadedPackages names w =
    (Ok (filter (fun x => holds Package.isLoaded (manifest w) x = true) names), w) ∧
  executedPackages names w =
    (Ok (filter (fun x => holds Package.isExecuted (manifest w) x = true) names), w) ∧
  failedPackages names w =
    (Ok (filter (fun x => holds marked_failed (manifest w) x = true) names), w) ∧
  ∀ x, x ∈ filter (fun x => holds Package.isExecuted (manifest w) x = true) names ->
       x ∉ filter (fun x => holds marked_failed (manifest w) x = true) names.
Proof.
  intros Hclean w.
  split; [apply (listing_run _ _ [])|]. split; [apply (listing_run _ _ [])|].
  split; [apply (listing_run _ _ [])|].
  intros x [_ (p & Hp & Hex)]%elem_of_listing [_ (p' & Hp' & Hfail)]%elem_of_listing.
  assert (p' = p) as -> by congruence.
  assert (Hcons : consistent (manifest w)).
  { eapply consistent_steps; [apply run_ops_steps | by apply clean_consistent]. }
  destruct (consistent_executed _ _ _ Hcons Hp Hex) as (Hdne & Hfd & Hdf).
  unfold marked_failed in Hfail. rewrite Hdne, Hfd, Hdf in Hfail.
  rewrite bool_decide_eq_false_2 in Hfail by (by intros [? ?]). done.
Qed.

(** ** What lasts: locations, marks, sources, and the code still to run *)

Lemma source_kept_refl (s : option (list (string * string))) : source_kept s s.
Proof. destruct s; [|done]. intros part. by left. Qed.

Lemma source_kept_trans (s1 s2 s3 : option (list (string * string))) :
  source_kept s1 s2 -> source_kept s2 s3 -> source_kept s1 s3.
Proof.
  destruct s1 as [src1|], s2 as [src2|], s3 as [src3|]; try done.
  intros H12 H23 part.
  destruct (H23 part) as [H3|[Hsel H3]]; [|by right].
  destruct (H12 part) as [H2|[Hsel H2]].
  - left. congruence.
  - right. split; [done|]. congruence.
Qed.

(** The source left by the accumulation loop. *)
Lemma source_kept_accumulate (src : list (string * string)) :
  source_kept (Some src) (Some (accumulate (parts_for PACKAGE_MODE) "" src).2).
Proof.
  intros part. rewrite accumulate_source. case_bool_decide as Hsel.
  - right. by destruct Hsel.
  - by left.
Qed.

Lemma spec_code_nonempty (flags : Z) (src : list (string * string)) :
  nonempty (spec_code flags src) = true ->
  ∃ part, part ∈ parts_for flags ∧ is_Some (code_of src part).
Proof.
  intros Hcode.
  destruct (decide (Exists (fun part => is_Some (code_of src part)) (parts_for flags)))
    as [Hex|Hnex].
  - apply Exists_exists in Hex as (part & Hin & Hsome). by exists part.
  - exfalso. rewrite <- accumulate_spec_code in Hcode.
    rewrite accumulate_nothing in Hcode; [done|].
    intros part Hin. destruct (code_of src part) eqn:Hc; [|done].
    exfalso. apply Hnex, Exists_exists. exists part. split; [done|]. by rewrite Hc.
Qed.

Lemma source_kept_has_code (p p' : Package.t) :
  source_kept (Package.source p) (Package.source p') ->
  has_code p' = true -> has_code p = true.
Proof.
  unfold has_code.
  destruct (Package.source p) as [src|], (Package.source p') as [src'|]; try done.
  intros Hkept Hcode. apply spec_code_nonempty in Hcode as (part & Hin & [text Htext]).
  destruct (nonempty (spec_code PACKAGE_MODE src)) eqn:Hempty; [done|].
  pose proof (spec_code_empty _ _ Hempty part Hin) as Hnone.
  unfold code_of in *.
  destruct (Hkept part) as [Heq|[_ Heq]]; rewrite Heq in Htext; [congruence|done].
Qed.

Lemma lasting_refl (p : Package.t) : lasting p p.
Proof. repeat split; auto. apply source_kept_refl. Qed.

Lemma lasting_trans (p1 p2 p3 : Package.t) :
  lasting p1 p2 -> lasting p2 p3 -> lasting p1 p3.
Proof.
  intros (A1 & A2 & A3 & A4 & A5 & A6 & A7) (B1 & B2 & B3 & B4 & B5 & B6 & B7).
  repeat split; [congruence|congruence|auto..|].
  by eapply source_kept_trans.
Qed.

(** *** The packages that hold code *)

Lemma elem_of_with_code (m : gmap string Package.t) (x : string) :
  x ∈ with_code m ↔ ∃ p, m !! x = Some p ∧ has_code p = true.
Proof.
  unfold with_code. rewrite elem_of_dom. split.
  - intros [p [Hp Hc]%map_lookup_filter_Some]. by exists p.
  - intros (p & Hp & Hc). exists p. by apply map_lookup_filter_Some.
Qed.

Lemma with_code_rel (m m' : gmap string Package.t) :
  manifest_rel lasting m m' -> with_code m' ⊆ with_code m.
Proof.
  intros Hrel x (p' & Hp' & Hc)%elem_of_with_code. apply elem_of_with_code.
  specialize (Hrel x). rewrite Hp' in Hrel.
  destruct (m !! x) as [p|]; [|done]. exists p. split; [done|].
  destruct Hrel as (_ & _ & _ & _ & _ & _ & Hsrc). by eapply source_kept_has_code.
Qed.

Lemma with_code_size (m : gmap string Package.t) :
  (size (with_code m) <= size m)%nat.
Proof.
  unfold with_code. rewrite size_dom. apply map_size_filter.
Qed.

(** A package that held code and holds none any more is one package less. *)
Lemma with_code_used (m m' : gmap string Package.t) (name : string) (p p' : Package.t) :
  manifest_rel lasting m m' ->
  m !! name = Some p -> has_code p = true ->
  m' !! name = Some p' -> has_code p' = false ->
  (size (with_code m') + 1 <= size (with_code m))%nat.
Proof.
  intros Hrel Hp Hc Hp' Hc'.
  assert (Hsub : with_code m' ⊆ with_code m ∖ {[name]}).
  { intros x Hx. apply elem_of_difference. split; [by eapply with_code_rel|].
    intros ->%elem_of_singleton. apply elem_of_with_code in Hx as (q & Hq & Hcq).
    congruence. }
  apply subseteq_size in Hsub.
  assert (Hin : {[name]} ⊆ with_code m).
  { apply singleton_subseteq_l, elem_of_with_code. by exists p. }
  rewrite size_difference in Hsub by done. rewrite size_singleton in Hsub.
  assert (size (with_code m) ≠ 0)%nat.
  { intros H0. apply size_empty_inv in H0.
    assert (name ∈ with_code m) by (apply elem_of_with_code; by exists p).
    set_solver. }
  lia.
Qed.

(** *** Worlds that come later *)

Lemma advances_refl (w : World) : advances w w.
Proof.
  split; [|split].
  - apply manifest_rel_refl, lasting_refl.
  - exists []. by rewrite app_nil_r.
  - done.
Qed.

Lemma advances_trans (w1 w2 w3 : World) :
  advances w1 w2 -> advances w2 w3 -> advances w1 w3.
Proof.
  intros (R1 & [tr1 T1] & S1) (R2 & [tr2 T2] & S2). split; [|split].
  - eapply manifest_rel_trans; [apply lasting_trans|done..].
  - exists (tr1 ++ tr2). by rewrite T2, T1, app_assoc.
  - lia.
Qed.

(** A write that leaves what lasts, and an event that is not a run of
    code. *)
Lemma advances_alter (f : Package.t -> Package.t) (name : string) (w : World) :
  (∀ p, manifest w !! name = Some p -> lasting p (f p)) ->
  advances w (mkWorld (alter f name (manifest w)) (trace w)).
Proof.
  intros Hf.
  assert (Hrel : manifest_rel lasting (manifest w) (alter f name (manifest w))).
  { intros x. rewrite lookup_alter. case_decide as Hx.
    - subst x. destruct (manifest w !! name) as [p|] eqn:Hp; simpl; [by apply Hf|done].
    - destruct (manifest w !! x); [apply lasting_refl|done]. }
  split; [done|]. split.
  - exists []. by rewrite app_nil_r.
  - cbn [manifest trace]. apply with_code_rel, subseteq_size in Hrel. lia.
Qed.

Lemma advances_event (e : Event) (w : World) :
  match e with ExecScript _ => False | _ => True end ->
  advances w (mkWorld (manifest w) (trace w ++ [e])).
Proof.
  intros He. split; [|split].
  - apply manifest_rel_refl, lasting_refl.
  - by exists [e].
  - cbn [manifest trace]. rewrite executed_codes_app.
    destruct e; try done; cbn; rewrite app_nil_r; lia.
Qed.

Lemma advancing_ret {A} (a : A) : advancing (ret a).
Proof. intros w. apply advances_refl. Qed.

Lemma advancing_throw {A} (err : string) : advancing (@throw A err).
Proof. intros w. apply advances_refl. Qed.

Lemma advancing_out_of_fuel {A} : advancing (@out_of_fuel A).
Proof. intros w. apply advances_refl. Qed.

Lemma advancing_get (name : string) : advancing (packages_get name).
Proof. intros w. apply advances_refl. Qed.

Lemma advancing_bind {A B} (c : M A) (k : A -> M B) :
  advancing c -> (∀ a, advancing (k a)) -> advancing (x <- c ;; k x).
Proof.
  intros Hc Hk w. unfold bind. specialize (Hc w).
  destruct (c w) as [[a| |] w']; cbn [snd] in *; [|done..].
  eapply advances_trans; [exact Hc | apply Hk].
Qed.

Lemma advancing_update (name : string) (f : Package.t -> Package.t) :
  (∀ p, lasting p (f p)) -> advancing (update name f).
Proof. intros Hf w. apply advances_alter. intros p _. apply Hf. Qed.

Lemma advancing_emit (e : Event) :
  match e with ExecScript _ => False | _ => True end -> advancing (emit e).
Proof. intros He w. by apply advances_event. Qed.

Lemma advancing_info (msg : string) : advancing (info msg).
Proof. by apply advancing_emit. Qed.

Lemma advancing_warn (msg : string) : advancing (warn msg).
Proof. by apply advancing_emit. Qed.

Lemma advancing_log_info (msg : string) : advancing (log_info msg).
Proof. unfold log_info. destruct log; [apply advancing_info | apply advancing_ret]. Qed.

Lemma advancing_log_warn (msg : string) : advancing (log_warn msg).
Proof. unfold log_warn. destruct log; [apply advancing_warn | apply advancing_ret]. Qed.

Lemma advancing_for_each {A} (l : list A) (body : A -> M unit) :
  (∀ x, advancing (body x)) -> advancing (for_each l body).
Proof.
  intros Hbody. induction l as [|x l IH]; cbn [for_each].
  - apply advancing_ret.
  - apply advancing_bind; [apply Hbody | by intros _].
Qed.

Lemma advancing_for_fold {A B} (l : list A) (b : B) (body : B -> A -> M B) :
  (∀ b x, advancing (body b x)) -> advancing (for_fold l b body).
Proof.
  intros Hbody. revert b. induction l as [|x l IH]; intros b; cbn [for_fold].
  - apply advancing_ret.
  - apply advancing_bind; [apply Hbody | intros b'; apply IH].
Qed.

(** The writes of the loader, but for the deletion of categories from the
    source, leave what lasts. *)
Ltac solve_lasting :=
  intros; unfold lasting, poison, failed_list; cbn;
  repeat split; auto using source_kept_refl;
  try (intros ? ?; apply elem_of_app; by left); try (intros; by eexists).

Ltac adv :=
  repeat match goal with
    | |- advancing (bind _ _) => apply advancing_bind; [|intros ?]
    | |- advancing (ret _) => apply advancing_ret
    | |- advancing (throw _) => apply advancing_throw
    | |- advancing out_of_fuel => apply advancing_out_of_fuel
    | |- advancing (packages_get _) => apply advancing_get
    | |- advancing (log_info _) => apply advancing_log_info
    | |- advancing (log_warn _) => apply advancing_log_warn
    | |- advancing (info _) => apply advancing_info
    | |- advancing (warn _) => apply advancing_warn
    | |- advancing (emit _) => apply advancing_emit; exact I
    | |- advancing (update _ _) => apply advancing_update; solve_lasting
    | |- advancing (for_each _ _) => apply advancing_for_each; intros ?
    | |- advancing (for_fold _ _ _) => apply advancing_for_fold; intros ? ?
    | |- advancing (match ?x with _ => _ end) => destruct x
    | |- advancing _ => assumption
    end.

Lemma isLoaded_advancing (packageName : string + Package.t) :
  advancing (isLoaded packageName).
Proof. unfold isLoaded. adv. Qed.

Lemma registerCallback_advancing (packageName : string) (target method : value)
    (args : list value) :
  advancing (registerCallbackForPackage packageName target method args).
Proof. unfold registerCallbackForPackage. adv. Qed.

Lemma invokeCallbacks_advancing (packageName : string) :
  advancing (_sc_invokeCallbacksForPackage packageName).
Proof. unfold _sc_invokeCallbacksForPackage, invoke_callback. adv. Qed.

Lemma dependenciesMet_advancing (packageName : string) :
  advancing (_sc_dependenciesMetForPackage packageName).
Proof. unfold _sc_dependenciesMetForPackage, check_dependency. adv. Qed.

Lemma loadJavaScript_advancing (packageName : string) :
  advancing (loadJavaScript packageName).
Proof. unfold loadJavaScript, _sc_urlForPackage. adv. Qed.

Lemma loadPackage_with_advancing (evaluate : string -> M unit)
    (packageName : string) (target method : value) (args : list value) :
  (∀ name, advancing (evaluate name)) ->
  advancing (loadPackage_with evaluate packageName target method args).
Proof.
  intros Hev. unfold loadPackage_with.
  pose proof registerCallback_advancing. pose proof invokeCallbacks_advancing.
  pose proof loadJavaScript_advancing. pose proof isLoaded_advancing.
  adv; auto.
Qed.

Lemma didExecute_advancing (loadPackage : string -> M bool) :
  (∀ name, advancing (loadPackage name)) ->
  ∀ packageName, advancing (_sc_packageDidExecute_with loadPackage packageName).
Proof.
  intros Hlp packageName. unfold _sc_packageDidExecute_with, notify_dependent.
  pose proof invokeCallbacks_advancing. pose proof dependenciesMet_advancing.
  adv; auto.
Qed.

(** The evaluation: the deletion of the used categories and the run of the
    code go together, and use up the package. *)
Lemma evaluate_advancing (didExecute : string -> M unit) :
  (∀ name, advancing (didExecute name)) ->
  ∀ packageName,
    advancing (_sc_evaluateJavaScriptForPackage_with didExecute packageName).
Proof.
  intros Hd packageName. unfold _sc_evaluateJavaScriptForPackage_with.
  apply advancing_bind; [apply advancing_log_info|]. intros _ w0.
  rewrite bind_get.
  destruct (manifest w0 !! packageName) as [p|] eqn:Hp; [|apply advancing_log_warn].
  destruct (Package.isExecuted p); [apply advancing_warn|].
  destruct (Package.source p) as [src|] eqn:Hsrc; [|apply advancing_warn].
  pose proof (accumulate_spec_code PACKAGE_MODE src) as Hcode.
  pose proof (source_kept_accumulate src) as Hkept.
  destruct (accumulate (parts_for PACKAGE_MODE) "" src) as [code src'] eqn:Hacc.
  cbn [fst snd] in Hcode, Hkept. subst code.
  assert (Hlast : lasting p (Package.set_source (Some src') p)).
  { unfold lasting. cbn. rewrite Hsrc. repeat split; auto. }
  destruct (nonempty (spec_code PACKAGE_MODE src)) eqn:Hnon.
  - unfold execute_code. rewrite bind_update, bind_assoc, bind_emit.
    cbn [manifest trace]. set (w1 := mkWorld _ _).
    assert (Hw1 : advances w0 w1).
    { assert (Hrel : manifest_rel lasting (manifest w0) (manifest w1)).
      { subst w1. cbn [manifest]. rewrite (alter_lookup_insert _ _ p) by done.
        apply (manifest_rel_insert lasting _ _ p); [apply lasting_refl|done..]. }
      split; [done|]. split; [by eexists|].
      assert (Hused : (size (with_code (manifest w1)) + 1 <=
                       size (with_code (manifest w0)))%nat).
      { apply (with_code_used _ _ packageName p (Package.set_source (Some src') p));
          [done|done| | |].
        - unfold has_code. by rewrite Hsrc.
        - subst w1. cbn [manifest]. by rewrite lookup_alter_eq, Hp.
        - unfold has_code. cbn [Package.source Package.set_source].
          destruct (nonempty (spec_code PACKAGE_MODE src')) eqn:Hleft; [|done].
          apply spec_code_nonempty in Hleft as (part & Hin & [text Htext]).
          pose proof (accumulate_consumes (parts_for PACKAGE_MODE) "" src part Hin) as Hc.
          rewrite Hacc in Hc. cbn [snd] in Hc. congruence. }
      revert Hused. subst w1. cbn [manifest trace].
      rewrite executed_codes_app, length_app.
      change (length (executed_codes [ExecScript (spec_code PACKAGE_MODE src)]))
        with 1%nat.
      lia. }
    eapply advances_trans; [exact Hw1|].
    assert (Hrest : advancing
              (_ <- match evalThrows (spec_code PACKAGE_MODE src) with
                    | Some err =>
                        warn (fmt "Caught error when processing package source '%@'"
                                [packageName] +:+ fmt ": %@" [err]) ;;
                        log_info (spec_code PACKAGE_MODE src) ;;
                        update packageName (Package.set_isExecuted false) ;;
                        update packageName (Package.set_didFailToEvaluate true)
                    | None => ret tt
                    end ;; didExecute packageName)).
    { adv; apply Hd. }
    apply Hrest.
  - eapply advances_trans.
    { apply (advances_alter (Package.set_source (Some src')) packageName w0).
      intros p' Hp'. by assert (p' = p) as -> by congruence. }
    rewrite bind_update. cbn [manifest trace].
    assert (Hrest : advancing
              (update packageName (Package.set_isExecuted false) ;;
               log_warn ("SC.Package._sc_evaluateJavaScriptForPackage() " +:+
                         fmt "no package source found for given package mode for package '%@'"
                           [packageName]))).
    { adv. }
    apply Hrest.
Qed.

Lemma loadPackage_advancing (fuel : nat) (packageName : string)
    (target method : value) (args : list value) :
  advancing (loadPackage fuel packageName target method args).
Proof.
  revert packageName target method args.
  induction fuel as [|fuel IH]; intros packageName target method args;
    cbn [loadPackage].
  - apply advancing_out_of_fuel.
  - apply loadPackage_with_advancing, evaluate_advancing, didExecute_advancing.
    intros name. apply IH.
Qed.

Lemma packageDidLoad_advancing (fuel : nat) (packageName : string) :
  advancing (_sc_packageDidLoad fuel packageName).
Proof.
  assert (Hreload : ∀ name, advancing (reload fuel name))
    by (intros name; apply loadPackage_advancing).
  assert (Heval : ∀ name, advancing (_sc_evaluateJavaScriptForPackage fuel name))
    by (intros name; apply evaluate_advancing, didExecute_advancing, Hreload).
  pose proof dependenciesMet_advancing.
  unfold _sc_packageDidLoad, _sc_loadDependenciesForPackage, load_dependency.
  adv; auto.
Qed.

Lemma run_op_advancing (fuel : nat) (op : Op) : advancing (run_op fuel op).
Proof.
  pose proof loadPackage_advancing. pose proof registerCallback_advancing.
  pose proof loadJavaScript_advancing. pose proof isLoaded_advancing.
  pose proof packageDidLoad_advancing.
  destruct op; cbn [run_op]; adv; auto.
Qed.

Lemma run_ops_advances (ops : list (nat * Op)) (w : World) :
  advances w (run_ops ops w).
Proof.
  revert w. induction ops as [|[fuel op] ops IH]; intros w; cbn [run_ops].
  - apply advances_refl.
  - eapply advances_trans; [apply run_op_advancing | apply IH].
Qed.

Lemma loadAll_advancing (fuel : nat) (names : list string) :
  advancing (loadAll fuel names).
Proof.
  assert (Hreload : ∀ name, advancing (reload fuel name))
    by (intros name; apply loadPackage_advancing).
  unfold loadAll. adv; auto.
Qed.

(** X13.  Over any sequence of calls, each run of code uses up a package
    that held code for the mode: the number of codes run, added to the number
    of packages that still hold code to run, never grows.  The packages that
    hold code afterwards are among those that held code before, and are no
    more than the packages of the manifest: so no more codes are run than
    there were packages holding code.  The trace is only ever extended. *)
Theorem code_runs_use_up_packages (ops : list (nat * Op)) (w : World) :
  let w' := run_ops ops w in
  (length (executed_codes (trace w')) + size (with_code (manifest w')) <=
   length (executed_codes (trace w)) + size (with_code (manifest w)))%nat ∧
  with_code (manifest w') ⊆ with_code (manifest w) ∧
  (size (with_code (manifest w)) <= size (manifest w))%nat ∧
  ∃ tr, trace w' = trace w ++ tr.
Proof.
  intros w'. destruct (run_ops_advances ops w) as (Hrel & Htr & Hsize).
  split; [done|]. split; [by apply with_code_rel|].
  split; [apply with_code_size | done].
Qed.


(** X15.  The marks that the listings read are never taken back: over any
    sequence of calls, a name listed by [loadedPackages], by
    [executedPackages] or by [failedPackages] is still listed by it
    afterwards. *)
Theorem listings_only_grow (ops : list (nat * Op)) (names : list string) (w : World) :
  let w' := run_ops ops w in
  ∃ loaded loaded' executed executed' failed failed',
    (loadedPackages names w).1 = Ok loaded ∧
    (loadedPackages names w').1 = Ok loaded' ∧
    (executedPackages names w).1 = Ok executed ∧
    (executedPackages names w').1 = Ok executed' ∧
    (failedPackages names w).1 = Ok failed ∧
    (failedPackages names w').1 = Ok failed' ∧
    loaded ⊆ loaded' ∧ executed ⊆ executed' ∧ failed ⊆ failed'.
Proof.
  intros w'. unfold loadedPackages, executedPackages, failedPackages.
  rewrite !listing_run. cbn [fst app].
  do 6 eexists. do 6 (split; [reflexivity|]).
  destruct (run_ops_advances ops w) as (Hrel & _).
  pose proof (run_ops_steps ops w) as Hsteps.
  assert (Hkeep : ∀ x p, manifest w !! x = Some p ->
            ∃ p', manifest w' !! x = Some p' ∧ lasting p p' ∧
                  (Package.isExecuted p = true -> Package.isExecuted p' = true) ∧
                  (Package.didFailToEvaluate p = true ->
                   Package.didFailToEvaluate p' = true)).
  { intros x p Hp. specialize (Hrel x). fold w' in Hrel. rewrite Hp in Hrel.
    destruct (manifest w' !! x) as [p'|] eqn:Hp'; [|done].
    exists p'. split; [done|]. split; [done|]. split.
    - intros Hex.
      pose proof (executed_in_steps _ _ x Hsteps) as H. unfold executed_in in H.
      fold w' in H. rewrite Hp, Hp' in H. by apply H.
    - intros Hf.
      pose proof (failed_in_steps _ _ x Hsteps) as H. unfold failed_in in H.
      fold w' in H. rewrite Hp, Hp' in H. by apply H. }
  split; [|split].
  - intros x [Hin (p & Hp & Ht)]%elem_of_listing. apply elem_of_listing.
    split; [done|]. destruct (Hkeep x p Hp) as (p' & Hp' & Hl & _).
    exists p'. split; [done|]. destruct Hl as (_ & _ & Hloaded & _). auto.
  - intros x [Hin (p & Hp & Ht)]%elem_of_listing. apply elem_of_listing.
    split; [done|]. destruct (Hkeep x p Hp) as (p' & Hp' & _ & Hex & _).
    exists p'. split; [done|]. auto.
  - intros x [Hin (p & Hp & Ht)]%elem_of_listing. apply elem_of_listing.
    split; [done|]. destruct (Hkeep x p Hp) as (p' & Hp' & Hl & _ & Hf).
    exists p'. split; [done|]. destruct Hl as (_ & _ & _ & Hdne & _ & Hfd & _).
    unfold marked_failed in *.
    apply orb_true_iff in Ht as [[Ht|Ht]%orb_true_iff|Ht].
    + apply bool_decide_eq_true in Ht. rewrite bool_decide_eq_true_2 by auto. done.
    + rewrite (Hdne Ht). by rewrite orb_true_r.
    + rewrite (Hf Ht). by rewrite orb_true_r.
Qed.

(** ** [loadAll] *)

Lemma set_isLoading_twice (p : Package.t) :
  Package.set_isLoading true (Package.set_isLoading true p) =
  Package.set_isLoading true p.
Proof. done. Qed.

(** X16.  [loadAll] on a manifest of which no package is loaded requests
    every package of the enumeration, in its order: it returns, one script
    element is appended for each name, every package named is marked as
    loading and nothing else is changed; no code is run and no callback is
    called. *)
Theorem loadAll_requests_every_unloaded_package (fuel : nat) (names : list string)
    (w : World) :
  (∀ x, x ∈ names -> ∃ p, manifest w !! x = Some p ∧ Package.isLoaded p = false) ->
  let r := loadAll (S fuel) names w in
  r.1 = Ok tt ∧
  appended (trace r.2) =
    appended (trace w) ++ ((fun x => url_of <$> manifest w !! x) <$> names) ∧
  invoked (trace r.2) = invoked (trace w) ∧
  executed_codes (trace r.2) = executed_codes (trace w) ∧
  ∀ x, manifest r.2 !! x =
       if bool_decide (x ∈ names)
       then Package.set_isLoading true <$> manifest w !! x
       else manifest w !! x.
Proof.
  revert w. induction names as [|y names IH]; intros w Hall r; subst r.
  { unfold loadAll. cbn [for_each]. rewrite ret_run. cbn [fst snd fmap list_fmap].
    rewrite app_nil_r. repeat split; done. }
  destruct (Hall y) as (p & Hp & Hloaded); [apply elem_of_cons; by left|].
  set (w1 := mkWorld (<[y := Package.set_isLoading true p]> (manifest w))
               (trace w ++
                (if log then [LogInfo (fmt "SC.Package.loadPackage() for package '%@'"
                                         [y])] else []) ++
                [ScriptAppended (Some (url_of p))])).
  assert (Hrun : loadAll (S fuel) (y :: names) w = loadAll (S fuel) names w1).
  { unfold loadAll. cbn [for_each]. unfold reload at 1. rewrite bind_assoc.
    erewrite bind_run by (by apply (loadPackage_unloaded_run fuel y p)).
    rewrite registered_undefined. by mrun. }
  rewrite Hrun.
  specialize (IH w1). cbv zeta in IH.
  destruct IH as (Hok & Happ & Hinv & Hexe & Hman).
  { intros x Hx. subst w1. cbn [manifest]. rewrite lookup_insert.
    case_decide as Hxy; [subst; by eexists|].
    apply Hall, elem_of_cons. by right. }
  split; [done|]. split; [|split; [|split]].
  - rewrite Happ. subst w1. cbn [manifest trace fmap list_fmap]. sift.
    rewrite <- app_assoc. cbn [app]. rewrite Hp. do 2 f_equal.
    apply list_fmap_ext. intros i x _. rewrite lookup_insert.
    case_decide as Hxy; [|done]. subst x. by rewrite Hp.
  - rewrite Hinv. subst w1. cbn [trace]. by sift.
  - rewrite Hexe. subst w1. cbn [trace]. by sift.
  - intros x. rewrite Hman. subst w1. cbn [manifest]. rewrite lookup_insert.
    case_decide as Hxy.
    + subst x. rewrite (bool_decide_eq_true_2 (y ∈ y :: names))
        by (apply elem_of_cons; by left).
      rewrite Hp. by destruct (bool_decide (y ∈ names)).
    + destruct (decide (x ∈ names)) as [Hin|Hnin].
      * rewrite !bool_decide_eq_true_2; [done| |done]. apply elem_of_cons. by right.
      * rewrite !bool_decide_eq_false_2; [done| |done].
        intros [?|?]%elem_of_cons; [congruence|done].
Qed.

(** ** The loader returns *)


Lemma good_run {A} (c : M A) (w : World) (D : gset string) (fuel : nat) :
  (∀ m0, steps m0 (manifest w) -> steps m0 (manifest (c w).2)) ->
  good D fuel (manifest w) -> good D fuel (manifest (c w).2).
Proof. intros Hc Hgood. eapply good_steps; [apply Hc, steps_refl | done]. Qed.







(** ** The answer of [loadPackage] *)

(** X18.  When [loadPackage] returns, its answer says whether the package
    was, when the call was made, in the manifest, loaded and ready; it is
    true for a package that is ready but carries a failure mark, and says
    nothing of whether the package is executed. *)
Theorem loadPackage_answers_loaded_and_ready (fuel : nat) (packageName : string)
    (target method : value) (args : list value) (w : World) (b : bool) :
  (loadPackage (S fuel) packageName target method args w).1 = Ok b ->
  b = holds (fun p => Package.isLoaded p && Package.isReady p) (manifest w)
        packageName.
Proof.
  assert (Hthen : ∀ (c : M unit) (v : bool) (w1 : World),
            ((c ;; ret v) w1).1 = Ok b -> b = v).
  { intros c v w1. unfold bind. destruct (c w1) as [[[]| |] w2]; cbn; congruence. }
  cbn [loadPackage]. unfold loadPackage_with, holds. mrun.
  destruct (manifest w !! packageName) as [p|]; mrun; [|congruence].
  unfold isLoaded. mrun. destruct (Package.isLoaded p); cbn [andb]; mrun.
  - destruct (Package.isReady p); mrun; [|congruence].
    destruct (Package.doNotExecute p
              || bool_decide (is_Some (Package.failedDependencies p))
              || Package.didFailToEvaluate p); mrun; [congruence|].
    destruct (Package.isExecuted p).
    + rewrite <- bind_assoc. apply Hthen.
    + apply Hthen.
  - rewrite <- bind_assoc. apply Hthen.
Qed.

(** ** A dependent that does not wait *)


(** ** Packages that never execute *)

Lemma failed_steps (m m' : gmap string Package.t) (name : string) (p : Package.t) :
  steps m m' -> m !! name = Some p ->
  Package.didFailToEvaluate p = true -> Package.isExecuted p = false ->
  ∃ p', m' !! name = Some p' ∧
        Package.didFailToEvaluate p' = true ∧ Package.isExecuted p' = false.
Proof.
  intros Hsteps. revert p.
  induction Hsteps as [m|m1 m2 m3 Hstep _ IH]; intros p Hp Hfail Hex.
  { by exists p. }
  pose proof (step_lookup m1 m2 name Hstep) as Hal. rewrite Hp in Hal.
  destruct (m2 !! name) as [p2|] eqn:Hp2; [|done].
  destruct Hal as (_ & Hf & He & _).
  apply (IH p2); [done|by apply Hf|].
  destruct (Package.isExecuted p2) eqn:Hex2; [|done].
  destruct (He eq_refl) as [?|[? _]]; congruence.
Qed.

(** X20.  In every state that the loader reaches from a manifest on which
    it has not worked yet, a package that carries a failure mark (its code
    has thrown, or it has been poisoned by a dependency whose code has
    thrown) is not executed, and is never executed afterwards, whatever is
    called: there is no second attempt. *)
Theorem package_marked_failed_is_never_executed (w0 : World)
    (ops ops' : list (nat * Op)) (packageName : string) (p : Package.t) :
  clean (manifest w0) ->
  let w := run_ops ops w0 in
  manifest w !! packageName = Some p ->
  marked_failed p = true ->
  Package.isExecuted p = false ∧
  ∃ p', manifest (run_ops ops' w) !! packageName = Some p' ∧
        Package.isExecuted p' = false.
Proof.
  intros Hclean w Hp Hmark.
  assert (Hcons : consistent (manifest w)).
  { eapply consistent_steps; [apply run_ops_steps | by apply clean_consistent]. }
  destruct (Hcons packageName p Hp) as (Hfail & Hready & Hexr & Hpois).
  pose proof (run_ops_steps ops' w) as Hsteps.
  destruct (Package.didFailToEvaluate p) eqn:Hdf.
  { split; [by apply Hfail|].
    destruct (failed_steps _ _ packageName p Hsteps Hp Hdf (Hfail eq_refl))
      as (p' & Hp' & _ & Hex'). by exists p'. }
  assert (Hp0 : poisoned p = true).
  { unfold marked_failed in Hmark. rewrite Hdf, orb_false_r in Hmark.
    unfold poisoned. by rewrite orb_comm. }
  destruct (Hpois Hp0) as (x & Hx & Hfx).
  assert (Hnr : Package.isReady p = false).
  { destruct (Package.isReady p); [|done]. rewrite (Hready eq_refl) in Hx.
    by apply elem_of_nil in Hx. }
  assert (Hne : Package.isExecuted p = false).
  { destruct (Package.isExecuted p); [|done]. by rewrite (Hexr eq_refl) in Hnr. }
  split; [done|].
  assert (Hblocked : blocked x packageName (manifest w)).
  { unfold failed_in in Hfx. destruct (manifest w !! x) as [a|] eqn:Ha; [|done].
    exists a, p. destruct (Hcons x a Ha) as (Hfa & _). repeat split; auto. }
  destruct (blocked_steps _ _ _ _ Hsteps Hblocked) as (a' & p' & _ & Hp' & _ & _ & _ & Hex' & _).
  by exists p'.
Qed.

Lemma none_executed_step (S : gset string) (m0 m m' : gmap string Package.t) :
  (∀ x, x ∈ S -> ∃ p0 d, m0 !! x = Some p0 ∧ d ∈ deps_list p0 ∧ d ∈ S) ->
  consistent m -> accounted m0 m -> none_executed S m -> step m m' ->
  none_executed S m'.
Proof.
  intros Hknot Hcons Hacc Hnone Hstep x Hx.
  destruct (executed_in m' x) eqn:Hex'; [exfalso|done].
  pose proof (step_lookup m m' x Hstep) as Hal. unfold executed_in in Hex'.
  destruct (m' !! x) as [p'|] eqn:Hp'; [|done].
  destruct (m !! x) as [p|] eqn:Hp; [|done].
  destruct Hal as (_ & _ & He & _).
  pose proof (Hnone x Hx) as Hexx. unfold executed_in in Hexx. rewrite Hp in Hexx.
  destruct (He Hex') as [?|[_ Hready]]; [congruence|].
  destruct (Hcons x p Hp) as (_ & Hdeps & _). specialize (Hdeps Hready).
  destruct (Hknot x Hx) as (p0 & d & Hp0 & Hd & HdS).
  destruct (Hacc x p0 p d Hp0 Hp Hd) as [Hin|Hexd].
  - rewrite Hdeps in Hin. by apply elem_of_nil in Hin.
  - by rewrite (Hnone d HdS) in Hexd.
Qed.

(** X21.  Take a set of packages each of which lists, in the manifest, a
    package of the set among its dependencies: a package that depends on
    itself, or packages whose dependencies form a cycle.  Starting from a
    manifest on which the loader has not worked yet, and whatever is called,
    no package of the set is ever executed. *)
Theorem packages_in_a_dependency_cycle_never_execute (S : gset string)
    (w0 : World) (ops : list (nat * Op)) (x : string) :
  clean (manifest w0) ->
  (∀ x, x ∈ S -> ∃ p0 d, manifest w0 !! x = Some p0 ∧ d ∈ deps_list p0 ∧ d ∈ S) ->
  x ∈ S ->
  executed_in (manifest (run_ops ops w0)) x = false.
Proof.
  intros Hclean Hknot Hx.
  pose proof (run_ops_steps ops w0) as Hsteps.
  assert (Hinv : consistent (manifest (run_ops ops w0)) ∧
                 accounted (manifest w0) (manifest (run_ops ops w0)) ∧
                 none_executed S (manifest (run_ops ops w0))).
  { revert Hsteps. generalize (manifest (run_ops ops w0)). intros m Hsteps.
    apply rtc_nsteps in Hsteps as [n Hsteps].
    revert m Hsteps. induction n as [|n IH]; intros m Hsteps.
    - inversion Hsteps; subst. split; [by apply clean_consistent|].
      split; [apply accounted_refl|].
      intros y Hy. unfold executed_in.
      destruct (manifest w0 !! y) as [p|] eqn:Hp; [|done].
      pose proof (Hclean y p Hp) as Hc. unfold clean_package in Hc. cbn beta in Hc.
      destruct (Package.isExecuted p); [|done].
      by rewrite !andb_false_r in Hc.
    - apply nsteps_inv_r in Hsteps as (m1 & Hsteps & Hstep).
      destruct (IH m1 Hsteps) as (Hcons & Hacc & Hnone).
      split; [by eapply consistent_step|]. split; [by eapply accounted_step|].
      by eapply none_executed_step. }
  by apply Hinv.
Qed.


End Loader.

(** ** The theorems at work on the small manifest *)

(** [P] depends on [A], which is executed: the answer is true. *)
Lemma dependenciesMet_iff_all_executed_witness :
  (_sc_dependenciesMetForPackage false "P" met_world).1 = Ok true.
Proof.
  apply (proj1 (dependenciesMet_iff_all_executed false "P" met_P met_world eq_refl)).
  reflexivity.
Defined.

(** C1 as stated fails on an empty dependency list: the answer is true and
    the [dependencies] property is still there. *)
Lemma dependenciesMet_keeps_empty_list :
  let r := _sc_dependenciesMetForPackage false "P" empty_deps_world in
  r.1 = Ok true ∧
  ∃ p', manifest r.2 !! "P" = Some p' ∧ Package.dependencies p' = Some [].
Proof. vm_compute. split; [reflexivity|]. eexists. split; reflexivity. Qed.



(** [A] throws while [B] waits on it alone. *)
Lemma failed_dependency_poisons_dependent_witness :
  let r := _sc_evaluateJavaScriptForPackage false PACKAGE_MODE_NORMAL eval_fail
             apply_ok 2 "A" waiting_world in
  (r.1 = Ok tt ∧ ∃ b1, manifest r.2 !! "B" = Some b1 ∧ poisoned_by "A" b1) ∧
  ∀ ops : list (nat * Op),
    ∃ b2, manifest (run_ops false PACKAGE_MODE_NORMAL eval_fail apply_ok ops r.2)
            !! "B" = Some b2 ∧
          Package.isExecuted b2 = false.
Proof.
  pose proof (failed_dependency_poisons_dependent false PACKAGE_MODE_NORMAL eval_fail
                apply_ok 2 "A" "B" waiting_A waiting_B
                [("views", "v()"); ("controllers", "c()"); ("models", "m()");
                 ("other", "o()")] "ReferenceError" waiting_world
                eq_refl eq_refl eq_refl eq_refl eq_refl eq_refl eq_refl eq_refl
                eq_refl) as (H1 & H2).
  split; [|exact H2]. apply H1.
  - apply list_elem_of_singleton. reflexivity.
  - apply Forall_cons. split; [|apply Forall_nil_2]. by eexists.
Defined.

(** C3, the code at a failing input.  [B], which depends solely on [A], is
    requested; then [A] is requested, its script arrives before the script of
    [B], and its code throws.  [B] is not yet among the dependents of [A]
    when [A] is notified: [B.doNotExecute] is not set and
    [B.failedDependencies] is absent, then and also once the script of [B]
    has arrived and [B] is requested again.  [B] keeps waiting for [A]. *)
Lemma failed_dependency_misses_late_dependent :
  let w1 := run_ops false PACKAGE_MODE_NORMAL eval_fail apply_ok
              [(2%nat, OpLoadPackage "B" (VFunction 1) VUndefined []);
               (2%nat, OpLoadPackage "A" VUndefined VUndefined []);
               (2%nat, OpScriptLoaded "A")] demo_world in
  let w2 := run_ops false PACKAGE_MODE_NORMAL eval_fail apply_ok
              [(2%nat, OpScriptLoaded "B");
               (2%nat, OpLoadPackage "B" VUndefined VUndefined [])] w1 in
  (∃ a, manifest w1 !! "A" = Some a ∧ Package.didFailToEvaluate a = true ∧
        Package.dependents a = None) ∧
  (∃ b, manifest w1 !! "B" = Some b ∧ Package.dependencies b = Some ["A"] ∧
        Package.doNotExecute b = false ∧ Package.failedDependencies b = None) ∧
  (∃ b, manifest w2 !! "B" = Some b ∧ Package.isLoaded b = true ∧
        Package.dependencies b = Some ["A"] ∧
        Package.doNotExecute b = false ∧ Package.failedDependencies b = None).
Proof. vm_compute. repeat split; eexists; repeat split. Qed.

(** The source of [A] lists views first and other last; the code executed is
    in the fixed order. *)
Lemma evaluate_hands_over_fixed_order_witness :
  (∃ w1, _sc_evaluateJavaScriptForPackage_with false PACKAGE_MODE_NORMAL eval_ok
           (fun _ => ret tt) "A" demo_world = ret tt w1 ∧
         executed_codes (trace w1) =
           executed_codes (trace demo_world) ++ ["o();m();c();v()"]) ∧
  spec_code PACKAGE_MODE_NORMAL
    [("views", "v()"); ("controllers", "c()"); ("models", "m()"); ("other", "o()")]
  = "o()" +:+ ";" +:+ "m()" +:+ ";" +:+ "c()" +:+ ";" +:+ "v()".
Proof.
  pose proof (evaluate_hands_over_fixed_order false PACKAGE_MODE_NORMAL eval_ok
                (fun _ => ret tt) "A" demo_A
                [("views", "v()"); ("controllers", "c()"); ("models", "m()");
                 ("other", "o()")] demo_world eq_refl eq_refl eq_refl)
    as (H1 & H2 & _).
  split.
  - exact (H1 eq_refl).
  - exact (H2 "o()" "m()" "c()" "v()" eq_refl eq_refl eq_refl eq_refl eq_refl
             eq_refl eq_refl eq_refl eq_refl).
Defined.

(** The code of [A] throws: the evaluation returns, [A] is marked failed. *)
Lemma evaluation_error_is_caught_witness :
  let r := _sc_evaluateJavaScriptForPackage_with false PACKAGE_MODE_NORMAL eval_fail
             (_sc_packageDidExecute_with false apply_ok
                (reload false PACKAGE_MODE_NORMAL eval_fail apply_ok 1))
             "A" waiting_world in
  r.1 = Ok tt ∧
  ∃ p', manifest r.2 !! "A" = Some p' ∧
        Package.didFailToEvaluate p' = true ∧ Package.isExecuted p' = false ∧
        Package.callbacks p' = None.
Proof.
  pose proof (evaluation_error_is_caught false PACKAGE_MODE_NORMAL eval_fail
                apply_ok (reload false PACKAGE_MODE_NORMAL eval_fail apply_ok 1)
                "A" waiting_A
                [("views", "v()"); ("controllers", "c()"); ("models", "m()");
                 ("other", "o()")] "ReferenceError" waiting_world
                eq_refl eq_refl eq_refl eq_refl eq_refl)
    as (_ & H1 & _ & H2 & _).
  split; [|exact H1].
  apply H2. apply Forall_cons. split; [|apply Forall_nil_2]. by eexists.
Defined.

(** [A] is loaded and executed with one callback; a second call with a new
    callback calls the new callback, and nothing is executed again. *)
Lemma loadPackage_executed_runs_callback_once_witness :
  let w := run_ops false PACKAGE_MODE_NORMAL eval_ok apply_ok
             [(2%nat, OpLoadPackage "A" (VFunction 1) VUndefined []);
              (2%nat, OpScriptLoaded "A")] demo_world in
  let r := loadPackage false PACKAGE_MODE_NORMAL eval_ok apply_ok 1 "A"
             (VFunction 9) VUndefined [VNumber 1] w in
  r.1 = Ok true ∧
  invoked (trace r.2) =
    [mkCallback VNull (VFunction 1) [VString "A"];
     mkCallback VNull (VFunction 9) [VString "A"; VNumber 1]] ∧
  executed_codes (trace r.2) = ["o();m();c();v()"].
Proof.
  pose proof (loadPackage_executed_runs_callback_once false PACKAGE_MODE_NORMAL
                eval_ok apply_ok demo_world
                [(2%nat, OpLoadPackage "A" (VFunction 1) VUndefined []);
                 (2%nat, OpScriptLoaded "A")] 0 "A" executed_A
                (VFunction 9) VUndefined [VNumber 1]) as H.
  destruct H as (H1 & H2 & H3 & _).
  - apply (bool_decide_unpack _). vm_compute. exact I.
  - vm_compute. reflexivity.
  - reflexivity.
  - reflexivity.
  - reflexivity.
  - reflexivity.
  - split; [exact H1|]. split; [exact H2 | exact H3].
Defined.

(** The second of three callbacks throws: all three are called, in order. *)
Lemma invokeCallbacks_fifo_isolated_once_witness :
  let r := _sc_invokeCallbacksForPackage apply_fail_second "P" executed_world in
  r.1 = Ok tt ∧ invoked (trace r.2) = queued_callbacks ∧
  manifest r.2 = <["P" := Package.set_callbacks None executed_P]> (manifest executed_world).
Proof.
  pose proof (invokeCallbacks_fifo_isolated_once apply_fail_second "P" executed_P
                executed_world eq_refl) as (H1 & _ & H2 & H3 & _).
  split; [exact H1|]. split; [exact H2 | exact H3].
Defined.

(** C8 as stated fails for [isLoaded], which throws on an unknown name. *)
Lemma isLoaded_throws_on_unknown_package :
  (isLoaded (inl "ghost") demo_world).1 =
  Throw "SC.Package.isLoaded() could not find 'ghost'".
Proof. reflexivity. Qed.



(** An object as target and a string as method: nothing is queued. *)
Lemma registerCallback_drops_non_function_witness :
  let r := registerCallbackForPackage false "A" (VObject 1) (VString "done") []
             demo_world in
  r.1 = Ok tt ∧ manifest r.2 = manifest demo_world ∧
  invoked (trace r.2) = invoked (trace demo_world).
Proof.
  apply (proj1 (registerCallback_drops_non_function false "A" (VObject 1)
                  (VString "done") [] demo_world)).
  apply (proj2 (registerCallback_drops_non_function false "A" (VObject 1)
                  (VString "done") [] demo_world)); reflexivity.
Defined.

(** ** The further properties at work on the small manifest *)

(** [A] is requested: a script element is appended for its address. *)
Lemma loadPackage_requests_unloaded_package_witness :
  let r := loadPackage false PACKAGE_MODE_NORMAL eval_ok apply_ok 1 "A"
             (VFunction 1) VUndefined [] demo_world in
  r.1 = Ok false ∧
  ∃ tr, only_logs tr ∧
    trace r.2 = trace demo_world ++ tr ++ [ScriptAppended (Some "/app/packages/a")].
Proof.
  pose proof (loadPackage_requests_unloaded_package false PACKAGE_MODE_NORMAL eval_ok
                apply_ok 0 0 "A" demo_A (VFunction 1) VUndefined (VFunction 2)
                VUndefined [] [] demo_world eq_refl eq_refl) as ((H1 & _ & H2) & _).
  split; [exact H1 | exact H2].
Defined.

(** [B] is loaded and waits for [A]: a call with a callback leaves no trace
    of the callback. *)
Lemma loadPackage_drops_callback_of_stalled_package_witness :
  let r := loadPackage false PACKAGE_MODE_NORMAL eval_ok apply_ok 1 "B"
             (VFunction 1) VUndefined [] waiting_world in
  r.1 = Ok false ∧ manifest r.2 = manifest waiting_world.
Proof.
  pose proof (loadPackage_drops_callback_of_stalled_package false PACKAGE_MODE_NORMAL
                eval_ok apply_ok 0 "B" waiting_B (VFunction 1) VUndefined []
                waiting_world eq_refl eq_refl (or_introl eq_refl)) as (H1 & H2 & _).
  split; [exact H1 | exact H2].
Defined.


(** The script of [A] arrives a second time. *)
Lemma second_arrival_of_executed_package_runs_nothing_witness :
  let w := run_ops false PACKAGE_MODE_NORMAL eval_ok apply_ok load_A demo_world in
  let r := _sc_packageDidLoad false PACKAGE_MODE_NORMAL eval_ok apply_ok 1 "A" w in
  r.1 = Ok tt ∧ ∃ tr, only_logs tr ∧ trace r.2 = trace w ++ tr.
Proof.
  pose proof (second_arrival_of_executed_package_runs_nothing false
                PACKAGE_MODE_NORMAL eval_ok apply_ok demo_world load_A 1 "A"
                executed_A) as H.
  destruct H as (H1 & _ & H2).
  - apply (bool_decide_unpack _). vm_compute. exact I.
  - vm_compute. reflexivity.
  - reflexivity.
  - split; [exact H1 | exact H2].
Defined.

(** [P] has no source. *)
Lemma evaluation_without_code_does_nothing_witness :
  let r := _sc_evaluateJavaScriptForPackage_with false PACKAGE_MODE_NORMAL eval_ok
             (fun _ => ret tt) "P" empty_deps_world in
  r.1 = Ok tt ∧ manifest r.2 = manifest empty_deps_world.
Proof.
  pose proof (evaluation_without_code_does_nothing false PACKAGE_MODE_NORMAL eval_ok
                apply_ok 0 "P" (Package.fresh "app" "p" (Some []) None)
                VUndefined VUndefined [] empty_deps_world eq_refl eq_refl) as H.
  destruct H as (H & _).
  - intros src Hsrc. discriminate Hsrc.
  - destruct (H (fun _ => ret tt)) as (H1 & H2 & _). split; [exact H1 | exact H2].
Defined.

(** The script of [B] arrives before [A] is loaded. *)
Lemma arrival_with_unmet_dependencies_requests_them_witness :
  let r := _sc_packageDidLoad false PACKAGE_MODE_NORMAL eval_ok apply_ok 1 "B"
             demo_world in
  r.1 = Ok tt ∧
  appended (trace r.2) = [Some "/app/packages/a"] ∧
  ∃ q', manifest r.2 !! "A" = Some q' ∧ Package.isLoading q' = true ∧
        "B" ∈ dependents_list q'.
Proof.
  pose proof (arrival_with_unmet_dependencies_requests_them false PACKAGE_MODE_NORMAL
                eval_ok apply_ok 0 "B" demo_B ["A"] demo_world eq_refl eq_refl) as H.
  destruct H as (H1 & _ & H2 & _ & _ & _ & H3 & _).
  - apply (bool_decide_unpack _). vm_compute. exact I.
  - intros d Hd. apply list_elem_of_singleton in Hd. subst d.
    eexists. split; reflexivity.
  - reflexivity.
  - split; [exact H1|]. split; [exact H2|].
    apply H3. apply list_elem_of_singleton. reflexivity.
Defined.


(** [B] has been requested and executed: so has [A], on which it depends. *)
Lemma executed_package_has_executed_dependencies_witness :
  executed_in
    (manifest (run_ops false PACKAGE_MODE_NORMAL eval_ok apply_ok load_B demo_world))
    "A" = true.
Proof.
  eapply (executed_package_has_executed_dependencies false PACKAGE_MODE_NORMAL
            eval_ok apply_ok demo_world load_B "B" "A" demo_B).
  - apply (bool_decide_unpack _). vm_compute. exact I.
  - reflexivity.
  - apply list_elem_of_singleton. reflexivity.
  - vm_compute. reflexivity.
  - reflexivity.
Defined.

(** After [A] has been loaded and executed, it is listed as executed, and
    not as failed. *)
Lemma listings_of_executed_and_failed_are_disjoint_witness :
  let w := run_ops false PACKAGE_MODE_NORMAL eval_ok apply_ok load_A demo_world in
  (executedPackages ["A"; "B"] w).1 = Ok ["A"] ∧
  (failedPackages ["A"; "B"] w).1 = Ok [].
Proof.
  pose proof (listings_of_executed_and_failed_are_disjoint false PACKAGE_MODE_NORMAL
                eval_ok apply_ok demo_world load_A ["A"; "B"]) as H.
  destruct H as (_ & H1 & H2 & _).
  - apply (bool_decide_unpack _). vm_compute. exact I.
  - split; [rewrite H1 | rewrite H2]; vm_compute; reflexivity.
Defined.

(** Both packages of the manifest are requested. *)
Lemma loadAll_requests_every_unloaded_package_witness :
  let r := loadAll false PACKAGE_MODE_NORMAL eval_ok apply_ok 1 ["A"; "B"]
             demo_world in
  r.1 = Ok tt ∧
  appended (trace r.2) = [Some "/app/packages/a"; Some "/app/packages/b"].
Proof.
  pose proof (loadAll_requests_every_unloaded_package false PACKAGE_MODE_NORMAL
                eval_ok apply_ok 0 ["A"; "B"] demo_world) as H.
  destruct H as (H1 & H2 & _).
  - intros x Hx. apply elem_of_cons in Hx as [->|Hx].
    + eexists. split; reflexivity.
    + apply list_elem_of_singleton in Hx. subst x. eexists. split; reflexivity.
  - split; [exact H1 | exact H2].
Defined.


(** [A] is loaded and ready, and its code has thrown: the answer is true. *)
Lemma loadPackage_answers_loaded_and_ready_witness :
  true = holds (fun p => Package.isLoaded p && Package.isReady p)
           (manifest failed_world) "A".
Proof.
  apply (loadPackage_answers_loaded_and_ready false PACKAGE_MODE_NORMAL eval_ok
           apply_ok 0 "A" (VFunction 1) VUndefined [] failed_world true).
  reflexivity.
Defined.


(** The code of [A] has thrown: [A] is not executed by a second request and a
    second arrival of its script. *)
Lemma package_marked_failed_is_never_executed_witness :
  let w := run_ops false PACKAGE_MODE_NORMAL eval_fail apply_ok load_A demo_world in
  ∃ p', manifest (run_ops false PACKAGE_MODE_NORMAL eval_fail apply_ok load_A w)
          !! "A" = Some p' ∧
        Package.isExecuted p' = false.
Proof.
  pose proof (package_marked_failed_is_never_executed false PACKAGE_MODE_NORMAL
                eval_fail apply_ok demo_world load_A load_A "A" thrown_A) as H.
  destruct H as (_ & H).
  - apply (bool_decide_unpack _). vm_compute. exact I.
  - vm_compute. reflexivity.
  - reflexivity.
  - exact H.
Defined.

(** [Q] and [R] depend on each other: neither is executed. *)
Lemma packages_in_a_dependency_cycle_never_execute_witness :
  executed_in
    (manifest (run_ops false PACKAGE_MODE_NORMAL eval_ok apply_ok load_knot knot_world))
    "Q" = false.
Proof.
  apply (packages_in_a_dependency_cycle_never_execute false PACKAGE_MODE_NORMAL
           eval_ok apply_ok ({["Q"]} ∪ {["R"]}) knot_world load_knot "Q").
  - apply (bool_decide_unpack _). vm_compute. exact I.
  - intros x [Hx|Hx]%elem_of_union; apply elem_of_singleton in Hx; subst x.
    + exists (Package.fresh "app" "q" (Some ["R"]) (Some [("other", "q()")])), "R".
      split; [reflexivity|]. split; [apply list_elem_of_singleton; reflexivity|].
      apply elem_of_union. right. apply elem_of_singleton. reflexivity.
    + exists (Package.fresh "app" "r" (Some ["Q"]) (Some [("other", "r()")])), "Q".
      split; [reflexivity|]. split; [apply list_elem_of_singleton; reflexivity|].
      apply elem_of_union. left. apply elem_of_singleton. reflexivity.
  - apply elem_of_union. left. apply elem_of_singleton. reflexivity.
Defined.

(** * The loader run with user code that calls it *)

Import Refined.
Local Open Scope refined_scope.

Section RefinedLoader.

Variable env : Setting.

(** ** Running the monad *)

Lemma refined_bind_ret {A B} (a : A) (k : A -> M B) (w : World) :
  (x <- ret a ;; k x) w = k a w.
Proof. reflexivity. Qed.

Lemma refined_bind_throw {A B} (err : string) (k : A -> M B) (w : World) :
  (x <- throw err ;; k x) w = (Throw err, w).
Proof. reflexivity. Qed.

Lemma refined_bind_assoc {A B C} (m : M A) (k1 : A -> M B) (k2 : B -> M C)
    (w : World) :
  (y <- (x <- m ;; k1 x) ;; k2 y) w = (x <- m ;; y <- k1 x ;; k2 y) w.
Proof. unfold bind. by destruct (m w) as [[a| | |] w']. Qed.

Lemma refined_bind_run {A B} (m : M A) (k : A -> M B) (w w' : World) (a : A) :
  m w = (Ok a, w') -> (x <- m ;; k x) w = k a w'.
Proof. unfold bind. by intros ->. Qed.

Lemma refined_bind_throw_run {A B} (m : M A) (k : A -> M B) (w w' : World)
    (err : string) :
  m w = (Throw err, w') -> (x <- m ;; k x) w = (Throw err, w').
Proof. unfold bind. by intros ->. Qed.

Lemma refined_bind_ext {A B} (m : M A) (k1 k2 : A -> M B) (w : World) :
  (∀ a w', k1 a w' = k2 a w') -> (x <- m ;; k1 x) w = (x <- m ;; k2 x) w.
Proof. intros H. unfold bind. destruct (m w) as [[a| | |] w']; auto. Qed.

(** [packages[name]] finds a package of the manifest, and finds nothing
    under a name that is neither in the manifest nor inherited. *)
Lemma get_known (name : string) (p : Package.t) (w : World) :
  manifest w !! name = Some p -> packages_get env name w = (Ok (Some p), w).
Proof. unfold packages_get. by intros ->. Qed.

Lemma get_unknown (name : string) (w : World) :
  manifest w !! name = None -> inherited env name = false ->
  packages_get env name w = (Ok None, w).
Proof. unfold packages_get. by intros -> ->. Qed.

Lemma bind_get_known {B} (name : string) (p : Package.t)
    (k : option Package.t -> M B) (w : World) :
  manifest w !! name = Some p -> (x <- packages_get env name ;; k x) w = k (Some p) w.
Proof. intros H. by rewrite (refined_bind_run _ _ _ _ _ (get_known _ _ _ H)). Qed.

Lemma bind_get_unknown {B} (name : string) (k : option Package.t -> M B)
    (w : World) :
  manifest w !! name = None -> inherited env name = false ->
  (x <- packages_get env name ;; k x) w = k None w.
Proof. intros H1 H2. by rewrite (refined_bind_run _ _ _ _ _ (get_unknown _ _ H1 H2)). Qed.

Lemma refined_bind_update {B} (name : string) (f : Package.t -> Package.t)
    (k : unit -> M B) (w : World) :
  (x <- update name f ;; k x) w =
  k tt (mkWorld (alter f name (manifest w)) (queues w) (arrays w) (trace w)).
Proof. reflexivity. Qed.

Lemma refined_bind_emit {B} (e : Event) (k : unit -> M B) (w : World) :
  (x <- emit e ;; k x) w =
  k tt (mkWorld (manifest w) (queues w) (arrays w) (trace w ++ [e])).
Proof. reflexivity. Qed.

Lemma refined_bind_warn {B} (msg : string) (k : unit -> M B) (w : World) :
  (x <- warn msg ;; k x) w =
  k tt (mkWorld (manifest w) (queues w) (arrays w) (trace w ++ [LogWarn msg])).
Proof. reflexivity. Qed.

Lemma refined_log_info_run (msg : string) (w : World) :
  log_info env msg w =
  (Ok tt, mkWorld (manifest w) (queues w) (arrays w)
            (trace w ++ if log env then [LogInfo msg] else [])).
Proof.
  unfold log_info, info, emit, ret. destruct (log env); [done|].
  rewrite app_nil_r. by destruct w.
Qed.

Lemma refined_log_warn_run (msg : string) (w : World) :
  log_warn env msg w =
  (Ok tt, mkWorld (manifest w) (queues w) (arrays w)
            (trace w ++ if log env then [LogWarn msg] else [])).
Proof.
  unfold log_warn, warn, emit, ret. destruct (log env); [done|].
  rewrite app_nil_r. by destruct w.
Qed.

Lemma refined_bind_log_info {B} (msg : string) (k : unit -> M B) (w : World) :
  (x <- log_info env msg ;; k x) w =
  k tt (mkWorld (manifest w) (queues w) (arrays w)
          (trace w ++ if log env then [LogInfo msg] else [])).
Proof. unfold bind. by rewrite refined_log_info_run. Qed.

Lemma refined_bind_log_warn {B} (msg : string) (k : unit -> M B) (w : World) :
  (x <- log_warn env msg ;; k x) w =
  k tt (mkWorld (manifest w) (queues w) (arrays w)
          (trace w ++ if log env then [LogWarn msg] else [])).
Proof. unfold bind. by rewrite refined_log_warn_run. Qed.

Lemma refined_bind_new_array {B} (l : list value) (k : nat -> M B) (w : World) :
  (x <- new_array l ;; k x) w =
  k (length (arrays w))
    (mkWorld (manifest w) (queues w) (arrays w ++ [l]) (trace w)).
Proof. reflexivity. Qed.

Lemma refined_bind_unshift {B} (a : nat) (v : value) (k : unit -> M B) (w : World) :
  (x <- array_unshift a v ;; k x) w =
  k tt (mkWorld (manifest w) (queues w) (alter (cons v) a (arrays w)) (trace w)).
Proof. reflexivity. Qed.

Lemma refined_bind_new_queue {B} (k : nat -> M B) (w : World) :
  (x <- new_queue ;; k x) w =
  k (length (queues w))
    (mkWorld (manifest w) (queues w ++ [[]]) (arrays w) (trace w)).
Proof. reflexivity. Qed.

Lemma refined_ret_run {A} (a : A) (w : World) : ret a w = (Ok a, w).
Proof. reflexivity. Qed.

Lemma refined_throw_run {A} (err : string) (w : World) :
  @throw A err w = (Throw err, w).
Proof. reflexivity. Qed.

Lemma refined_update_run (name : string) (f : Package.t -> Package.t) (w : World) :
  update name f w =
  (Ok tt, mkWorld (alter f name (manifest w)) (queues w) (arrays w) (trace w)).
Proof. reflexivity. Qed.

Lemma refined_emit_run (e : Event) (w : World) :
  emit e w = (Ok tt, mkWorld (manifest w) (queues w) (arrays w) (trace w ++ [e])).
Proof. reflexivity. Qed.

Lemma refined_warn_run (msg : string) (w : World) :
  warn msg w =
  (Ok tt, mkWorld (manifest w) (queues w) (arrays w) (trace w ++ [LogWarn msg])).
Proof. reflexivity. Qed.

Lemma refined_queue_push_run (q : nat) (cb : Closure) (w : World) :
  queue_push q cb w =
  (Ok tt, mkWorld (manifest w) (alter (fun l => l ++ [cb]) q (queues w))
            (arrays w) (trace w)).
Proof. reflexivity. Qed.

(** One step of symbolic execution of a computation applied to a world. *)
Ltac rstep :=
  first
    [ rewrite refined_bind_ret | rewrite refined_bind_throw
    | rewrite refined_bind_update | rewrite refined_bind_emit
    | rewrite refined_bind_warn | rewrite refined_bind_log_info
    | rewrite refined_bind_log_warn | rewrite refined_bind_new_array
    | rewrite refined_bind_unshift | rewrite refined_bind_new_queue
    | rewrite refined_bind_assoc
    | rewrite refined_log_info_run | rewrite refined_log_warn_run
    | rewrite refined_ret_run | rewrite refined_throw_run
    | rewrite refined_update_run | rewrite refined_emit_run
    | rewrite refined_warn_run | rewrite refined_queue_push_run
    | progress cbv beta match
    | progress cbn [manifest queues arrays trace fst snd] ].

Ltac rrun := repeat rstep.

(** ** Names that [packages[name]] does not find *)

(** C8 (as amended).  A name that [packages[name]] does not find is neither
    a package of the manifest nor a member inherited from [Object.prototype].
    For such a name [loadPackage] logs a warning and returns false, and
    [registerCallbackForPackage] and [loadJavaScript] return without a
    result, logging a warning only when [log] is on; none of the three throws
    or changes the manifest or a callback queue.  [isLoaded], however,
    throws. *)
Theorem unknown_package_is_reported (fuel : nat) (packageName : string)
    (target method : value) (args : list value) (array : option nat)
    (w : World) :
  manifest w !! packageName = None ->
  inherited env packageName = false ->
  (let r := loadPackage env (S fuel) packageName target method args w in
   r.1 = Ok false ∧
   manifest r.2 = manifest w ∧
   queues r.2 = queues w ∧
   trace r.2 =
     trace w ++
     (if log env
      then [LogInfo (fmt "SC.Package.loadPackage() for package '%@'" [packageName])]
      else []) ++
     [LogWarn (fmt "SC.Package.loadPackage() could not find package '%@'"
                 [packageName])]) ∧
  (let r := registerCallbackForPackage env packageName target method array w in
   r.1 = Ok tt ∧
   manifest r.2 = manifest w ∧
   queues r.2 = queues w ∧
   trace r.2 =
     trace w ++
     (if log env
      then [LogWarn (fmt ("SC.Package._registerCallbackForPackage() " +:+
                          "could not find package '%@'") [packageName])]
      else [])) ∧
  (let r := loadJavaScript env packageName w in
   r.1 = Ok tt ∧
   manifest r.2 = manifest w ∧
   queues r.2 = queues w ∧
   trace r.2 =
     trace w ++
     (if log env
      then [LogWarn (fmt "SC.Package._sc_urlForPackage() could not find package '%@'"
                       [packageName]);
            LogWarn (fmt "SC.Package.loadJavaScript() could not find package '%@'"
                       [packageName])]
      else [])) ∧
  isLoaded env (inl packageName) w =
    (Throw (fmt "SC.Package.isLoaded() could not find '%@'" [packageName]), w).
Proof.
  intros Hp Hinh. split; [|split; [|split]]; cbv zeta.
  - cbn [loadPackage]. unfold loadPackage_with.
    rewrite bind_get_unknown by done. rrun.
    by rewrite <- app_assoc.
  - unfold registerCallbackForPackage.
    rewrite bind_get_unknown by done.
    destruct array; rrun; done.
  - unfold loadJavaScript, _sc_urlForPackage.
    rewrite bind_get_unknown by done. rrun.
    rewrite bind_get_unknown by done. rrun.
    rewrite <- app_assoc. by destruct (log env).
  - unfold isLoaded. rewrite bind_get_unknown by done. by rrun.
Qed.

Ltac refined_only_logs :=
  repeat first
    [ assumption
    | apply only_logs_nil | apply only_logs_info | apply only_logs_warn
    | apply only_logs_app
    | apply Forall_cons; split; [exact I|] ].

(** X6.  Given a name that [packages[name]] does not find, the functions
    behind the public ones return without a throw and change nothing but the
    log: [_sc_dependenciesMetForPackage] answers false, [_sc_urlForPackage]
    answers null, and the evaluation, the two notifications and the loading
    of the dependencies do nothing (none of them goes on to the next stage).
    [_sc_invokeCallbacksForPackage] alone has no guard, and throws. *)
Theorem unknown_package_in_private_functions (fuel n : nat) (packageName : string)
    (perform : Call -> M unit) (invokeCallbacks didExecute : string -> M unit)
    (loadPackage : string -> M bool) (w : World) :
  manifest w !! packageName = None ->
  inherited env packageName = false ->
  (∃ tr, only_logs tr ∧
     _sc_dependenciesMetForPackage env packageName w = (Ok false, logged w tr)) ∧
  (∃ tr, only_logs tr ∧
     _sc_urlForPackage env packageName w = (Ok None, logged w tr)) ∧
  (∃ tr, only_logs tr ∧
     _sc_evaluateJavaScriptForPackage_with env perform didExecute packageName w =
     (Ok tt, logged w tr)) ∧
  (∃ tr, only_logs tr ∧
     _sc_packageDidExecute_with env invokeCallbacks loadPackage packageName w =
     (Ok tt, logged w tr)) ∧
  (∃ tr, only_logs tr ∧
     _sc_packageDidLoad env fuel packageName w = (Ok tt, logged w tr)) ∧
  (∃ tr, only_logs tr ∧
     _sc_loadDependenciesForPackage env fuel packageName w = (Ok tt, logged w tr)) ∧
  _sc_invokeCallbacksForPackage_with env perform n packageName w =
    (Throw "TypeError: Cannot read property 'callbacks' of undefined", w).
Proof.
  intros Hp Hinh. unfold logged. repeat split.
  - unfold _sc_dependenciesMetForPackage.
    rewrite bind_get_unknown by done. rrun.
    rewrite <- app_assoc. eexists. split; [|reflexivity]. refined_only_logs.
  - unfold _sc_urlForPackage.
    rewrite bind_get_unknown by done. rrun.
    eexists. split; [|reflexivity]. refined_only_logs.
  - unfold _sc_evaluateJavaScriptForPackage_with.
    rewrite bind_get_unknown by done. rrun.
    rewrite <- app_assoc. eexists. split; [|reflexivity]. refined_only_logs.
  - unfold _sc_packageDidExecute_with.
    rewrite bind_get_unknown by done. rrun.
    rewrite <- app_assoc. eexists. split; [|reflexivity]. refined_only_logs.
  - unfold _sc_packageDidLoad.
    rewrite bind_get_unknown by done. rrun.
    rewrite <- app_assoc. eexists. split; [|reflexivity]. refined_only_logs.
  - unfold _sc_loadDependenciesForPackage.
    rewrite bind_get_unknown by done. rrun.
    rewrite <- app_assoc. eexists. split; [|reflexivity]. refined_only_logs.
  - unfold _sc_invokeCallbacksForPackage_with.
    rewrite bind_get_unknown by done. by rrun.
Qed.

(** ** The check of the dependencies, when one is unknown *)

Lemma refined_alter_lookup_insert (f : Package.t -> Package.t) (name : string)
    (p : Package.t) (m : gmap string Package.t) :
  m !! name = Some p -> alter f name m = <[name := f p]> m.
Proof.
  intros Hp. apply map_eq; intros k. rewrite lookup_alter, lookup_insert.
  case_decide; [subst k; by rewrite Hp | done].
Qed.

Lemma refined_for_fold_app {A B} (l1 l2 : list A) (b : B) (body : B -> A -> M B)
    (w : World) :
  for_fold (l1 ++ l2) b body w =
  (b' <- for_fold l1 b body ;; for_fold l2 b' body) w.
Proof.
  revert b w. induction l1 as [|x l1 IH]; intros b w; cbn [for_fold app].
  - by rewrite refined_bind_ret.
  - rewrite refined_bind_assoc. apply refined_bind_ext. intros b' w'. apply IH.
Qed.

(** The run of the loop of [_sc_dependenciesMetForPackage] over names of the
    manifest: the answer, and the ready flag cleared when a dependency is not
    executed. *)
Lemma refined_check_loop_run (packageName : string) (l : list string) (b : bool)
    (w : World) :
  Forall (fun x => is_Some (manifest w !! x)) l ->
  for_fold l b (check_dependency env packageName) w =
  (Ok (b && forallb (executed_in (manifest w)) l),
   mkWorld
     (if forallb (executed_in (manifest w)) l then manifest w
      else alter (Package.set_isReady false) packageName (manifest w))
     (queues w) (arrays w) (trace w)).
Proof.
  revert b w. induction l as [|x l IH]; intros b w Hall; cbn [for_fold forallb].
  { rewrite refined_ret_run, andb_true_r. by destruct w. }
  apply Forall_cons in Hall as [[q Hq] Hall].
  assert (Hx : executed_in (manifest w) x = Package.isExecuted q).
  { unfold executed_in. by rewrite Hq. }
  rewrite Hx. unfold check_dependency at 1.
  rewrite refined_bind_assoc, (bind_get_known _ _ _ _ Hq).
  destruct (Package.isExecuted q); cbn [negb andb]; rrun.
  - by apply IH.
  - rewrite IH.
    2:{ cbn [manifest]. eapply Forall_impl; [exact Hall|].
        intros y Hy. by rewrite lookup_alter_is_Some. }
    cbn [manifest queues arrays trace]. rewrite andb_false_r, alter_alter_eq.
    by destruct (forallb _ l).
Qed.

(** The run of the same loop when it meets a name that [packages[name]] does
    not find. *)
Lemma refined_check_loop_missing (packageName d : string) (l1 l2 : list string)
    (b : bool) (w : World) :
  Forall (fun x => is_Some (manifest w !! x)) l1 ->
  manifest w !! d = None ->
  inherited env d = false ->
  for_fold (l1 ++ d :: l2) b (check_dependency env packageName) w =
  (Throw (fmt ("SC.Package._sc_dependenciesMetForPackage() could not find a " +:+
               "requried dependency for package '%@'; needed '%@'")
            [packageName; d]),
   mkWorld
     (if forallb (executed_in (manifest w)) l1 then manifest w
      else alter (Package.set_isReady false) packageName (manifest w))
     (queues w) (arrays w) (trace w)).
Proof.
  intros Hall Hd Hinh. rewrite refined_for_fold_app.
  erewrite refined_bind_run by (by apply refined_check_loop_run).
  cbn [for_fold]. apply refined_bind_throw_run. unfold check_dependency.
  rewrite bind_get_unknown; [by rrun| |done].
  cbn [manifest]. destruct (forallb _ l1); [done|]. by rewrite lookup_alter_None.
Qed.

Lemma refined_forallb_same {A} (f g : A -> bool) (l : list A) :
  (∀ x, f x = g x) -> forallb f l = forallb g l.
Proof.
  intros Hfg. induction l as [|x l IH]; [done|]. simpl. by rewrite Hfg, IH.
Qed.

(** X8.  The script of a package arrives, and its dependency list holds a
    name [d] that [packages[d]] does not find: [d] is not in the manifest and
    is not inherited from [Object.prototype] (the names before [d] are in the
    manifest).  The handler throws, from the check of the dependencies and
    with a message that names the package and [d]; it has by then marked the
    package as loaded, and cleared its ready flag if a dependency before [d]
    is not executed.  Nothing else is changed, no dependency is requested,
    and no code is run. *)
Theorem arrival_with_unknown_dependency_throws (fuel : nat) (packageName d : string)
    (p : Package.t) (l1 l2 : list string) (w : World) :
  manifest w !! packageName = Some p ->
  Package.dependencies p = Some (l1 ++ d :: l2) ->
  Forall (fun x => is_Some (manifest w !! x)) l1 ->
  manifest w !! d = None ->
  inherited env d = false ->
  let r := _sc_packageDidLoad env fuel packageName w in
  let p1 := Package.set_isLoading false (Package.set_isLoaded true p) in
  r.1 = Throw (fmt ("SC.Package._sc_dependenciesMetForPackage() could not find a " +:+
                    "requried dependency for package '%@'; needed '%@'")
                 [packageName; d]) ∧
  manifest r.2 =
    <[packageName :=
        if forallb (executed_in (manifest w)) l1 then p1
        else Package.set_isReady false p1]> (manifest w) ∧
  queues r.2 = queues w ∧ arrays r.2 = arrays w ∧
  ∃ tr, only_logs tr ∧ trace r.2 = trace w ++ tr.
Proof.
  intros Hp Hdeps Hall Hd Hinh r p1.
  assert (Hne : packageName ≠ d) by (intros ->; congruence).
  assert (Hrun : ∃ tr, only_logs tr ∧
            r = (Throw (fmt ("SC.Package._sc_dependenciesMetForPackage() could not find a " +:+
                             "requried dependency for package '%@'; needed '%@'")
                          [packageName; d]),
                 mkWorld
                   (<[packageName :=
                        if forallb (executed_in (manifest w)) l1 then p1
                        else Package.set_isReady false p1]> (manifest w))
                   (queues w) (arrays w) (trace w ++ tr))).
  { subst r. unfold _sc_packageDidLoad.
    rewrite (bind_get_known _ _ _ _ Hp). rrun.
    rewrite alter_alter_eq, (refined_alter_lookup_insert _ _ p) by done.
    change ((Package.set_isLoading false ∘ Package.set_isLoaded true) p) with p1.
    unfold _sc_dependenciesMetForPackage. rewrite refined_bind_assoc.
    erewrite bind_get_known by (cbn [manifest]; apply lookup_insert_eq). rrun.
    change (Package.dependencies p1) with (Package.dependencies p). rewrite Hdeps.
    destruct (l1 ++ d :: l2) as [|y l] eqn:Hl; [by destruct l1|]. rewrite <- Hl.
    rrun. set (w1 := mkWorld _ _ _ _).
    assert (Hall1 : Forall (fun x => is_Some (manifest w1 !! x)) l1).
    { subst w1. cbn [manifest]. eapply Forall_impl; [exact Hall|].
      intros x Hx. rewrite lookup_insert_is_Some'. by right. }
    assert (Hd1 : manifest w1 !! d = None).
    { subst w1. cbn [manifest]. by rewrite lookup_insert_ne. }
    rewrite (refined_bind_throw_run _ _ _ _ _
               (refined_check_loop_missing packageName d l1 l2 true w1 Hall1 Hd1 Hinh)).
    subst w1. cbn [manifest queues arrays trace].
    assert (Hexec : forallb (executed_in (<[packageName := p1]> (manifest w))) l1 =
                    forallb (executed_in (manifest w)) l1).
    { apply refined_forallb_same. intros x. unfold executed_in.
      destruct (decide (x = packageName)) as [->|Hx].
      - by rewrite lookup_insert_eq, Hp.
      - by rewrite lookup_insert_ne. }
    rewrite Hexec, <- app_assoc. eexists. split; [|f_equal; f_equal].
    + refined_only_logs.
    + clear Hexec. destruct (forallb (executed_in (manifest w)) l1); [done|].
      by rewrite alter_insert_eq. }
  destruct Hrun as (tr & Htr & ->). cbn [fst snd manifest queues arrays trace].
  split; [done|]. split; [done|]. split; [done|]. split; [done|]. by exists tr.
Qed.

(** ** From the registration of a callback to its call *)

Lemma list_alter_is_insert {A} (f : A -> A) (i : nat) (x : A) (l : list A) :
  l !! i = Some x -> alter f i l = <[i := f x]> l.
Proof.
  intros Hx. apply list_eq. intros j.
  destruct (decide (i = j)) as [<-|Hne].
  - rewrite list_lookup_alter_eq, Hx, list_lookup_insert_eq; [done|].
    by eapply lookup_lt_Some.
  - by rewrite list_lookup_alter_ne, list_lookup_insert_ne.
Qed.

(** The call of a closure whose function does not call the loader: the
    function is applied to the elements that the captured array holds at
    that time, and an error it raises is logged. *)
Lemma invoke_callback_run (perform : Call -> M unit) (name : string)
    (cb : Closure) (l : list value) (w : World) :
  arrays w !! args cb = Some l ->
  calls (body env (method cb) (times_called (method cb) (trace w))) = [] ->
  invoke_callback env perform name cb w =
  (Ok tt,
   logged w
     (Invoked (mkCallback (target cb) (method cb) l) ::
      match raises (body env (method cb) (times_called (method cb) (trace w))) with
      | Some _ => [callback_warning name]
      | None => []
      end)).
Proof.
  intros Hl Hcalls. unfold invoke_callback, try_catch, run_user, logged.
  unfold bind at 1. unfold array_get. rewrite Hl. cbn [default].
  unfold bind at 1. unfold get_trace.
  rewrite refined_bind_emit. rewrite Hcalls. cbn [for_each].
  rewrite refined_bind_ret.
  destruct (raises _) as [err|].
  - rewrite refined_throw_run, refined_warn_run. cbn [manifest queues arrays trace].
    by rewrite <- app_assoc.
  - by rewrite refined_ret_run.
Qed.

(** X7.  [registerCallbackForPackage] with a function as target or as method
    puts the package name at the head of the caller's argument array itself
    (after the method, when the function is the target and a method comes
    with it), and pushes one closure, which keeps that array, at the end of
    the queue of the package, a new queue if the package has none.  When the
    closure is called later, the function gets the elements the array holds
    then: those left by the registration, unless the array has been changed
    in between.  A function given as target is called without a context, a
    function given as method in the context of the target. *)
Theorem registered_callback_is_called_with_package_name (packageName : string)
    (p : Package.t) (target method : value) (a : nat) (l : list value)
    (old : list Closure) (w : World) :
  manifest w !! packageName = Some p ->
  arrays w !! a = Some l ->
  match Package.callbacks p with
  | Some q => queues w !! q = Some old
  | None => old = []
  end ->
  is_function target = true ∨ is_function method = true ->
  let l' :=
    VString packageName ::
    (if is_function target && negb (SC_none method) then method :: l else l) in
  let target' :=
    if is_function target then VNull
    else if truthy target then target else VNull in
  let method' := if is_function target then target else method in
  let cb := mkClosure target' method' a in
  let q := default (length (queues w)) (Package.callbacks p) in
  let r := registerCallbackForPackage env packageName target method (Some a) w in
  r.1 = Ok tt ∧ trace r.2 = trace w ∧
  arrays r.2 = <[a := l']> (arrays w) ∧
  manifest r.2 = <[packageName := Package.set_callbacks (Some q) p]> (manifest w) ∧
  queues r.2 !! q = Some (old ++ [cb]) ∧
  (∀ q', q' ≠ q -> (q' < length (queues w))%nat -> queues r.2 !! q' = queues w !! q') ∧
  ∀ (perform : Call -> M unit) (name : string) (w2 : World) (l2 : list value),
    arrays w2 !! a = Some l2 ->
    calls (body env method' (times_called method' (trace w2))) = [] ->
    invoke_callback env perform name cb w2 =
    (Ok tt,
     logged w2
       (Invoked (mkCallback target' method' l2) ::
        match raises (body env method' (times_called method' (trace w2))) with
        | Some _ => [callback_warning name]
        | None => []
        end)).
Proof.
  intros Hp Ha Hold Hfun l' target' method' cb q r.
  assert (Hmethod : is_function method' = true ∧ truthy method' = true).
  { subst method'. destruct (is_function target) eqn:Ht.
    - by destruct target.
    - destruct Hfun as [?|Hm]; [done|]. by destruct method. }
  destruct Hmethod as [Hmf Hmt].
  assert (Hnone : SC_none target && SC_none method = false).
  { destruct Hfun as [H|H]; [by destruct target|].
    destruct method; try done. apply andb_false_r. }
  assert (Hrun : r =
            (Ok tt,
             mkWorld
               (match Package.callbacks p with
                | Some _ => manifest w
                | None => alter (Package.set_callbacks (Some q)) packageName (manifest w)
                end)
               (alter (fun l => l ++ [cb]) q
                  (match Package.callbacks p with
                   | Some _ => queues w
                   | None => queues w ++ [[]]
                   end))
               (<[a := l']> (arrays w)) (trace w))).
  { subst r. unfold registerCallbackForPackage.
    rewrite (bind_get_known _ _ _ _ Hp). rrun. rewrite Hnone.
    assert (Hshape :
      ∀ k : value * value -> M unit,
        (tm <- (if truthy target
                then if is_function target
                     then (if negb (SC_none method) then array_unshift a method
                           else ret tt) ;; ret (VNull, target)
                     else ret (target, method)
                else ret (VNull, method)) ;; k tm) w =
        k (target', method')
          (mkWorld (manifest w) (queues w)
             (<[a := if is_function target && negb (SC_none method)
                     then method :: l else l]> (arrays w)) (trace w))).
    { intros k. subst target' method'.
      destruct (is_function target) eqn:Ht.
      - assert (truthy target = true) as -> by (by destruct target).
        cbn [andb]. destruct (negb (SC_none method)); rrun.
        + by rewrite (list_alter_is_insert _ _ l).
        + rewrite list_insert_id by done. by destruct w.
      - cbn [andb]. rewrite list_insert_id by done.
        destruct (truthy target); rrun; by destruct w. }
    rewrite Hshape. cbv beta iota. rewrite Hmf, Hmt. cbn [negb orb].
    rrun. fold cb.
    assert (Harr : alter (cons (VString packageName)) a
                     (<[a := if is_function target && negb (SC_none method)
                             then method :: l else l]> (arrays w)) =
                   <[a := l']> (arrays w)).
    { erewrite list_alter_is_insert.
      2:{ apply list_lookup_insert_eq. by eapply lookup_lt_Some. }
      by rewrite list_insert_insert_eq. }
    rewrite Harr. subst q.
    destruct (Package.callbacks p) as [q0|]; rrun; reflexivity. }
  rewrite Hrun. cbn [fst snd manifest queues arrays trace].
  split; [done|]. split; [done|]. split; [done|].
  split; [|split; [|split]].
  - subst q. destruct (Package.callbacks p) as [q0|] eqn:Hq; cbn [default]; unfold id.
    + rewrite insert_id; [done|]. rewrite Hp. f_equal.
      destruct p. simpl in *. by subst.
    + by apply refined_alter_lookup_insert.
  - subst q. destruct (Package.callbacks p) as [q0|] eqn:Hq; cbn [default]; unfold id.
    + by rewrite list_lookup_alter_eq, Hold.
    + subst old. rewrite list_lookup_alter_eq.
      by rewrite lookup_app_r, Nat.sub_diag by done.
  - intros q' Hq' Hlt. rewrite list_lookup_alter_ne by done.
    destruct (Package.callbacks p); [done|]. by rewrite lookup_app_l.
  - intros perform name w2 l2 Hl2 Hcalls.
    by apply (invoke_callback_run perform name cb l2 w2).
Qed.

End RefinedLoader.

(** ** Examples *)

(** The name [ghost] is not in the manifest and is not inherited. *)
Lemma unknown_package_is_reported_witness :
  (loadPackage quiet 1 "ghost" (VFunction 9) VUndefined [] new_world).1 = Ok false ∧
  isLoaded quiet (inl "ghost") new_world =
    (Throw "SC.Package.isLoaded() could not find 'ghost'", new_world).
Proof.
  pose proof (unknown_package_is_reported quiet 0 "ghost" (VFunction 9) VUndefined
                [] None new_world eq_refl eq_refl)
    as ((H1 & _) & _ & _ & H2).
  split; [exact H1 | exact H2].
Defined.

Lemma unknown_package_in_private_functions_witness :
  (_sc_dependenciesMetForPackage quiet "ghost" new_world).1 = Ok false ∧
  _sc_invokeCallbacksForPackage quiet 1 "ghost" new_world =
    (Throw "TypeError: Cannot read property 'callbacks' of undefined", new_world).
Proof.
  pose proof (unknown_package_in_private_functions quiet 0 2 "ghost"
                (perform quiet 1) (fun _ => ret tt) (fun _ => ret tt)
                (fun _ => ret true) new_world eq_refl eq_refl)
    as ((tr & _ & H1) & _ & _ & _ & _ & _ & H2).
  split; [by rewrite H1 | exact H2].
Defined.

(** A second registration with the array of the first one: the array now
    holds the package name twice, and that is what the function gets. *)
Lemma registered_callback_is_called_with_package_name_witness :
  let r := registerCallbackForPackage quiet "P" (VObject 2) (VFunction 2) (Some 0%nat)
             queued_world in
  arrays r.2 = [[VString "P"; VString "P"; VNumber 7]] ∧
  queues r.2 = [[mkClosure (VObject 1) (VFunction 1) 0;
                 mkClosure (VObject 2) (VFunction 2) 0]] ∧
  (invoke_callback quiet (perform quiet 0) "P"
     (mkClosure (VObject 2) (VFunction 2) 0) r.2).2 =
  logged r.2
    [Invoked (mkCallback (VObject 2) (VFunction 2)
                [VString "P"; VString "P"; VNumber 7])].
Proof.
  pose proof (registered_callback_is_called_with_package_name quiet "P" queued_P
                (VObject 2) (VFunction 2) 0 [VString "P"; VNumber 7]
                [mkClosure (VObject 1) (VFunction 1) 0] queued_world
                eq_refl eq_refl eq_refl (or_intror eq_refl))
    as (_ & _ & H1 & _ & _ & _ & H2).
  split; [exact H1|]. split; [reflexivity|].
  by rewrite (H2 (perform quiet 0) "P" _ [VString "P"; VString "P"; VNumber 7]).
Defined.

(** The script of [P], which lists [ghost], arrives. *)
Lemma arrival_with_unknown_dependency_throws_witness :
  (_sc_packageDidLoad quiet 1 "P" orphan_world).1 =
  Throw ("SC.Package._sc_dependenciesMetForPackage() could not find a " +:+
         "requried dependency for package 'P'; needed 'ghost'").
Proof.
  pose proof (arrival_with_unknown_dependency_throws quiet 1 "P" "ghost" orphan_P
                ["A"] [] orphan_world eq_refl eq_refl) as H.
  destruct H as (H & _).
  - apply Forall_cons. split; [by eexists | apply Forall_nil_2].
  - reflexivity.
  - reflexivity.
  - exact H.
Defined.

(** C7, the code at a failing input.  Two callbacks are registered with the
    request for [P], and the script of [P] arrives.  The first callback asks
    the loader for [P] when it is called.  The queue is still on the hash
    then, since it is deleted only after the loop, and the inner call runs it
    from its start: the callbacks are called in the order first, first,
    second, second, each of them twice.  When no callback calls the loader,
    each is called once. *)
Lemma queue_runs_twice_when_a_callback_asks_again :
  let first := mkCallback (VObject 1) (VFunction 1) [VString "P"] in
  let second := mkCallback (VObject 2) (VFunction 2) [VString "P"; VNumber 7] in
  let r := two_callbacks_then_arrival reentrant in
  r.1 = Ok tt ∧
  invoked (trace r.2) = [first; first; second; second] ∧
  invoked (trace (two_callbacks_then_arrival quiet).2) = [first; second].
Proof. vm_compute. done. Qed.

(** C6, the code at a failing input.  [P] is executed and a callback is in
    its queue that asks the loader for [P] when it is called.  [loadPackage]
    for [P] with a new callback registers it and runs the queue; the inner
    call runs the queue as well, the new callback with it: the new callback
    is called twice.  No code is executed. *)
Lemma new_callback_runs_twice_when_a_queued_one_asks_again :
  let queued := mkCallback (VObject 1) (VFunction 1) [VString "P"; VNumber 7] in
  let new := mkCallback (VObject 2) (VFunction 2) [VString "P"] in
  let r := loadPackage reentrant 4 "P" (VObject 2) (VFunction 2) [] queued_world in
  r.1 = Ok true ∧
  invoked (trace r.2) = [queued; queued; new; new] ∧
  executed_codes (trace r.2) = [].
Proof. vm_compute. done. Qed.
